(** * VFS2 container codec (vfs2.py): shallow embedding and verified properties

    The development follows the layout of [vfs2.py]:
    - Python values: bytes, integers and their 4-byte little-endian encoding;
    - the binary streams the codec reads from and writes to;
    - the primitive, record and container codecs ([read_int] ... [write_vfs]);
    - [build_path] over a model of [pathlib]'s POSIX paths;
    - the unpack ([decompress]) and pack ([compress]) engines over a model of
      the file system, with zlib taken as a parameter;
    - the properties of the specification, one theorem per claim. *)

From Stdlib Require Import ZArith Lia List Strings.String Strings.Ascii Strings.Byte.
From stdpp Require Import base option list sorting gmap strings.

Local Open Scope Z_scope.

(** ** Python values *)

(** A [bytes] object is a list of bytes; a Python [int] is an unbounded
    integer; a [str] is a string whose characters are code points below 256
    (a code point of 128 or more is what the ASCII codec refuses). *)
Abbreviation bytes := (list byte).

Definition Z_of_byte (b : byte) : Z := Z.of_N (Byte.to_N b).

Definition byte_of_Z (v : Z) : byte :=
  match Byte.of_N (Z.to_N (v mod 256)) with
  | Some b => b
  | None => x00
  end.

#[global] Instance byte_eq_dec : EqDecision byte := Byte.byte_eq_dec.

(** The exceptions the code can raise. *)
Inductive error : Type :=
| BadMagic            (* ValueError('Bad magic number for vfs header'), line 84 *)
| ReadLengthError     (* ValueError raised by read(n) of a buffered file, n < -1 *)
| OverflowError       (* int.to_bytes: the value does not fit *)
| UnicodeDecodeError  (* bytes.decode('ascii') *)
| UnicodeEncodeError  (* str.encode('ascii') *)
| IndexError          (* list index out of range *)
| RecursionError      (* maximum recursion depth exceeded *)
| ZlibError           (* zlib.error *)
| OSError             (* FileNotFoundError, FileExistsError, IsADirectoryError, ... *)
| NulByteError.       (* ValueError('embedded null byte'), raised for a path by os *)

Inductive result (A : Type) : Type :=
| Ok (a : A)
| Err (e : error).
Arguments Ok {A} a.
Arguments Err {A} e.

(** [int.from_bytes(bs, 'little', signed=...)], for a [bs] of any length. *)
Fixpoint le_value (bs : bytes) : Z :=
  match bs with
  | [] => 0
  | b :: bs' => Z_of_byte b + 256 * le_value bs'
  end.

Definition int_from_bytes (bs : bytes) (signed : bool) : Z :=
  let u := le_value bs in
  let bits := 8 * Z.of_nat (length bs) in
  if signed && (0 <? bits) && (2 ^ (bits - 1) <=? u) then u - 2 ^ bits else u.

(** [v.to_bytes(len, 'little', signed=...)]. *)
Fixpoint le_bytes (len : nat) (v : Z) : bytes :=
  match len with
  | O => []
  | S len' => byte_of_Z (v mod 256) :: le_bytes len' (v / 256)
  end.

Definition int_to_bytes (v : Z) (len : nat) (signed : bool) : result bytes :=
  let bits := 8 * Z.of_nat len in
  if signed then
    if (- 2 ^ (bits - 1) <=? v) && (v <? 2 ^ (bits - 1))
    then Ok (le_bytes len (v mod 2 ^ bits)) else Err OverflowError
  else
    if (0 <=? v) && (v <? 2 ^ bits)
    then Ok (le_bytes len v) else Err OverflowError.

(** [bs.decode('ascii')] and [s.encode('ascii')]. *)
Definition is_ascii_byte (b : byte) : bool := Z_of_byte b <? 128.
Definition is_ascii_char (c : ascii) : bool := Z_of_byte (byte_of_ascii c) <? 128.

Definition decode_ascii (bs : bytes) : result string :=
  if forallb is_ascii_byte bs then Ok (string_of_list_byte bs)
  else Err UnicodeDecodeError.

Definition encode_ascii (s : string) : result bytes :=
  if forallb is_ascii_char (list_ascii_of_string s) then Ok (list_byte_of_string s)
  else Err UnicodeEncodeError.

(** Python's [len] of a [bytes], a [list] or a [str]. *)
Definition len {A} (l : list A) : Z := Z.of_nat (length l).
Definition str_len (s : string) : Z := Z.of_nat (String.length s).

(** ** Computations on a stream: state and exceptions *)

Definition M (S A : Type) : Type := S -> result A * S.

Definition ret {S A} (a : A) : M S A := fun s => (Ok a, s).
Definition raise {S A} (e : error) : M S A := fun s => (Err e, s).
Definition bind {S A B} (m : M S A) (k : A -> M S B) : M S B :=
  fun s => match m s with
           | (Ok a, s') => k a s'
           | (Err e, s') => (Err e, s')
           end.
Definition lift {S A} (r : result A) : M S A := fun s => (r, s).

Declare Scope vfs_scope.
Delimit Scope vfs_scope with vfs.
Notation "'let*' x ':=' m 'in' k" := (bind m (fun x => k))
  (at level 10, x pattern, m at level 100, k at level 200) : vfs_scope.
Notation "m '>>' k" := (bind m (fun _ => k))
  (at level 90, right associativity) : vfs_scope.
Local Open Scope vfs_scope.

(** [for _ in range(n): acc.append(rd(vfs))] *)
Fixpoint read_many {S A} (n : nat) (rd : M S A) : M S (list A) :=
  match n with
  | O => ret []
  | S n' => let* x := rd in let* xs := read_many n' rd in ret (x :: xs)
  end.

(** [for x in xs: wr(vfs, x)] *)
Fixpoint write_each {S A} (wr : A -> M S unit) (xs : list A) : M S unit :=
  match xs with
  | [] => ret tt
  | x :: xs' => wr x >> write_each wr xs'
  end.

(** *** Input streams

    A binary file opened for reading and read front to back: the cursor
    ([tell]) and the bytes from the cursor to the end of the file. *)
Record istream : Type := { tell : Z; rest : bytes }.

(** [vfs.read(n)]: at most [n] bytes, fewer at the end of the file; all the
    remaining bytes for [n = -1]; a buffered file refuses [n < -1]. *)
Definition read (n : Z) : M istream bytes := fun s =>
  if n <? -1 then (Err ReadLengthError, s)
  else
    let got := if n =? -1 then rest s else take (Z.to_nat n) (rest s) in
    (Ok got, {| tell := tell s + len got; rest := drop (length got) (rest s) |}).

Definition get_tell : M istream Z := fun s => (Ok (tell s), s).

(** *** Output streams

    A binary file opened for writing and written front to back: the bytes
    written so far; the cursor is their number. *)
Definition ostream : Type := bytes.

Definition write (bs : bytes) : M ostream unit := fun out => (Ok tt, out ++ bs).
Definition put_tell : M ostream Z := fun out => (Ok (len out), out).

(** ** Records (lines 12-27) *)

Record VfsDir : Type := {
  dir_hash : Z; dir_id : Z; dir_parent : Z; dir_from_dir : Z; dir_from_file : Z }.

Record VfsFile : Type := {
  file_hash : Z; file_id : Z; file_type : Z; file_dir : Z;
  file_offset : Z; file_size : Z }.

(** ** Primitive codec (lines 30-48) *)

Definition magic : bytes := [x56; x46; x53; x32].   (* b'VFS2' *)

Definition bytes_eqb (a b : bytes) : bool := bool_decide (a = b).

Definition read_magic : M istream bool :=
  let* m := read 4 in ret (bytes_eqb m magic).

Definition write_magic : M ostream unit := write magic.

Definition read_int (signed : bool) : M istream Z :=
  let* bs := read 4 in ret (int_from_bytes bs signed).

Definition write_int (value : Z) (signed : bool) : M ostream unit :=
  let* bs := lift (int_to_bytes value 4 signed) in write bs.

Definition read_str : M istream string :=
  let* size := read_int false in
  let* bs := read size in
  lift (decode_ascii bs).

Definition write_str (s : string) : M ostream unit :=
  write_int (str_len s) false >>
  let* bs := lift (encode_ascii s) in
  write bs.

(** ** Record codec (lines 50-80) *)

Definition read_dir : M istream VfsDir :=
  let* hash := read_int false in
  let* id := read_int false in
  let* parent := read_int true in
  let* from_dir := read_int true in
  let* from_file := read_int false in
  ret {| dir_hash := hash; dir_id := id; dir_parent := parent;
         dir_from_dir := from_dir; dir_from_file := from_file |}.

Definition write_dir (dir : VfsDir) : M ostream unit :=
  write_int (dir_hash dir) false >>
  write_int (dir_id dir) false >>
  write_int (dir_parent dir) true >>
  write_int (dir_from_dir dir) true >>
  write_int (dir_from_file dir) false.

Definition read_file : M istream VfsFile :=
  let* hash := read_int false in
  let* id := read_int false in
  let* type := read_int false in
  let* dir := read_int false in
  let* offset := read_int false in
  let* size := read_int false in
  ret {| file_hash := hash; file_id := id; file_type := type; file_dir := dir;
         file_offset := offset; file_size := size |}.

Definition write_file (file : VfsFile) : M ostream unit :=
  write_int (file_hash file) false >>
  write_int (file_id file) false >>
  write_int (file_type file) false >>
  write_int (file_dir file) false >>
  write_int (file_offset file) false >>
  write_int (file_size file) false.

(** ** Container codec (lines 82-118) *)

(** What [read_vfs] returns: [dirs, files, blob, fnames, dnames]. *)
Record archive : Type := {
  dirs : list VfsDir; files : list VfsFile; blob : bytes;
  fnames : list string; dnames : list string }.

(** Line 95: [vfs.read(read_int(vfs) - vfs.tell())]; the left operand is
    evaluated first, so [tell] is the position after the 4-byte field. *)
Definition read_blob : M istream bytes :=
  let* end_offset := read_int false in
  let* here := get_tell in
  read (end_offset - here).

Definition read_vfs : M istream archive :=
  let* ok := read_magic in
  if negb ok then raise BadMagic else
  let* ndirs := read_int false in
  let* dirs := read_many (Z.to_nat ndirs) read_dir in
  let* nfiles := read_int false in
  let* files := read_many (Z.to_nat nfiles) read_file in
  let* blob := read_blob in
  let* nfnames := read_int false in
  let* fnames := read_many (Z.to_nat nfnames) read_str in
  let* ndnames := read_int false in
  let* dnames := read_many (Z.to_nat ndnames) read_str in
  ret {| dirs := dirs; files := files; blob := blob;
         fnames := fnames; dnames := dnames |}.

Definition write_vfs (a : archive) : M ostream unit :=
  write_magic >>
  write_int (len (dirs a)) false >>
  write_each write_dir (dirs a) >>
  write_int (len (files a)) false >>
  write_each write_file (files a) >>
  (let* here := put_tell in write_int (len (blob a) + here + 4) false) >>
  write (blob a) >>
  write_int (len (files a)) false >>
  write_each write_str (fnames a) >>
  write_int (len (dirs a)) false >>
  write_each write_str (dnames a).

(** ** Python lists: indexing and slicing *)

Definition bind_result {A B} (r : result A) (k : A -> result B) : result B :=
  match r with
  | Ok a => k a
  | Err e => Err e
  end.
Notation "'let?' x ':=' r 'in' k" := (bind_result r (fun x => k))
  (at level 10, x pattern, r at level 100, k at level 200) : vfs_scope.

(** [l[i]]: a negative index counts from the end. *)
Definition py_index {A} (l : list A) (i : Z) : result A :=
  let j := if i <? 0 then i + len l else i in
  if j <? 0 then Err IndexError
  else match l !! Z.to_nat j with
       | Some x => Ok x
       | None => Err IndexError
       end.

(** [l[a:b]]: bounds are clamped to the list, negative ones count from the end. *)
Definition clamp_index (n i : Z) : Z :=
  if i <? 0 then Z.max (i + n) 0 else Z.min i n.

Definition py_slice {A} (l : list A) (a b : Z) : list A :=
  let lo := clamp_index (len l) a in
  let hi := clamp_index (len l) b in
  take (Z.to_nat (hi - lo)) (drop (Z.to_nat lo) l).

(** [sorted(l, key=...)]: the stable sort. *)
Fixpoint insert_by {A} (key : A -> Z) (x : A) (l : list A) : list A :=
  match l with
  | [] => [x]
  | y :: l' => if key x <=? key y then x :: l else y :: insert_by key x l'
  end.

Definition sorted {A} (key : A -> Z) (l : list A) : list A :=
  foldr (insert_by key) [] l.

(** ** Paths: pathlib's pure POSIX paths

    A path is its root ([""] for a relative path, ["/"] or ["//"]) and its
    components. Parsing drops empty and ["."] components; [".."] is kept. *)
Record Path : Type := { root : string; parts : list string }.

#[global] Instance Path_eq_dec : EqDecision Path.
Proof. solve_decision. Defined.

#[global] Instance Path_countable : Countable Path :=
  inj_countable' (fun p => (root p, parts p))
                 (fun rp => {| root := rp.1; parts := rp.2 |})
                 (fun p => match p with Build_Path _ _ => eq_refl end).

Definition slash : ascii := "/"%char.

(** [s.split('/')] *)
Fixpoint split_slash (s : string) : list string :=
  match s with
  | EmptyString => [EmptyString]
  | String c s' =>
      if bool_decide (c = slash) then EmptyString :: split_slash s'
      else match split_slash s' with
           | [] => [String c EmptyString]
           | w :: ws => String c w :: ws
           end
  end.

(** [s.lstrip('/')] *)
Fixpoint lstrip_slash (s : string) : string :=
  match s with
  | String c s' => if bool_decide (c = slash) then lstrip_slash s' else s
  | EmptyString => s
  end.

Definition is_component (x : string) : bool :=
  negb (bool_decide (x = "")) && negb (bool_decide (x = ".")).

(** [Path(s)] *)
Definition PurePath (s : string) : Path :=
  let stripped := lstrip_slash s in
  let slashes := (String.length s - String.length stripped)%nat in
  {| root := match slashes with O => "" | 2%nat => "//" | _ => "/" end;
     parts := List.filter is_component (split_slash stripped) |}.

(** [p.joinpath(q)]: an absolute [q] replaces [p]. *)
Definition joinpath (p q : Path) : Path :=
  if bool_decide (root q = "") then {| root := root p; parts := parts p ++ parts q |}
  else q.

(** [p / s] *)
Definition truediv (p : Path) (s : string) : Path := joinpath p (PurePath s).
Infix "//" := truediv (at level 40, left associativity) : vfs_scope.

(** [str(p)] *)
Definition path_str (p : Path) : string :=
  match parts p with
  | [] => if bool_decide (root p = "") then "." else root p
  | x :: xs => root p +:+ foldl (fun acc y => acc +:+ "/" +:+ y) x xs
  end.

(** ** Path resolver (lines 120-123)

    The recursion of [build_path] follows parent links and need not end;
    [fuel] bounds its depth, as the interpreter's recursion limit does. *)
Fixpoint build_path (fuel : nat) (dirs : list VfsDir) (dnames : list string)
    (dir : VfsDir) : result Path :=
  match fuel with
  | O => Err RecursionError
  | S fuel' =>
      if dir_parent dir =? -1 then
        let? name := py_index dnames (dir_id dir) in
        Ok (PurePath name)
      else
        let? parent := py_index dirs (dir_parent dir) in
        let? path := build_path fuel' dirs dnames parent in
        let? name := py_index dnames (dir_id dir) in
        Ok (path // name)
  end.

(** ** The file system

    A location is the list of the names that lead from the root directory
    to a directory or a file. The file system has a working directory, and
    directories and regular files at locations; the root is always a
    directory. A path names a location by resolution: from the root or from
    the working directory, one component after the other, [".."] being the
    directory above. Symbolic and hard links, permissions and the limits on
    the length of names are outside this model. *)
Record filesystem : Type :=
  { fs_cwd : list string;
    fs_dirs : gset (list string);
    fs_files : gmap (list string) bytes }.

Definition is_dir_at (fs : filesystem) (l : list string) : bool :=
  bool_decide (l = []) || bool_decide (l ∈ fs_dirs fs).

Definition is_file_at (fs : filesystem) (l : list string) : bool :=
  bool_decide (is_Some (fs_files fs !! l)).

(** The entry [c] of the directory at [l]; the root is above itself. *)
Definition enter (l : list string) (c : string) : list string :=
  if bool_decide (c = "..") then removelast l else l ++ [c].

Definition has_nul (s : string) : bool :=
  existsb (fun c => bool_decide (c = Ascii.zero)) (list_ascii_of_string s).

(** What a path resolves to. *)
Inductive resolved : Type :=
| At (l : list string)   (* a location, in a directory that exists *)
| NoEntry                (* ENOENT: a directory on the way does not exist *)
| NotDir                 (* ENOTDIR: a file stands on the way *)
| NulByte.               (* the path holds a null byte *)

(** From the directory at [l], along the components [cs]: every component
    is looked up in a directory; the last one need not exist. *)
Fixpoint walk (fs : filesystem) (l : list string) (cs : list string) : resolved :=
  match cs with
  | [] => At l
  | c :: cs' =>
      if is_dir_at fs l then walk fs (enter l c) cs'
      else if is_file_at fs l then NotDir else NoEntry
  end.

(** Where resolution starts: the working directory for a relative path,
    the root otherwise (["//"] is the root as well). *)
Definition origin (cwd : list string) (p : Path) : list string :=
  if bool_decide (root p = "") then cwd else [].

Definition locate (fs : filesystem) (p : Path) : resolved :=
  if existsb has_nul (parts p) then NulByte
  else walk fs (origin (fs_cwd fs) p) (parts p).

(** The location that [p] names when resolution succeeds. *)
Definition norm (cwd : list string) (p : Path) : list string :=
  foldl enter (origin cwd p) (parts p).

(** [p.is_dir()] *)
Definition is_dir (fs : filesystem) (p : Path) : bool :=
  match locate fs p with
  | At l => is_dir_at fs l
  | _ => false
  end.

(** [os.mkdir(p)]: the file system with the new directory, or the error. *)
Inductive made : Type :=
| Made (fs : filesystem)
| Missing                (* FileNotFoundError *)
| Refused                (* FileExistsError, NotADirectoryError *)
| Invalid.               (* ValueError *)

Definition os_mkdir (p : Path) (fs : filesystem) : made :=
  match locate fs p with
  | At l =>
      if is_dir_at fs l || is_file_at fs l then Refused
      else Made {| fs_cwd := fs_cwd fs; fs_dirs := {[ l ]} ∪ fs_dirs fs;
                   fs_files := fs_files fs |}
  | NoEntry => Missing
  | NotDir => Refused
  | NulByte => Invalid
  end.

(** [p.mkdir(exist_ok=True)]:
    [try: os.mkdir(p)]
    [except FileNotFoundError: raise]
    [except OSError: if not p.is_dir(): raise] *)
Definition mkdir_one (p : Path) : M filesystem unit := fun fs =>
  match os_mkdir p fs with
  | Made fs' => (Ok tt, fs')
  | Missing => (Err OSError, fs)
  | Refused => if is_dir fs p then (Ok tt, fs) else (Err OSError, fs)
  | Invalid => (Err NulByteError, fs)
  end.

(** [p.mkdir(parents=True, exist_ok=True)], for the path [p] of the first
    [k] of the components [ps]:
    [try: os.mkdir(p)]
    [except FileNotFoundError:]
    [    if p.parent == p: raise]
    [    p.parent.mkdir(parents=True, exist_ok=True)]
    [    p.mkdir(exist_ok=True)]
    [except OSError: if not p.is_dir(): raise] *)
Fixpoint mkdir_parents (r : string) (ps : list string) (k : nat) : M filesystem unit :=
  fun fs =>
  let p := {| root := r; parts := take k ps |} in
  match os_mkdir p fs with
  | Made fs' => (Ok tt, fs')
  | Missing =>
      match k with
      | O => (Err OSError, fs)
      | S k' => (mkdir_parents r ps k' >> mkdir_one p) fs
      end
  | Refused => if is_dir fs p then (Ok tt, fs) else (Err OSError, fs)
  | Invalid => (Err NulByteError, fs)
  end.

(** [p.mkdir(parents=True, exist_ok=True)] *)
Definition mkdir (p : Path) : M filesystem unit :=
  mkdir_parents (root p) (parts p) (length (parts p)).

(** [p.write_bytes(data)], and [open(p, 'wb')] followed by writes of [data] *)
Definition write_bytes (p : Path) (data : bytes) : M filesystem unit := fun fs =>
  match locate fs p with
  | At l =>
      if is_dir_at fs l then (Err OSError, fs)
      else (Ok tt, {| fs_cwd := fs_cwd fs; fs_dirs := fs_dirs fs;
                      fs_files := <[l := data]> (fs_files fs) |})
  | NulByte => (Err NulByteError, fs)
  | _ => (Err OSError, fs)
  end.

(** [p.read_bytes()], and [open(p, 'rb')] *)
Definition read_bytes (p : Path) : M filesystem bytes := fun fs =>
  match locate fs p with
  | At l =>
      match fs_files fs !! l with
      | Some data => (Ok data, fs)
      | None => (Err OSError, fs)
      end
  | NulByte => (Err NulByteError, fs)
  | _ => (Err OSError, fs)
  end.

(** [with open(name, 'rb') as vfs: x = rd(vfs)] *)
Definition with_open_rb {A} (name : string) (rd : M istream A) : M filesystem A :=
  let* data := read_bytes (PurePath name) in
  lift (rd {| tell := 0; rest := data |}).1.

(** [with open(name, 'wb') as vfs: wr(vfs)]: the file holds what was
    written, also when [wr] raises. *)
Definition with_open_wb (name : string) (wr : M ostream unit) : M filesystem unit :=
  write_bytes (PurePath name) [] >>
  let '(r, out) := wr [] in
  write_bytes (PurePath name) out >>
  lift r.

(** ** Unpack and pack engines (lines 125-162) *)

Section Engines.

(** [zlib.compress(data, level)] and [zlib.decompress(data, bufsize=...)] *)
Variable zcompress : bytes -> Z -> bytes.
Variable zdecompress : bytes -> Z -> result bytes.

Definition VFS_COMPRESSION_LEVEL : Z := 9.

(** Lines 131-134: the content of [file] in [blob]. *)
Definition extract (blob : bytes) (file : VfsFile) : result bytes :=
  let data := py_slice blob (file_offset file) (file_offset file + file_size file) in
  if file_type file =? 0 then Ok data
  else
    let bufsize := int_from_bytes (py_slice data 0 4) false in
    zdecompress (drop 4 data) bufsize.

(** Lines 130-136: the body of the loop of [decompress]. *)
Definition unpack_file (fuel : nat) (a : archive) (prefix : Path) (file : VfsFile)
    : M filesystem unit :=
  let* dir := lift (py_index (dirs a) (file_dir file)) in
  let* path := lift (build_path fuel (dirs a) (dnames a) dir) in
  let* data := lift (extract (blob a) file) in
  mkdir (joinpath prefix path) >>
  let* name := lift (py_index (fnames a) (file_id file)) in
  write_bytes (joinpath prefix (path // name)) data.

Definition decompress (fuel : nat) (vfs : string) (prefix : Path) : M filesystem unit :=
  let* a := with_open_rb vfs read_vfs in
  write_each (unpack_file fuel a prefix) (files a).

(** Line 150 and the argument of line 151:
    [prefix.joinpath(build_path(odirs, odnames, odirs[file.dir]) / ofnames[file.id])],
    the path of [file] in the directory tree under [prefix]. *)
Definition file_path (fuel : nat) (odirs : list VfsDir) (ofnames odnames : list string)
    (prefix : Path) (file : VfsFile) : result Path :=
  let? dir := py_index odirs (file_dir file) in
  let? dpath := build_path fuel odirs odnames dir in
  let? name := py_index ofnames (file_id file) in
  Ok (joinpath prefix (dpath // name)).

(** Lines 150-151: the bytes of [file] in the directory tree under [prefix]. *)
Definition source_data (fuel : nat) (fs : filesystem) (odirs : list VfsDir)
    (ofnames odnames : list string) (prefix : Path) (file : VfsFile) : result bytes :=
  let? path := file_path fuel odirs ofnames odnames prefix file in
  (read_bytes path fs).1.

(** Lines 152-154: what is stored for [data] read from the file system. *)
Definition payload (file : VfsFile) (data : bytes) : result bytes :=
  if file_type file =? 2 then
    let? bufsize := int_to_bytes (len data) 4 false in
    Ok (bufsize ++ zcompress data VFS_COMPRESSION_LEVEL)
  else Ok data.

(** The state of the loop of [compress]. [ofiles] is the table of file
    objects: the list [sorted(ofiles, ...)] shares them with it, so that an
    object is named here by its position in [ofiles], and an assignment to
    [file.size] or [file.offset] shows in the table. *)
Record pack_state : Type := { ofiles : list VfsFile; offset : Z; oblob : bytes }.

(** Line 149: the positions in [ofiles] of the objects of
    [sorted(ofiles, key=lambda f: f.id)]. *)
Definition pack_order (ofiles : list VfsFile) : list nat :=
  sorted (fun i => match ofiles !! i with Some f => file_id f | None => 0 end)
         (seq 0 (length ofiles)).

(** Lines 150-154: the bytes to store for [file]. *)
Definition pack_data (fuel : nat) (fs : filesystem) (odirs : list VfsDir)
    (ofnames odnames : list string) (prefix : Path) (file : VfsFile) : result bytes :=
  let? data := source_data fuel fs odirs ofnames odnames prefix file in
  payload file data.

(** Lines 156-157: [file.size = size; file.offset = offset]. *)
Definition relocate (file : VfsFile) (offset size : Z) : VfsFile :=
  {| file_hash := file_hash file; file_id := file_id file;
     file_type := file_type file; file_dir := file_dir file;
     file_offset := offset; file_size := size |}.

(** Lines 150-159: the body of the loop of [compress], for the object at
    position [i]. *)
Definition pack_file (fuel : nat) (fs : filesystem) (odirs : list VfsDir)
    (ofnames odnames : list string) (prefix : Path) (i : nat) : M pack_state unit :=
  fun st =>
  match ofiles st !! i with
  | None => (Err IndexError, st)
  | Some file =>
      match pack_data fuel fs odirs ofnames odnames prefix file with
      | Err e => (Err e, st)
      | Ok data =>
          let size := len data in
          (Ok tt, {| ofiles := <[i := relocate file (offset st) size]> (ofiles st);
                     offset := offset st + size;
                     oblob := oblob st ++ data |})
      end
  end.

(** Lines 142-159: the copies and the loop. *)
Definition pack_start (a : archive) : pack_state :=
  {| ofiles := files a; offset := 0; oblob := [] |}.

Definition pack_loop (fuel : nat) (fs : filesystem) (a : archive) (prefix : Path)
    : M pack_state unit :=
  write_each (pack_file fuel fs (dirs a) (fnames a) (dnames a) prefix)
             (pack_order (files a)).

Definition compress (fuel : nat) (ivfs : string) (prefix : Path) (ovfs : string)
    : M filesystem unit :=
  let* a := with_open_rb ivfs read_vfs in
  fun fs =>
  match pack_loop fuel fs a prefix (pack_start a) with
  | (Err e, _) => (Err e, fs)
  | (Ok _, st) =>
      with_open_wb ovfs
        (write_vfs {| dirs := dirs a; files := ofiles st; blob := oblob st;
                      fnames := fnames a; dnames := dnames a |}) fs
  end.

End Engines.

(** ** The phases of [read_vfs]

    [read_vfs] is the sequence of [read_head] (lines 83-94), [read_blob]
    (line 95) and [read_names] (lines 96-101); see [read_vfs_phases]. *)

Definition read_head : M istream (list VfsDir * list VfsFile) :=
  let* ok := read_magic in
  if negb ok then raise BadMagic else
  let* ndirs := read_int false in
  let* dirs := read_many (Z.to_nat ndirs) read_dir in
  let* nfiles := read_int false in
  let* files := read_many (Z.to_nat nfiles) read_file in
  ret (dirs, files).

Definition read_names (dirs : list VfsDir) (files : list VfsFile) (blob : bytes)
    : M istream archive :=
  let* nfnames := read_int false in
  let* fnames := read_many (Z.to_nat nfnames) read_str in
  let* ndnames := read_int false in
  let* dnames := read_many (Z.to_nat ndnames) read_str in
  ret {| dirs := dirs; files := files; blob := blob;
         fnames := fnames; dnames := dnames |}.

(** The stream after [vfs.read(4)]. *)
Definition after_read4 (s : istream) : istream :=
  {| tell := tell s + len (take 4 (rest s)); rest := drop 4 (rest s) |}.

(** For a stream at the blob-end-offset field: the value of the field minus
    the position after it, which is the length line 95 asks [read] for. *)
Definition blob_length (s : istream) : Z :=
  int_from_bytes (take 4 (rest s)) false - tell (after_read4 s).

(** ** A zlib codec

    zlib itself is a parameter of the engines. To run them on concrete
    archives the parameters are instantiated with this codec, which writes
    and reads the zlib format (RFC 1950) with stored blocks only (RFC 1951,
    section 3.2.4), as zlib does at level 0; it ignores the level and the
    buffer size, and refuses a stream that has a compressed block. *)
Module Stored.

Definition adler_step (ab : Z * Z) (x : byte) : Z * Z :=
  let a := (ab.1 + Z_of_byte x) mod 65521 in (a, (ab.2 + a) mod 65521).

Definition adler32 (data : bytes) : Z :=
  let ab := fold_left adler_step data (1, 0) in ab.2 * 65536 + ab.1.

Definition be_bytes (len : nat) (v : Z) : bytes := rev (le_bytes len v).
Definition be_value (bs : bytes) : Z := le_value (rev bs).

Definition block_max : nat := Z.to_nat 65535.

Definition stored_block (final : bool) (chunk : bytes) : bytes :=
  (if final then x01 else x00)
    :: le_bytes 2 (len chunk) ++ le_bytes 2 (65535 - len chunk) ++ chunk.

Fixpoint stored_blocks (fuel : nat) (data : bytes) : bytes :=
  match fuel with
  | O => stored_block true data
  | S fuel' =>
      if bool_decide (length data <= block_max)%nat then stored_block true data
      else stored_block false (take block_max data)
             ++ stored_blocks fuel' (drop block_max data)
  end.

Definition zcompress (data : bytes) (level : Z) : bytes :=
  [x78; x01] ++ stored_blocks (length data) data ++ be_bytes 4 (adler32 data).

(** The blocks of a stream: the data so far, and what follows the final block. *)
Fixpoint inflate (fuel : nat) (input acc : bytes) : result (bytes * bytes) :=
  match fuel, input with
  | S fuel', hdr :: l0 :: l1 :: n0 :: n1 :: body =>
      let size := le_value [l0; l1] in
      if negb ((Z_of_byte hdr / 2) mod 4 =? 0) then Err ZlibError
      else if negb (le_value [n0; n1] =? 65535 - size) then Err ZlibError
      else if len body <? size then Err ZlibError
      else
        let acc' := acc ++ take (Z.to_nat size) body in
        if Z_of_byte hdr mod 2 =? 1 then Ok (acc', drop (Z.to_nat size) body)
        else inflate fuel' (drop (Z.to_nat size) body) acc'
  | _, _ => Err ZlibError
  end.

Definition zdecompress (data : bytes) (bufsize : Z) : result bytes :=
  match data with
  | cmf :: flg :: body =>
      if negb (Z_of_byte cmf mod 16 =? 8) || (7 <? Z_of_byte cmf / 16)
         || negb ((Z_of_byte cmf * 256 + Z_of_byte flg) mod 31 =? 0)
         || negb ((Z_of_byte flg / 32) mod 2 =? 0)
      then Err ZlibError
      else
        let? (out, trailer) := inflate (length body) body [] in
        if (4 <=? len trailer) && (be_value (take 4 trailer) =? adler32 out)
        then Ok out else Err ZlibError
  | _ => Err ZlibError
  end.

End Stored.

(** ** Directory tables: the invariants of the specification *)

(** [parent] is -1 or an index of the directory table; [id] is an index of
    the directory-name table. *)
Definition refs_in_bounds (dirs : list VfsDir) (dnames : list string) (dir : VfsDir) : Prop :=
  (dir_parent dir = -1 \/ 0 <= dir_parent dir < len dirs) /\
  0 <= dir_id dir < len dnames.

(** Following parent links from [dir] ends at a root after [n] hops. *)
Inductive reaches_root (dirs : list VfsDir) : VfsDir -> nat -> Prop :=
| reaches_here dir :
    dir_parent dir = -1 -> reaches_root dirs dir 0
| reaches_up dir parent n :
    dir_parent dir <> -1 ->
    dirs !! Z.to_nat (dir_parent dir) = Some parent ->
    reaches_root dirs parent n ->
    reaches_root dirs dir (S n).

(** The path of a directory, in the words of the specification: the single
    component [dnames[id]] for a root, and otherwise the path of the parent
    joined with [dnames[id]]. *)
Inductive resolve_path (dirs : list VfsDir) (dnames : list string) : VfsDir -> Path -> Prop :=
| resolve_root dir name :
    dir_parent dir = -1 ->
    dnames !! Z.to_nat (dir_id dir) = Some name ->
    resolve_path dirs dnames dir (PurePath name)
| resolve_child dir parent path name :
    dir_parent dir <> -1 ->
    dirs !! Z.to_nat (dir_parent dir) = Some parent ->
    resolve_path dirs dnames parent path ->
    dnames !! Z.to_nat (dir_id dir) = Some name ->
    resolve_path dirs dnames dir (path // name).

(** The three-level chain of the specification. *)
Definition chain_root : VfsDir :=
  {| dir_hash := 0; dir_id := 0; dir_parent := -1; dir_from_dir := -1; dir_from_file := 0 |}.
Definition chain_mid : VfsDir :=
  {| dir_hash := 0; dir_id := 1; dir_parent := 0; dir_from_dir := -1; dir_from_file := 0 |}.
Definition chain_leaf : VfsDir :=
  {| dir_hash := 0; dir_id := 2; dir_parent := 1; dir_from_dir := -1; dir_from_file := 0 |}.
Definition chain_dirs : list VfsDir := [chain_root; chain_mid; chain_leaf].
Definition chain_dnames : list string := ["root"; "mid"; "leaf"]%string.

(** ** The container format, in the words of the specification (section 6) *)

Definition fits_u32 (v : Z) : Prop := 0 <= v < 2 ^ 32.
Definition fits_i32 (v : Z) : Prop := - 2 ^ 31 <= v < 2 ^ 31.

Definition u32 (v : Z) : bytes := le_bytes 4 v.
Definition i32 (v : Z) : bytes := le_bytes 4 (v mod 2 ^ 32).

Definition dir_fits (d : VfsDir) : Prop :=
  fits_u32 (dir_hash d) /\ fits_u32 (dir_id d) /\ fits_i32 (dir_parent d) /\
  fits_i32 (dir_from_dir d) /\ fits_u32 (dir_from_file d).

Definition file_fits (f : VfsFile) : Prop :=
  fits_u32 (file_hash f) /\ fits_u32 (file_id f) /\ fits_u32 (file_type f) /\
  fits_u32 (file_dir f) /\ fits_u32 (file_offset f) /\ fits_u32 (file_size f).

Definition is_ascii (s : string) : Prop :=
  forallb is_ascii_char (list_ascii_of_string s) = true.

Definition dir_record (d : VfsDir) : bytes :=
  u32 (dir_hash d) ++ u32 (dir_id d) ++ i32 (dir_parent d) ++
  i32 (dir_from_dir d) ++ u32 (dir_from_file d).

Definition file_record (f : VfsFile) : bytes :=
  u32 (file_hash f) ++ u32 (file_id f) ++ u32 (file_type f) ++
  u32 (file_dir f) ++ u32 (file_offset f) ++ u32 (file_size f).

Definition name_entry (s : string) : bytes :=
  u32 (str_len s) ++ list_byte_of_string s.

(** The tables up to the blob; they take [head_size] bytes. *)
Definition head_layout (a : archive) : bytes :=
  magic ++
  u32 (len (dirs a)) ++ concat (dir_record <$> dirs a) ++
  u32 (len (files a)) ++ concat (file_record <$> files a).

(** The absolute position where the blob ends, for a container that starts
    at position [pos]. *)
Definition blob_end_offset (pos : Z) (a : archive) : Z :=
  pos + len (head_layout a) + 4 + len (blob a).

(** The two name tables; both counts are those of the record tables. *)
Definition names_layout (a : archive) : bytes :=
  u32 (len (files a)) ++ concat (name_entry <$> fnames a) ++
  u32 (len (dirs a)) ++ concat (name_entry <$> dnames a).

Definition container_layout (pos : Z) (a : archive) : bytes :=
  head_layout a ++ u32 (blob_end_offset pos a) ++ blob a ++ names_layout a.

(** What [write_vfs] needs in order not to raise. *)
Definition name_fits (s : string) : Prop := fits_u32 (str_len s) /\ is_ascii s.

Definition encodable (pos : Z) (a : archive) : Prop :=
  fits_u32 (len (dirs a)) /\ Forall dir_fits (dirs a) /\
  fits_u32 (len (files a)) /\ Forall file_fits (files a) /\
  fits_u32 (blob_end_offset pos a) /\
  Forall name_fits (fnames a) /\ Forall name_fits (dnames a).

(** The archive of the specification's test of the name-table counts: two
    file records, one file name, nothing else. *)
Definition two_files_one_name : archive :=
  {| dirs := [];
     files := [ {| file_hash := 0; file_id := 0; file_type := 0; file_dir := 0;
                   file_offset := 0; file_size := 0 |};
                {| file_hash := 0; file_id := 1; file_type := 0; file_dir := 0;
                   file_offset := 0; file_size := 0 |} ];
     blob := [];
     fnames := ["a"%string];
     dnames := [] |}.

(** ** Offsets and sizes, in the words of the specification *)

Definition sumZ (l : list Z) : Z := foldr Z.add 0 l.

(** The sum of the size fields of all files. *)
Definition sum_sizes (table : list VfsFile) : Z := sumZ (file_size <$> table).

(** The sum of the size fields of all files with an id smaller than that of [f]. *)
Definition size_of_smaller_ids (table : list VfsFile) (f : VfsFile) : Z :=
  sumZ ((fun g => if file_id g <? file_id f then file_size g else 0) <$> table).

(** The file [g] at position [j] is processed before the file [f] at
    position [i]: it has a smaller id, or the same id and an earlier position. *)
Definition processed_before (g : VfsFile) (j : nat) (f : VfsFile) (i : nat) : bool :=
  (file_id g <? file_id f) || ((file_id g =? file_id f) && (j <? i)%nat).

(** The sum of the size fields of the files processed before [f] at position [i]. *)
Definition size_processed_before (table : list VfsFile) (i : nat) (f : VfsFile) : Z :=
  sumZ ((fun j => match table !! j with
                  | Some g => if processed_before g j f i then file_size g else 0
                  | None => 0
                  end) <$> seq 0 (length table)).

(** ** Sample archives

    A small archive, the file system that holds it, and the directory tree
    its unpacking creates. The file with id 1 is compressed (type 2), the
    file with id 0 is stored raw (type 0). *)
Definition hello : bytes := [x68; x65; x6c; x6c; x6f].

Definition sample_archive : archive :=
  {| dirs := [ {| dir_hash := 11; dir_id := 0; dir_parent := -1;
                  dir_from_dir := -1; dir_from_file := 0 |};
               {| dir_hash := 12; dir_id := 1; dir_parent := 0;
                  dir_from_dir := -1; dir_from_file := 0 |} ];
     files := [ {| file_hash := 21; file_id := 1; file_type := 2; file_dir := 1;
                   file_offset := 3; file_size := 20 |};
                {| file_hash := 22; file_id := 0; file_type := 0; file_dir := 0;
                   file_offset := 0; file_size := 3 |} ];
     blob := [x01; x02; x03] ++ le_bytes 4 5 ++ Stored.zcompress hello 9;
     fnames := ["a.txt"; "b.bin"]%string;
     dnames := ["data"; "img"]%string |}.

Definition sample_bytes : bytes := (write_vfs sample_archive []).2.

Definition sample_fs : filesystem :=
  {| fs_cwd := ["work"]%string;
     fs_dirs := {[ ["work"]%string ]};
     fs_files := {[ ["work"; "in.vfs"]%string := sample_bytes ]} |}.

Definition sample_unpacked : filesystem :=
  (decompress Stored.zdecompress 8 "in.vfs" (PurePath "out") sample_fs).2.

Definition sample_packed : pack_state :=
  (pack_loop Stored.zcompress 8 sample_unpacked sample_archive (PurePath "out")
     (pack_start sample_archive)).2.

Definition sample_repacked : filesystem :=
  (compress Stored.zcompress 8 "in.vfs" (PurePath "out") "re.vfs" sample_unpacked).2.

(** Two file records with the same id, in two directories. *)
Definition twin_archive : archive :=
  {| dirs := [ {| dir_hash := 0; dir_id := 0; dir_parent := -1;
                  dir_from_dir := -1; dir_from_file := 0 |};
               {| dir_hash := 0; dir_id := 1; dir_parent := -1;
                  dir_from_dir := -1; dir_from_file := 0 |} ];
     files := [ {| file_hash := 0; file_id := 0; file_type := 0; file_dir := 0;
                   file_offset := 0; file_size := 3 |};
                {| file_hash := 0; file_id := 0; file_type := 0; file_dir := 1;
                   file_offset := 3; file_size := 2 |} ];
     blob := [x01; x02; x03; x04; x05];
     fnames := ["x"; "y"]%string;
     dnames := ["d0"; "d1"]%string |}.

Definition twin_tree : filesystem :=
  {| fs_cwd := ["work"]%string;
     fs_dirs := {[ ["work"]%string; ["work"; "out"]%string;
                   ["work"; "out"; "d0"]%string; ["work"; "out"; "d1"]%string ]};
     fs_files := {[ ["work"; "out"; "d0"; "x"]%string := [x01; x02; x03];
                    ["work"; "out"; "d1"; "x"]%string := [x04; x05] ]} |}.

Definition twin_packed : pack_state :=
  (pack_loop Stored.zcompress 8 twin_tree twin_archive (PurePath "out")
     (pack_start twin_archive)).2.

(** A stream whose blob-end-offset field (15) is one less than the position
    after the field (16): no directories, no files, two more bytes. *)
Definition short_end_stream : istream :=
  {| tell := 0;
     rest := magic ++ le_bytes 4 0 ++ le_bytes 4 0 ++ le_bytes 4 15 ++ [xaa; xbb] |}.

(** ** Round trip, in the words of the specification *)

(** The fields of a file record other than [offset] and [size]. *)
Definition same_metadata (f g : VfsFile) : Prop :=
  file_hash g = file_hash f /\ file_id g = file_id f /\
  file_type g = file_type f /\ file_dir g = file_dir f.

(** No two file records of [a] name the same location under [prefix],
    from the working directory [cwd]: their paths differ once [".."] and the
    working directory are resolved. *)
Definition distinct_locations (fuel : nat) (cwd : list string) (a : archive)
    (prefix : Path) : Prop :=
  forall i j f g p q,
    files a !! i = Some f -> files a !! j = Some g ->
    file_path fuel (dirs a) (fnames a) (dnames a) prefix f = Ok p ->
    file_path fuel (dirs a) (fnames a) (dnames a) prefix g = Ok q ->
    norm cwd p = norm cwd q ->
    i = j.

(** [b] has the tables of [a], up to offsets and sizes, and each of its
    files has the content that the same file has in [a]. *)
Definition same_archive (zdecompress : bytes -> Z -> result bytes) (a b : archive) : Prop :=
  dirs b = dirs a /\ fnames b = fnames a /\ dnames b = dnames a /\
  Forall2 same_metadata (files a) (files b) /\
  Forall2 (fun f g => exists content,
               extract zdecompress (blob a) f = Ok content /\
               extract zdecompress (blob b) g = Ok content)
          (files a) (files b).

(** One compressed file declared with type 1, in an archive stored in
    [in.vfs]; its unpacking, and the repacking of the unpacked tree. *)
Definition type1_archive : archive :=
  {| dirs := [ {| dir_hash := 0; dir_id := 0; dir_parent := -1;
                  dir_from_dir := -1; dir_from_file := 0 |} ];
     files := [ {| file_hash := 0; file_id := 0; file_type := 1; file_dir := 0;
                   file_offset := 0; file_size := 20 |} ];
     blob := le_bytes 4 5 ++ Stored.zcompress hello 9;
     fnames := ["x"]%string;
     dnames := ["d"]%string |}.

Definition type1_fs : filesystem :=
  {| fs_cwd := ["work"]%string;
     fs_dirs := {[ ["work"]%string ]};
     fs_files := {[ ["work"; "in.vfs"]%string := (write_vfs type1_archive []).2 ]} |}.

Definition type1_unpacked : filesystem :=
  (decompress Stored.zdecompress 8 "in.vfs" (PurePath "out") type1_fs).2.

Definition type1_repacked : filesystem :=
  (compress Stored.zcompress 8 "in.vfs" (PurePath "out") "re.vfs" type1_unpacked).2.

(** Two raw files with the same directory and the same name, in an archive
    stored in [in.vfs]; its unpacking, and the repacking of the unpacked tree. *)
Definition clash_archive : archive :=
  {| dirs := [ {| dir_hash := 0; dir_id := 0; dir_parent := -1;
                  dir_from_dir := -1; dir_from_file := 0 |} ];
     files := [ {| file_hash := 0; file_id := 0; file_type := 0; file_dir := 0;
                   file_offset := 0; file_size := 3 |};
                {| file_hash := 1; file_id := 0; file_type := 0; file_dir := 0;
                   file_offset := 3; file_size := 2 |} ];
     blob := [x01; x02; x03; x04; x05];
     fnames := ["x"; "y"]%string;
     dnames := ["d"]%string |}.

Definition clash_fs : filesystem :=
  {| fs_cwd := ["work"]%string;
     fs_dirs := {[ ["work"]%string ]};
     fs_files := {[ ["work"; "in.vfs"]%string := (write_vfs clash_archive []).2 ]} |}.

Definition clash_unpacked : filesystem :=
  (decompress Stored.zdecompress 8 "in.vfs" (PurePath "out") clash_fs).2.

Definition clash_repacked : filesystem :=
  (compress Stored.zcompress 8 "in.vfs" (PurePath "out") "re.vfs" clash_unpacked).2.

(** Two file records and one file name again, with one directory whose
    name is empty. *)
Definition misaligned_archive : archive :=
  {| dirs := [ {| dir_hash := 0; dir_id := 0; dir_parent := -1;
                  dir_from_dir := -1; dir_from_file := 0 |} ];
     files := files two_files_one_name;
     blob := [];
     fnames := ["a"%string];
     dnames := [""%string] |}.

(** ** Writers and readers of an encoding *)

(** [wr x] succeeds exactly when [fits x], and then appends [enc x]. *)
Definition writes {A} (wr : A -> M ostream unit) (fits : A -> Prop) (enc : A -> bytes) : Prop :=
  forall x out out', wr x out = (Ok tt, out') <-> fits x /\ out' = out ++ enc x.

(** [rd] at the encoding of a fitting [x] returns [x] and stops after it. *)
Definition reads {A} (rd : M istream A) (fits : A -> Prop) (enc : A -> bytes) : Prop :=
  forall x t tail, fits x ->
    rd {| tell := t; rest := enc x ++ tail |} =
      (Ok x, {| tell := t + len (enc x); rest := tail |}).

(** ** What a computation can raise and return *)

(** [m] raises only errors that satisfy [P]. *)
Definition raises_only {S A} (m : M S A) (P : error -> Prop) : Prop :=
  forall s e s', m s = (Err e, s') -> P e.

(** [m] returns only values that satisfy [Q]. *)
Definition returns_only {S A} (m : M S A) (Q : A -> Prop) : Prop :=
  forall s a s', m s = (Ok a, s') -> Q a.

(** [m] only appends to the output stream, whether it returns or raises. *)
Definition appends_only {A} (m : M ostream A) : Prop :=
  forall out r out', m out = (r, out') -> exists bs, out' = out ++ bs.

(** A directory whose name is not ASCII, in an archive without files. *)
Definition accent_archive : archive :=
  {| dirs := [ {| dir_hash := 0; dir_id := 0; dir_parent := -1;
                  dir_from_dir := -1; dir_from_file := 0 |} ];
     files := [];
     blob := [];
     fnames := [];
     dnames := [String (ascii_of_byte xe9) "t"] |}.

(** A directory that is its own parent. *)
Definition loop_dir : VfsDir :=
  {| dir_hash := 0; dir_id := 0; dir_parent := 0; dir_from_dir := -1; dir_from_file := 0 |}.

(** A directory whose parent field is -2, after two roots. *)
Definition wrap_dir : VfsDir :=
  {| dir_hash := 0; dir_id := 2; dir_parent := -2; dir_from_dir := -1; dir_from_file := 0 |}.
Definition wrap_dirs : list VfsDir := [chain_root; chain_mid; wrap_dir].

(** [m] leaves the state related by [R] to the state it started from,
    whether it returns or raises. *)
Definition keeps {S A} (R : S -> S -> Prop) (m : M S A) : Prop :=
  forall s, R s (m s).2.

(** [fs'] has the directories and the files of [fs], and maybe more; the
    content of a file may differ. *)
Definition fs_grows (fs fs' : filesystem) : Prop :=
  fs_cwd fs' = fs_cwd fs /\
  fs_dirs fs ⊆ fs_dirs fs' /\
  forall l, is_Some (fs_files fs !! l) -> is_Some (fs_files fs' !! l).

(** [fs'] has the working directory and the directories of [fs], and its
    files except maybe at the location that [out] names. *)
Definition fs_same_but (out : Path) (fs fs' : filesystem) : Prop :=
  fs_cwd fs' = fs_cwd fs /\
  fs_dirs fs' = fs_dirs fs /\
  forall l, locate fs out <> At l -> fs_files fs' !! l = fs_files fs !! l.

(** A file in a directory whose name is an absolute path. *)
Definition escape_archive : archive :=
  {| dirs := [ {| dir_hash := 0; dir_id := 0; dir_parent := -1;
                  dir_from_dir := -1; dir_from_file := 0 |} ];
     files := [ {| file_hash := 0; file_id := 0; file_type := 0; file_dir := 0;
                   file_offset := 0; file_size := 2 |} ];
     blob := [x68; x69];
     fnames := ["f"%string];
     dnames := ["/tmp"%string] |}.

(** ** The command line (lines 165-180)

    [argv] is [sys.argv]: the name of the script, then the arguments. A run
    ends normally, by [exit(code)], or with an uncaught exception; it prints
    lines and acts on the file system. *)
Inductive outcome : Type :=
| Finished
| Exited (code : Z)
| Raised (e : error).

Definition usage : list string :=
  ["usage:";
   "python3 vfs2.py d data.vfs outdir";
   "python3 vfs2.py c data.vfs outdir repacked.vfs"]%string.

(** Lines 172-180: the two modes. *)
Definition run_mode (zcompress : bytes -> Z -> bytes)
    (zdecompress : bytes -> Z -> result bytes) (fuel : nat) (argv : list string)
    : M filesystem unit :=
  let* mode := lift (py_index argv 1) in
  if bool_decide (mode = "c"%string) then
    let* ivfs := lift (py_index argv 2) in
    let* prefix := lift (py_index argv 3) in
    let* ovfs := lift (py_index argv 4) in
    compress zcompress fuel ivfs (PurePath prefix) ovfs
  else if bool_decide (mode = "d"%string) then
    let* vfs := lift (py_index argv 2) in
    let* prefix := lift (py_index argv 3) in
    decompress zdecompress fuel vfs (PurePath prefix)
  else ret tt.

(** Lines 165-180: the outcome, the lines printed and the file system. *)
Definition main (zcompress : bytes -> Z -> bytes)
    (zdecompress : bytes -> Z -> result bytes) (fuel : nat) (argv : list string)
    (fs : filesystem) : outcome * list string * filesystem :=
  if len argv <? 2 then (Exited 1, usage, fs)
  else match run_mode zcompress zdecompress fuel argv fs with
       | (Ok _, fs') => (Finished, [], fs')
       | (Err e, fs') => (Raised e, [], fs')
       end.

(** Two raw files named [x], in two directories whose names end in [".."]:
    the two paths differ and name one location. *)
Definition alias_archive : archive :=
  {| dirs := [ {| dir_hash := 0; dir_id := 0; dir_parent := -1;
                  dir_from_dir := -1; dir_from_file := 0 |};
               {| dir_hash := 0; dir_id := 1; dir_parent := -1;
                  dir_from_dir := -1; dir_from_file := 0 |} ];
     files := [ {| file_hash := 0; file_id := 0; file_type := 0; file_dir := 0;
                   file_offset := 0; file_size := 3 |};
                {| file_hash := 1; file_id := 1; file_type := 0; file_dir := 1;
                   file_offset := 3; file_size := 2 |} ];
     blob := [x01; x02; x03; x04; x05];
     fnames := ["x"; "x"]%string;
     dnames := ["d/.."; "e/.."]%string |}.

Definition alias_fs : filesystem :=
  {| fs_cwd := ["work"]%string;
     fs_dirs := {[ ["work"]%string ]};
     fs_files := {[ ["work"; "in.vfs"]%string := (write_vfs alias_archive []).2 ]} |}.

Definition alias_unpacked : filesystem :=
  (decompress Stored.zdecompress 8 "in.vfs" (PurePath "out") alias_fs).2.

Definition alias_repacked : filesystem :=
  (compress Stored.zcompress 8 "in.vfs" (PurePath "out") "re.vfs" alias_unpacked).2.

(** * Properties *)

(** ** Streams and the state monad *)

Lemma bind_ok {S A B} (m : M S A) (k : A -> M S B) s a s' :
  m s = (Ok a, s') -> bind m k s = k a s'.
Proof. intros H. unfold bind. by rewrite H. Qed.

Lemma bind_inv_ok {S A B} (m : M S A) (k : A -> M S B) s b s2 :
  bind m k s = (Ok b, s2) -> exists a s1, m s = (Ok a, s1) /\ k a s1 = (Ok b, s2).
Proof.
  unfold bind. destruct (m s) as [[a|e] s1]; [eauto | discriminate].
Qed.

Lemma read_nonneg n s :
  0 <= n ->
  read n s = (Ok (take (Z.to_nat n) (rest s)),
              {| tell := tell s + len (take (Z.to_nat n) (rest s));
                 rest := drop (Z.to_nat n) (rest s) |}).
Proof.
  intros Hn. unfold read.
  destruct (Z.ltb_spec n (-1)); [lia|].
  destruct (Z.eqb_spec n (-1)); [lia|].
  do 2 f_equal. rewrite length_take.
  destruct (decide (Z.to_nat n <= length (rest s))%nat).
  - by rewrite Nat.min_l.
  - rewrite Nat.min_r by lia. by rewrite !drop_ge by lia.
Qed.

Lemma read_4 s : read 4 s = (Ok (take 4 (rest s)), after_read4 s).
Proof. by rewrite read_nonneg. Qed.

Lemma read_int_eq signed s :
  read_int signed s = (Ok (int_from_bytes (take 4 (rest s)) signed), after_read4 s).
Proof. unfold read_int. by rewrite (bind_ok _ _ _ _ _ (read_4 s)). Qed.

Lemma read_vfs_phases s :
  read_vfs s =
  (let* (dirs, files) := read_head in
   let* blob := read_blob in
   read_names dirs files blob) s.
Proof.
  unfold read_vfs, read_head, bind.
  destruct (read_magic s) as [[[]|] ?]; simpl; try done.
  repeat match goal with
         | |- context [match ?m ?s with _ => _ end] =>
             lazymatch m with
             | read_blob => fail
             | _ => destruct (m s) as [[?|?] ?]; simpl; try done
             end
         end.
Qed.

(** ** Truncated reads *)

(** C5 (as the code has it): with fewer than 4 bytes left at the cursor,
    [read_int] does not fail: it consumes the bytes that are left and returns
    the integer they encode in little-endian order (0 when none is left). *)
Theorem read_int_truncated (s : istream) (signed : bool) :
  (length (rest s) < 4)%nat ->
  read_int signed s =
    (Ok (int_from_bytes (rest s) signed),
     {| tell := tell s + len (rest s); rest := [] |}).
Proof.
  intros Hshort. rewrite read_int_eq. unfold after_read4.
  by rewrite take_ge, drop_ge by lia.
Qed.

Lemma read_int_truncated_witness :
  read_int false {| tell := 7; rest := [x2a; x01] |} =
    (Ok 298, {| tell := 9; rest := [] |}).
Proof. apply (read_int_truncated {| tell := 7; rest := [x2a; x01] |} false). simpl. lia. Defined.

(** C5 as the specification states it is false: an exhausted stream yields 0. *)
Lemma read_int_truncated_no_error :
  ~ (forall (s : istream) (signed : bool),
       (length (rest s) < 4)%nat -> exists e s', read_int signed s = (Err e, s')).
Proof.
  intros H. destruct (H {| tell := 0; rest := [] |} false) as (e & s' & Hrun).
  - simpl. lia.
  - discriminate Hrun.
Qed.

(** ** Magic number *)

Lemma read_magic_eq s :
  read_magic s = (Ok (bytes_eqb (take 4 (rest s)) magic), after_read4 s).
Proof. unfold read_magic. by rewrite (bind_ok _ _ _ _ _ (read_4 s)). Qed.

(** C8: when the first 4 bytes at the cursor are not [b'VFS2'] (fewer than 4
    bytes included), [read_vfs] raises the bad-magic error, and the stream is
    left just after those bytes: nothing else was read. *)
Theorem read_vfs_bad_magic (s : istream) :
  take 4 (rest s) <> magic ->
  read_vfs s = (Err BadMagic, after_read4 s).
Proof.
  intros Hne. unfold read_vfs.
  rewrite (bind_ok _ _ _ _ _ (read_magic_eq s)).
  unfold bytes_eqb. by rewrite bool_decide_eq_false_2.
Qed.

Lemma read_vfs_bad_magic_witness :
  read_vfs {| tell := 0; rest := [x56; x46; x53; x31; x00; x00; x00; x00; x07] |} =
    (Err BadMagic, {| tell := 4; rest := [x00; x00; x00; x00; x07] |}).
Proof.
  apply (read_vfs_bad_magic {| tell := 0; rest := [x56; x46; x53; x31; x00; x00; x00; x00; x07] |}).
  simpl. discriminate.
Defined.

(** ** The blob *)

Lemma read_blob_eq s :
  read_blob s = read (blob_length s) (after_read4 s).
Proof.
  unfold read_blob. rewrite (bind_ok _ _ _ _ _ (read_int_eq false s)).
  reflexivity.
Qed.

(** C6 (as the code has it): after the directory and file tables, the blob
    is read from the position after the 4-byte end-offset field. When the
    end offset minus that position is not negative, the blob is that many
    bytes (fewer when the stream ends before). When it is -1, nothing fails:
    the blob is all that is left of the stream. Below -1, the stream's [read]
    raises its own error. *)
Theorem read_vfs_blob (s s1 : istream) (ds : list VfsDir) (fs : list VfsFile) :
  read_head s = (Ok (ds, fs), s1) ->
  let n := blob_length s1 in
  let body := rest (after_read4 s1) in
  let pos := tell (after_read4 s1) in
  (0 <= n ->
     read_vfs s = read_names ds fs (take (Z.to_nat n) body)
                    {| tell := pos + len (take (Z.to_nat n) body);
                       rest := drop (Z.to_nat n) body |}) /\
  (n = -1 ->
     read_vfs s = read_names ds fs body {| tell := pos + len body; rest := [] |}) /\
  (n < -1 -> read_vfs s = (Err ReadLengthError, after_read4 s1)).
Proof.
  intros Hhead n body pos. rewrite read_vfs_phases.
  rewrite (bind_ok _ _ _ _ _ Hhead). fold n.
  unfold bind. rewrite read_blob_eq. fold n. repeat split.
  - intros Hn. by rewrite read_nonneg.
  - intros Hn. unfold read. rewrite Hn. simpl. by rewrite drop_all.
  - intros Hn. unfold read. by destruct (Z.ltb_spec n (-1)); [|lia].
Qed.

(** ** Integers and their little-endian encoding *)

Lemma Z_of_byte_range b : 0 <= Z_of_byte b < 256.
Proof. unfold Z_of_byte. pose proof (Byte.to_N_bounded b). lia. Qed.

Lemma Z_of_byte_of_Z v : Z_of_byte (byte_of_Z v) = v mod 256.
Proof.
  unfold Z_of_byte, byte_of_Z.
  pose proof (Z.mod_pos_bound v 256 ltac:(lia)) as Hb.
  destruct (Byte.of_N (Z.to_N (v mod 256))) as [b|] eqn:Hof.
  - apply Byte.to_of_N in Hof. rewrite Hof. lia.
  - apply Byte.of_N_None_iff in Hof. lia.
Qed.

Lemma byte_of_Z_of_byte b : byte_of_Z (Z_of_byte b) = b.
Proof.
  unfold byte_of_Z. rewrite Z.mod_small by apply Z_of_byte_range.
  unfold Z_of_byte. by rewrite N2Z.id, Byte.of_to_N.
Qed.

Lemma length_le_bytes n v : length (le_bytes n v) = n.
Proof. revert v. induction n as [|n IH]; intros v; simpl; [done|]. by rewrite IH. Qed.

Lemma le_value_le_bytes n v : le_value (le_bytes n v) = v mod 256 ^ Z.of_nat n.
Proof.
  revert v. induction n as [|n IH]; intros v.
  - simpl. by rewrite Z.mod_1_r.
  - cbn [le_bytes le_value]. rewrite Z_of_byte_of_Z, IH, Z.mod_mod by lia.
    rewrite Nat2Z.inj_succ, Z.pow_succ_r by lia.
    assert (0 < 256 ^ Z.of_nat n) by (apply Z.pow_pos_nonneg; lia).
    by rewrite (Z.rem_mul_r v 256 (256 ^ Z.of_nat n)) by lia.
Qed.

Lemma le_value_range bs : 0 <= le_value bs < 256 ^ len bs.
Proof.
  unfold len. induction bs as [|b bs IH].
  - simpl. lia.
  - cbn [le_value length]. rewrite Nat2Z.inj_succ, Z.pow_succ_r by lia.
    pose proof (Z_of_byte_range b). lia.
Qed.

Lemma le_bytes_le_value bs : le_bytes (length bs) (le_value bs) = bs.
Proof.
  induction bs as [|b bs IH]; [done|].
  cbn [le_value length le_bytes]. pose proof (Z_of_byte_range b).
  f_equal.
  - rewrite (Z.mul_comm 256), Z.mod_add by lia.
    rewrite Z.mod_small by lia. apply byte_of_Z_of_byte.
  - rewrite (Z.mul_comm 256), Z.div_add by lia.
    by rewrite (Z.div_small (Z_of_byte b)) by lia.
Qed.

Lemma int_to_bytes_length v n signed bs :
  int_to_bytes v n signed = Ok bs -> length bs = n.
Proof.
  unfold int_to_bytes. intros H.
  repeat case_match; simplify_eq; apply length_le_bytes.
Qed.

Lemma int_to_bytes_unsigned v bs :
  int_to_bytes v 4 false = Ok bs <-> 0 <= v < 2 ^ 32 /\ bs = le_bytes 4 v.
Proof.
  unfold int_to_bytes. change (8 * Z.of_nat 4) with 32.
  destruct (Z.leb_spec 0 v), (Z.ltb_spec v (2 ^ 32)); simpl;
    split; intros Hbs; try discriminate; try lia.
  - by injection Hbs as <-.
  - by destruct Hbs as [_ ->].
Qed.

(** Reading back what [to_bytes] wrote. *)
Lemma int_from_to_bytes v signed bs :
  int_to_bytes v 4 signed = Ok bs -> int_from_bytes bs signed = v.
Proof.
  unfold int_to_bytes, int_from_bytes.
  change (8 * Z.of_nat 4) with 32. change (32 - 1) with 31.
  destruct signed; cbn [andb].
  - destruct (Z.leb_spec (- 2 ^ 31) v), (Z.ltb_spec v (2 ^ 31)); cbn [andb]; try discriminate.
    intros Hbs. replace bs with (le_bytes 4 (v mod 2 ^ 32)) by congruence.
    rewrite length_le_bytes, le_value_le_bytes.
    change (8 * Z.of_nat 4) with 32. change (32 - 1) with 31.
    change (256 ^ Z.of_nat 4) with (2 ^ 32). change (0 <? 32) with true. cbn [andb].
    rewrite Z.mod_mod by lia.
    destruct (Z.leb_spec (2 ^ 31) (v mod 2 ^ 32)) as [Hneg|Hpos].
    + destruct (Z.neg_nonneg_cases v) as [Hv|Hv].
      * rewrite <- (Z.mod_add v 1 (2 ^ 32)) by lia.
        rewrite Z.mod_small; lia.
      * rewrite Z.mod_small in Hneg; lia.
    + destruct (Z.neg_nonneg_cases v) as [Hv|Hv].
      * rewrite <- (Z.mod_add v 1 (2 ^ 32)) in Hpos by lia.
        rewrite Z.mod_small in Hpos; lia.
      * rewrite Z.mod_small; lia.
  - destruct (Z.leb_spec 0 v), (Z.ltb_spec v (2 ^ 32)); cbn [andb]; try discriminate.
    intros Hbs. replace bs with (le_bytes 4 v) by congruence.
    rewrite le_value_le_bytes. change (256 ^ Z.of_nat 4) with (2 ^ 32).
    rewrite Z.mod_small; lia.
Qed.

(** What [from_bytes] returns for at most 4 bytes fits 32 bits. *)
Lemma int_from_bytes_unsigned_range bs :
  (length bs <= 4)%nat -> 0 <= int_from_bytes bs false < 2 ^ 32.
Proof.
  intros Hlen. unfold int_from_bytes. simpl.
  pose proof (le_value_range bs) as Hr. unfold len in Hr.
  assert (256 ^ Z.of_nat (length bs) <= 256 ^ 4) by (apply Z.pow_le_mono_r; lia).
  change (256 ^ 4) with (2 ^ 32) in *. lia.
Qed.

(** ** The stored-block zlib codec decompresses what it compressed *)

Module StoredFacts.
Import Stored.

Lemma adler_fold_range data a b :
  0 <= a < 65521 -> 0 <= b < 65521 ->
  let ab := fold_left adler_step data (a, b) in
  0 <= ab.1 < 65521 /\ 0 <= ab.2 < 65521.
Proof.
  revert a b. induction data as [|x data IH]; intros a b Ha Hb; simpl; [done|].
  apply IH; apply Z.mod_pos_bound; lia.
Qed.

Lemma adler32_range data : 0 <= adler32 data < 2 ^ 32.
Proof.
  unfold adler32.
  destruct (adler_fold_range data 1 0) as [Ha Hb]; [lia..|]. simpl in *. lia.
Qed.

Lemma be_value_be_bytes v : 0 <= v < 2 ^ 32 -> be_value (be_bytes 4 v) = v.
Proof.
  intros Hv. unfold be_value, be_bytes. rewrite rev_involutive, le_value_le_bytes.
  apply Z.mod_small. change (256 ^ Z.of_nat 4) with (2 ^ 32). lia.
Qed.

Lemma inflate_block fuel final chunk tail acc :
  (length chunk <= block_max)%nat ->
  inflate (S fuel) (stored_block final chunk ++ tail) acc =
    if final then Ok (acc ++ chunk, tail) else inflate fuel tail (acc ++ chunk).
Proof.
  intros Hlen. unfold block_max in Hlen.
  assert (Hsz : le_value (le_bytes 2 (len chunk)) = len chunk).
  { rewrite le_value_le_bytes. apply Z.mod_small.
    change (256 ^ Z.of_nat 2) with 65536. unfold len. lia. }
  assert (Hnz : le_value (le_bytes 2 (65535 - len chunk)) = 65535 - len chunk).
  { rewrite le_value_le_bytes. apply Z.mod_small.
    change (256 ^ Z.of_nat 2) with 65536. unfold len. lia. }
  unfold stored_block.
  cbn [le_bytes app] in *. cbn [inflate].
  rewrite Hsz, Hnz.
  assert (Hty : ((Z_of_byte (if final then x01 else x00) / 2) mod 4 =? 0) = true)
    by by destruct final.
  rewrite Hty. cbn [negb]. rewrite Z.eqb_refl. cbn [negb].
  destruct (Z.ltb_spec (len (chunk ++ tail)) (len chunk)) as [Hlt|_].
  { unfold len in Hlt. rewrite length_app in Hlt. lia. }
  unfold len. rewrite Nat2Z.id, take_app_length, drop_app_length.
  by destruct final.
Qed.

Lemma length_stored_block final chunk :
  length (stored_block final chunk) = (5 + length chunk)%nat.
Proof.
  unfold stored_block. cbn [length]. rewrite !length_app, !length_le_bytes. lia.
Qed.

Lemma length_stored_blocks fuel data :
  (5 + length data <= length (stored_blocks fuel data))%nat.
Proof.
  revert data. induction fuel as [|fuel IH]; intros data; cbn [stored_blocks].
  - rewrite length_stored_block. lia.
  - case_bool_decide.
    + rewrite length_stored_block. lia.
    + rewrite length_app, length_stored_block, length_take.
      pose proof (IH (drop block_max data)) as Hrest.
      rewrite length_drop in Hrest. lia.
Qed.

Lemma inflate_stored_blocks fuel data fuel' acc tail :
  (length data <= fuel)%nat -> (length data < fuel')%nat ->
  inflate fuel' (stored_blocks fuel data ++ tail) acc = Ok (acc ++ data, tail).
Proof.
  revert data fuel' acc.
  induction fuel as [|fuel IH]; intros data fuel' acc Hfuel Hfuel'.
  - destruct data; [|simpl in Hfuel; lia].
    destruct fuel' as [|fuel']; [simpl in Hfuel'; lia|].
    cbn [stored_blocks]. rewrite inflate_block; [done|]. simpl. lia.
  - destruct fuel' as [|fuel']; [lia|].
    cbn [stored_blocks]. case_bool_decide as Hsmall.
    + by rewrite inflate_block.
    + rewrite <- app_assoc, inflate_block.
      2:{ rewrite length_take. lia. }
      rewrite IH.
      * by rewrite <- app_assoc, take_drop.
      * rewrite length_drop. unfold block_max in *. lia.
      * rewrite length_drop. unfold block_max in *. lia.
Qed.

(** The contract of zlib that the engines rely on. *)
Lemma zdecompress_zcompress data level bufsize :
  zdecompress (zcompress data level) bufsize = Ok data.
Proof.
  unfold zcompress, zdecompress. cbn [app].
  change (negb (Z_of_byte x78 mod 16 =? 8) || (7 <? Z_of_byte x78 / 16)
          || negb ((Z_of_byte x78 * 256 + Z_of_byte x01) mod 31 =? 0)
          || negb ((Z_of_byte x01 / 32) mod 2 =? 0)) with false.
  cbv iota.
  rewrite inflate_stored_blocks; [|lia|].
  2:{ rewrite length_app. unfold be_bytes. rewrite length_rev, length_le_bytes.
      pose proof (length_stored_blocks (length data) data). lia. }
  cbn [bind_result app].
  assert (Hlen : length (be_bytes 4 (adler32 data)) = 4%nat)
    by (unfold be_bytes; by rewrite length_rev, length_le_bytes).
  rewrite take_ge by lia.
  rewrite be_value_be_bytes by apply adler32_range.
  unfold len. rewrite Hlen, Z.eqb_refl. reflexivity.
Qed.

End StoredFacts.

(** ** Path resolution *)

Lemma py_index_in_bounds {A} (l : list A) (i : Z) :
  0 <= i < len l -> exists x, l !! Z.to_nat i = Some x /\ py_index l i = Ok x.
Proof.
  intros Hi. unfold py_index.
  destruct (Z.ltb_spec i 0); [lia|]. destruct (Z.ltb_spec i 0); [lia|].
  destruct (lookup_lt_is_Some_2 l (Z.to_nat i)) as [x Hx]; [unfold len in Hi; lia|].
  exists x. by rewrite Hx.
Qed.

Lemma py_index_lookup {A} (l : list A) (i : Z) x :
  0 <= i -> l !! Z.to_nat i = Some x -> py_index l i = Ok x.
Proof.
  intros Hi Hx. unfold py_index.
  destruct (Z.ltb_spec i 0); [lia|]. destruct (Z.ltb_spec i 0); [lia|].
  by rewrite Hx.
Qed.

Lemma resolve_path_unique dirs dnames dir p q :
  resolve_path dirs dnames dir p -> resolve_path dirs dnames dir q -> p = q.
Proof.
  intros Hp. revert q. induction Hp as [dir name Hroot Hname|dir parent path name Hne Hpar _ IH Hname];
    intros q Hq; inversion Hq; simplify_eq; try done.
  f_equal. by apply IH.
Qed.

(** C7: in a directory table whose parent and id references are in bounds,
    for a directory from which the parent links reach a root, [build_path]
    returns (given fuel for the hops) the path the specification defines:
    [dnames[id]] alone for a root, the parent's path joined with [dnames[id]]
    otherwise. For the chain root / mid / leaf it returns root/mid/leaf. *)
Theorem build_path_resolves :
  (forall (dirs : list VfsDir) (dnames : list string) (dir : VfsDir) (n : nat),
      Forall (refs_in_bounds dirs dnames) dirs ->
      dir ∈ dirs ->
      reaches_root dirs dir n ->
      exists p,
        (forall fuel, (n < fuel)%nat -> build_path fuel dirs dnames dir = Ok p) /\
        resolve_path dirs dnames dir p /\
        (forall q, resolve_path dirs dnames dir q -> q = p)) /\
  (exists p, build_path 3 chain_dirs chain_dnames chain_leaf = Ok p /\
             resolve_path chain_dirs chain_dnames chain_leaf p /\
             path_str p = "root/mid/leaf"%string).
Proof.
  split.
  - intros dirs dnames dir n Hok Hin Hreach.
    enough (exists p, (forall fuel, (n < fuel)%nat -> build_path fuel dirs dnames dir = Ok p) /\
                      resolve_path dirs dnames dir p) as (p & Hrun & Hres).
    { exists p. repeat split; [done..|]. intros q Hq. by apply (resolve_path_unique _ _ _ _ _ Hq). }
    induction Hreach as [dir Hroot|dir parent n Hne Hpar Hreach IH].
    + rewrite Forall_forall in Hok. destruct (Hok dir Hin) as [_ Hid].
      destruct (py_index_in_bounds dnames (dir_id dir) Hid) as (name & Hname & Hidx).
      exists (PurePath name). split.
      * intros [|fuel] Hfuel; [lia|]. cbn [build_path].
        rewrite Hroot, Hidx. reflexivity.
      * by constructor.
    + assert (Hparent_in : parent ∈ dirs) by (by eapply list_elem_of_lookup_2).
      destruct (IH Hparent_in) as (pp & Hrun & Hres).
      rewrite Forall_forall in Hok. destruct (Hok dir Hin) as [[?|Hpb] Hid]; [done|].
      destruct (py_index_in_bounds dnames (dir_id dir) Hid) as (name & Hname & Hidx).
      exists (pp // name). split.
      * intros [|fuel] Hfuel; [lia|]. cbn [build_path].
        destruct (Z.eqb_spec (dir_parent dir) (-1)); [done|].
        rewrite (py_index_lookup dirs _ parent) by (done || lia).
        cbn [bind_result]. rewrite Hrun by lia. cbn [bind_result].
        by rewrite Hidx.
      * by econstructor.
  - eexists. split; [reflexivity|]. split; [|reflexivity].
    eapply (resolve_child _ _ chain_leaf chain_mid _ "leaf"); [done|reflexivity| |reflexivity].
    eapply (resolve_child _ _ chain_mid chain_root _ "mid"); [done|reflexivity| |reflexivity].
    by apply (resolve_root _ _ chain_root "root").
Qed.

Lemma build_path_resolves_witness :
  exists p,
    (forall fuel, (2 < fuel)%nat -> build_path fuel chain_dirs chain_dnames chain_leaf = Ok p) /\
    resolve_path chain_dirs chain_dnames chain_leaf p /\
    (forall q, resolve_path chain_dirs chain_dnames chain_leaf q -> q = p).
Proof.
  apply (proj1 build_path_resolves chain_dirs chain_dnames chain_leaf 2%nat).
  - unfold refs_in_bounds, chain_dirs, len. repeat constructor; simpl; lia.
  - unfold chain_dirs. set_solver.
  - apply (reaches_up _ chain_leaf chain_mid); [done|reflexivity|].
    apply (reaches_up _ chain_mid chain_root); [done|reflexivity|].
    by apply reaches_here.
Defined.

(** ** Writers: when they succeed and what they append *)

Lemma seq_ok_iff {S} (m k : M S unit) s s2 :
  (m >> k) s = (Ok tt, s2) <-> exists s1, m s = (Ok tt, s1) /\ k s1 = (Ok tt, s2).
Proof.
  unfold bind. destruct (m s) as [[[]|e] s1]; split.
  - eauto.
  - by intros (? & [= <-] & ?).
  - discriminate.
  - by intros (? & ? & ?).
Qed.

Lemma int_to_bytes_signed v bs :
  int_to_bytes v 4 true = Ok bs <-> fits_i32 v /\ bs = i32 v.
Proof.
  unfold int_to_bytes, fits_i32, i32. change (8 * Z.of_nat 4) with 32. change (32 - 1) with 31.
  destruct (Z.leb_spec (- 2 ^ 31) v), (Z.ltb_spec v (2 ^ 31)); cbn [andb];
    split; intros Hbs; try discriminate; try lia.
  - split; [lia|congruence].
  - by destruct Hbs as [_ ->].
Qed.

Lemma writes_u32 : writes (fun v => write_int v false) fits_u32 u32.
Proof.
  intros v out out'. unfold write_int, bind, lift, write, fits_u32, u32.
  destruct (int_to_bytes v 4 false) as [bs|e] eqn:Hbs.
  - apply int_to_bytes_unsigned in Hbs as [? ->]. split; [intros [= <-]|intros [_ ->]]; done.
  - split; [discriminate|]. intros [Hv _].
    assert (int_to_bytes v 4 false = Ok (le_bytes 4 v)) by by apply int_to_bytes_unsigned.
    congruence.
Qed.

Lemma writes_i32 : writes (fun v => write_int v true) fits_i32 i32.
Proof.
  intros v out out'. unfold write_int, bind, lift, write.
  destruct (int_to_bytes v 4 true) as [bs|e] eqn:Hbs.
  - apply int_to_bytes_signed in Hbs as [? ->]. split; [intros [= <-]|intros [_ ->]]; done.
  - split; [discriminate|]. intros [Hv _].
    assert (int_to_bytes v 4 true = Ok (i32 v)) by by apply int_to_bytes_signed.
    congruence.
Qed.

Ltac seq_inv H H1 := apply seq_ok_iff in H as (? & H1 & H).
Ltac seq_step := apply seq_ok_iff; eexists; split.

Lemma writes_dir : writes write_dir dir_fits dir_record.
Proof.
  intros d out out'. unfold write_dir, dir_fits, dir_record. split.
  - intros H5. seq_inv H5 H1. seq_inv H5 H2. seq_inv H5 H3. seq_inv H5 H4.
    apply writes_u32 in H1 as [? ->]. apply writes_u32 in H2 as [? ->].
    apply writes_i32 in H3 as [? ->]. apply writes_i32 in H4 as [? ->].
    apply writes_u32 in H5 as [? ->]. by rewrite <- !app_assoc.
  - intros ((? & ? & ? & ? & ?) & ->).
    seq_step; [by apply writes_u32|]. seq_step; [by apply writes_u32|].
    seq_step; [by apply writes_i32|]. seq_step; [by apply writes_i32|].
    apply writes_u32. by rewrite <- !app_assoc.
Qed.

Lemma writes_file : writes write_file file_fits file_record.
Proof.
  intros f out out'. unfold write_file, file_fits, file_record. split.
  - intros H6. seq_inv H6 H1. seq_inv H6 H2. seq_inv H6 H3. seq_inv H6 H4. seq_inv H6 H5.
    apply writes_u32 in H1 as [? ->]. apply writes_u32 in H2 as [? ->].
    apply writes_u32 in H3 as [? ->]. apply writes_u32 in H4 as [? ->].
    apply writes_u32 in H5 as [? ->]. apply writes_u32 in H6 as [? ->].
    by rewrite <- !app_assoc.
  - intros ((? & ? & ? & ? & ? & ?) & ->).
    do 5 (seq_step; [by apply writes_u32|]).
    apply writes_u32. by rewrite <- !app_assoc.
Qed.

Lemma encode_ascii_ok s bs :
  encode_ascii s = Ok bs <-> is_ascii s /\ bs = list_byte_of_string s.
Proof.
  unfold encode_ascii, is_ascii.
  destruct (forallb is_ascii_char (list_ascii_of_string s)); split;
    intros Hbs; try discriminate.
  - split; [done|congruence].
  - by destruct Hbs as [_ ->].
  - by destruct Hbs.
Qed.

Lemma writes_str : writes write_str name_fits name_entry.
Proof.
  intros s out out'. unfold write_str, name_fits, name_entry. split.
  - intros H2. seq_inv H2 H1. apply writes_u32 in H1 as [? ->].
    unfold bind, lift, write in H2.
    destruct (encode_ascii s) as [bs|] eqn:Hbs; [|discriminate].
    apply encode_ascii_ok in Hbs as [? ->]. injection H2 as <-.
    by rewrite <- app_assoc.
  - intros ([? Hascii] & ->). seq_step; [by apply writes_u32|].
    unfold bind, lift, write.
    assert (encode_ascii s = Ok (list_byte_of_string s)) as -> by by apply encode_ascii_ok.
    by rewrite <- app_assoc.
Qed.

Lemma writes_each {A} (wr : A -> M ostream unit) fits enc :
  writes wr fits enc ->
  writes (write_each wr) (Forall fits) (fun xs => concat (enc <$> xs)).
Proof.
  intros Hwr xs. induction xs as [|x xs IH]; intros out out'.
  - simpl. unfold ret. rewrite app_nil_r. split.
    + intros [= <-]. by split.
    + by intros [_ ->].
  - cbn [write_each fmap list_fmap concat]. split.
    + intros H2. seq_inv H2 H1. apply Hwr in H1 as [? ->]. apply IH in H2 as [? ->].
      split; [by constructor|]. by rewrite <- app_assoc.
    + intros [Hall ->]. apply Forall_cons in Hall as [? ?].
      seq_step; [by apply Hwr|]. apply IH. by rewrite <- app_assoc.
Qed.

(** [write_vfs] writes the layout of the specification, when it can. *)
Lemma write_vfs_layout (a : archive) (pre out : bytes) :
  write_vfs a pre = (Ok tt, out) <->
  encodable (len pre) a /\ out = pre ++ container_layout (len pre) a.
Proof.
  unfold write_vfs, encodable, container_layout, names_layout.
  assert (Hend : forall head, len (pre ++ head) = len pre + len head).
  { intros. unfold len. rewrite length_app. lia. }
  split.
  - intros H11. seq_inv H11 H1. seq_inv H11 H2. seq_inv H11 H3. seq_inv H11 H4.
    seq_inv H11 H5. seq_inv H11 H6. seq_inv H11 H7. seq_inv H11 H8. seq_inv H11 H9.
    seq_inv H11 H10.
    unfold write_magic, write in H1. injection H1 as <-.
    apply writes_u32 in H2 as [? ->].
    apply (writes_each _ _ _ writes_dir) in H3 as [? ->].
    apply writes_u32 in H4 as [? ->].
    apply (writes_each _ _ _ writes_file) in H5 as [? ->].
    unfold bind, put_tell in H6. apply writes_u32 in H6 as [Hfit ->].
    unfold write in H7. injection H7 as <-.
    apply writes_u32 in H8 as [? ->].
    apply (writes_each _ _ _ writes_str) in H9 as [? ->].
    apply writes_u32 in H10 as [? ->].
    apply (writes_each _ _ _ writes_str) in H11 as [? ->].
    rewrite <- !app_assoc in Hfit. rewrite Hend in Hfit. fold (head_layout a) in Hfit.
    replace (len (blob a) + (len pre + len (head_layout a)) + 4)
      with (blob_end_offset (len pre) a) in Hfit by (unfold blob_end_offset; lia).
    split; [done|].
    rewrite <- !app_assoc. rewrite Hend. fold (head_layout a).
    replace (len (blob a) + (len pre + len (head_layout a)) + 4)
      with (blob_end_offset (len pre) a) by (unfold blob_end_offset; lia).
    unfold head_layout. by rewrite <- !app_assoc.
  - intros ((? & ? & ? & ? & Hfit & ? & ?) & ->).
    seq_step; [reflexivity|].
    seq_step; [by apply writes_u32|].
    seq_step; [by apply (writes_each _ _ _ writes_dir)|].
    seq_step; [by apply writes_u32|].
    seq_step; [by apply (writes_each _ _ _ writes_file)|].
    seq_step.
    { unfold bind, put_tell. apply writes_u32. split; [|reflexivity].
      unfold write_magic, write. rewrite <- !app_assoc, Hend. fold (head_layout a).
      replace (len (blob a) + (len pre + len (head_layout a)) + 4)
        with (blob_end_offset (len pre) a) by (unfold blob_end_offset; lia).
      done. }
    seq_step; [reflexivity|].
    seq_step; [by apply writes_u32|].
    seq_step; [by apply (writes_each _ _ _ writes_str)|].
    seq_step; [by apply writes_u32|].
    apply (writes_each _ _ _ writes_str). split; [done|].
    unfold write_magic, write. rewrite <- !app_assoc, Hend. fold (head_layout a).
    replace (len (blob a) + (len pre + len (head_layout a)) + 4)
      with (blob_end_offset (len pre) a) by (unfold blob_end_offset; lia).
    unfold head_layout. by rewrite <- !app_assoc.
Qed.

(** ** Readers: reading back an encoding *)

Lemma len_app {A} (l k : list A) : len (l ++ k) = len l + len k.
Proof. unfold len. rewrite length_app. lia. Qed.

Lemma Z_to_nat_len {A} (l : list A) : Z.to_nat (len l) = length l.
Proof. unfold len. apply Nat2Z.id. Qed.

Lemma len_u32 v : len (u32 v) = 4.
Proof. unfold len, u32. by rewrite length_le_bytes. Qed.

Lemma len_i32 v : len (i32 v) = 4.
Proof. unfold len, i32. by rewrite length_le_bytes. Qed.

Lemma after_read4_app bs t tail :
  length bs = 4%nat ->
  take 4 (bs ++ tail) = bs /\
  after_read4 {| tell := t; rest := bs ++ tail |} = {| tell := t + 4; rest := tail |}.
Proof.
  intros Hlen. unfold after_read4. cbn [rest tell].
  rewrite <- Hlen at 1 2 3. rewrite take_app_length, drop_app_length.
  unfold len. by rewrite Hlen.
Qed.

Lemma read_int_app signed bs t tail :
  length bs = 4%nat ->
  read_int signed {| tell := t; rest := bs ++ tail |} =
    (Ok (int_from_bytes bs signed), {| tell := t + 4; rest := tail |}).
Proof.
  intros Hlen. rewrite read_int_eq.
  destruct (after_read4_app bs t tail Hlen) as [Htake Hafter].
  cbn [rest]. by rewrite Htake, Hafter.
Qed.

Lemma read_u32_ok v t tail :
  fits_u32 v ->
  read_int false {| tell := t; rest := u32 v ++ tail |} = (Ok v, {| tell := t + 4; rest := tail |}).
Proof.
  intros Hv. rewrite read_int_app by apply length_le_bytes.
  do 2 f_equal. apply int_from_to_bytes. by apply int_to_bytes_unsigned.
Qed.

Lemma read_i32_ok v t tail :
  fits_i32 v ->
  read_int true {| tell := t; rest := i32 v ++ tail |} = (Ok v, {| tell := t + 4; rest := tail |}).
Proof.
  intros Hv. rewrite read_int_app by apply length_le_bytes.
  do 2 f_equal. apply int_from_to_bytes. by apply int_to_bytes_signed.
Qed.

Lemma reads_dir : reads read_dir dir_fits dir_record.
Proof.
  intros [h i p fd ff] t tail (? & ? & ? & ? & ?). cbn [dir_hash dir_id dir_parent dir_from_dir dir_from_file] in *.
  unfold read_dir, dir_record. cbn [dir_hash dir_id dir_parent dir_from_dir dir_from_file].
  rewrite <- !app_assoc.
  do 2 (erewrite bind_ok by by apply read_u32_ok).
  do 2 (erewrite bind_ok by by apply read_i32_ok).
  erewrite bind_ok by by apply read_u32_ok.
  unfold ret. do 2 f_equal. rewrite !len_app, !len_u32, !len_i32. lia.
Qed.

Lemma reads_file : reads read_file file_fits file_record.
Proof.
  intros [h i ty d o sz] t tail (? & ? & ? & ? & ? & ?).
  cbn [file_hash file_id file_type file_dir file_offset file_size] in *.
  unfold read_file, file_record. cbn [file_hash file_id file_type file_dir file_offset file_size].
  rewrite <- !app_assoc.
  do 6 (erewrite bind_ok by by apply read_u32_ok).
  unfold ret. do 2 f_equal. rewrite !len_app, !len_u32. lia.
Qed.

Lemma length_list_byte_of_string s : length (list_byte_of_string s) = String.length s.
Proof.
  unfold list_byte_of_string. rewrite length_map.
  induction s as [|c s IH]; simpl; [done|]. by rewrite IH.
Qed.

Lemma decode_encode_ascii s :
  is_ascii s -> decode_ascii (list_byte_of_string s) = Ok s.
Proof.
  unfold is_ascii, decode_ascii. intros Hs.
  assert (forallb is_ascii_byte (list_byte_of_string s) = true) as ->.
  { unfold list_byte_of_string. rewrite forallb_forall in *.
    intros b [c [<- Hc]]%in_map_iff. by apply Hs. }
  by rewrite string_of_list_byte_of_string.
Qed.

Lemma reads_str : reads read_str name_fits name_entry.
Proof.
  intros s t tail [Hlen Hascii]. unfold read_str, name_entry.
  rewrite <- app_assoc. erewrite bind_ok by by apply read_u32_ok.
  assert (Hn : Z.to_nat (str_len s) = length (list_byte_of_string s)).
  { unfold str_len. by rewrite Nat2Z.id, length_list_byte_of_string. }
  erewrite bind_ok.
  2:{ rewrite read_nonneg by (unfold str_len; lia). cbn [rest tell].
      rewrite Hn, take_app_length, drop_app_length. reflexivity. }
  unfold lift. rewrite decode_encode_ascii by done.
  do 2 f_equal. rewrite len_app, len_u32. lia.
Qed.

Lemma reads_many {A} (rd : M istream A) fits enc :
  reads rd fits enc ->
  forall xs t tail, Forall fits xs ->
    read_many (length xs) rd {| tell := t; rest := concat (enc <$> xs) ++ tail |} =
      (Ok xs, {| tell := t + len (concat (enc <$> xs)); rest := tail |}).
Proof.
  intros Hrd xs. induction xs as [|x xs IH]; intros t tail Hall.
  - simpl. unfold ret. do 2 f_equal. unfold len. simpl. lia.
  - apply Forall_cons in Hall as [Hx Hxs].
    cbn [length read_many fmap list_fmap concat]. rewrite <- app_assoc.
    erewrite bind_ok by by apply Hrd.
    erewrite bind_ok by by apply IH.
    unfold ret. do 2 f_equal. rewrite len_app. lia.
Qed.

Lemma read_head_layout (a : archive) t tail :
  fits_u32 (len (dirs a)) -> Forall dir_fits (dirs a) ->
  fits_u32 (len (files a)) -> Forall file_fits (files a) ->
  read_head {| tell := t; rest := head_layout a ++ tail |} =
    (Ok (dirs a, files a), {| tell := t + len (head_layout a); rest := tail |}).
Proof.
  intros Hnd Hd Hnf Hf. unfold read_head, head_layout.
  rewrite <- !app_assoc.
  erewrite bind_ok.
  2:{ rewrite read_magic_eq.
      destruct (after_read4_app magic t
                  (u32 (len (dirs a)) ++ concat (dir_record <$> dirs a) ++
                   u32 (len (files a)) ++ concat (file_record <$> files a) ++ tail))
        as [Htake Hafter]; [done|].
      cbn [rest app magic] in *. rewrite Htake, Hafter. reflexivity. }
  change (bytes_eqb magic magic) with true. cbn [negb].
  erewrite bind_ok by by apply read_u32_ok.
  unfold len at 1. rewrite Nat2Z.id.
  erewrite bind_ok by by apply (reads_many _ _ _ reads_dir).
  erewrite bind_ok by by apply read_u32_ok.
  unfold len at 1. rewrite Nat2Z.id.
  erewrite bind_ok by by apply (reads_many _ _ _ reads_file).
  unfold ret. do 2 f_equal. rewrite !len_app, !len_u32.
  change (len magic) with 4. lia.
Qed.

Lemma read_blob_layout (data : bytes) t tail :
  fits_u32 (t + 4 + len data) ->
  read_blob {| tell := t; rest := u32 (t + 4 + len data) ++ data ++ tail |} =
    (Ok data, {| tell := t + 4 + len data; rest := tail |}).
Proof.
  intros Hfit. unfold read_blob.
  erewrite bind_ok by by apply read_u32_ok.
  unfold bind, get_tell. cbn [tell].
  rewrite read_nonneg by (unfold len; lia). cbn [tell rest].
  replace (Z.to_nat (t + 4 + len data - (t + 4))) with (length data) by (unfold len; lia).
  by rewrite take_app_length, drop_app_length.
Qed.

(** ** Container round trip *)

Lemma read_vfs_layout_head (a : archive) (pos : Z) (tail : bytes) :
  fits_u32 (len (dirs a)) -> Forall dir_fits (dirs a) ->
  fits_u32 (len (files a)) -> Forall file_fits (files a) ->
  fits_u32 (blob_end_offset pos a) ->
  read_vfs {| tell := pos;
              rest := head_layout a ++ u32 (blob_end_offset pos a) ++ blob a ++ tail |} =
    read_names (dirs a) (files a) (blob a) {| tell := blob_end_offset pos a; rest := tail |}.
Proof.
  intros Hnd Hd Hnf Hf Hend. rewrite read_vfs_phases.
  erewrite bind_ok by by apply read_head_layout.
  unfold blob_end_offset in *.
  erewrite bind_ok by by apply read_blob_layout.
  reflexivity.
Qed.

Lemma write_vfs_reads_back (a : archive) (pre out : bytes) :
  length (fnames a) = length (files a) ->
  length (dnames a) = length (dirs a) ->
  write_vfs a pre = (Ok tt, out) ->
  read_vfs {| tell := len pre; rest := drop (length pre) out |} =
    (Ok a, {| tell := len out; rest := [] |}).
Proof.
  intros Hfn Hdn Hw.
  apply write_vfs_layout in Hw as [(Hnd & Hd & Hnf & Hf & Hend & Hfs & Hds) ->].
  rewrite drop_app_length. unfold container_layout.
  rewrite read_vfs_layout_head by done.
  set (total := len (pre ++ _)).
  assert (Htotal : total = blob_end_offset (len pre) a + len (names_layout a)).
  { unfold total, blob_end_offset. rewrite !len_app, len_u32. lia. }
  clearbody total. subst total.
  unfold read_names, names_layout.
  erewrite bind_ok by by apply read_u32_ok.
  unfold len at 1. rewrite Nat2Z.id, <- Hfn.
  erewrite bind_ok by by apply (reads_many _ _ _ reads_str).
  rewrite <- (app_nil_r (concat (name_entry <$> dnames a))) at 1.
  erewrite bind_ok by by apply read_u32_ok.
  unfold len at 1. rewrite Nat2Z.id, <- Hdn.
  erewrite bind_ok by by apply (reads_many _ _ _ reads_str).
  unfold ret. f_equal; [by destruct a|]. f_equal.
  rewrite !len_app, !len_u32. lia.
Qed.

(** C10: when the name tables have as many entries as the record tables,
    the names are ASCII and the record fields fit their 32-bit ranges,
    [write_vfs] produces a stream as soon as the counts, the name lengths and
    the end offset of the blob fit 32 bits as well; and a stream that it
    produced reads back, with [read_vfs], as the very tables that were
    written, the reader stopping at the end of the stream. *)
Theorem write_vfs_read_vfs (a : archive) (pre : bytes) :
  length (fnames a) = length (files a) ->
  length (dnames a) = length (dirs a) ->
  Forall is_ascii (fnames a) -> Forall is_ascii (dnames a) ->
  Forall dir_fits (dirs a) -> Forall file_fits (files a) ->
  (fits_u32 (len (dirs a)) -> fits_u32 (len (files a)) ->
   fits_u32 (blob_end_offset (len pre) a) ->
   Forall (fun s => fits_u32 (str_len s)) (fnames a ++ dnames a) ->
   exists out, write_vfs a pre = (Ok tt, out)) /\
  (forall out,
     write_vfs a pre = (Ok tt, out) ->
     read_vfs {| tell := len pre; rest := drop (length pre) out |} =
       (Ok a, {| tell := len out; rest := [] |})).
Proof.
  intros Hfn Hdn Hfa Hda Hd Hf. split.
  - intros Hnd Hnf Hend Hlens. apply Forall_app in Hlens as [Hfl Hdl].
    eexists. apply write_vfs_layout. split; [|reflexivity].
    unfold encodable. do 5 (split; [done|]). rewrite Forall_forall in Hfl, Hfa, Hdl, Hda.
    split; apply Forall_forall; intros s Hs; split; auto.
  - intros out Hw. by apply write_vfs_reads_back.
Qed.

(** ** Name-table counts *)

(** C2 (as the code has it): in what [write_vfs] writes, the count before
    the file names is the number of file records and the count before the
    directory names is the number of directory records, whatever the numbers
    of names. [read_vfs] then reads, from such a stream, that many file
    names: after the blob it runs [read_str] exactly [length (files a)]
    times. When the file-name table has that many entries, it goes on to run
    [read_str] exactly [length (dirs a)] times for the directory names;
    otherwise the count of directory names is read from where the file-name
    reads stopped. An archive written with two file records and one file
    name reads back with two file names, the second one empty. *)
Theorem name_counts_are_record_counts :
  (forall (a : archive) (pre out : bytes),
      write_vfs a pre = (Ok tt, out) ->
      let fnames_table := concat (name_entry <$> fnames a) in
      let dnames_table := concat (name_entry <$> dnames a) in
      let pos := blob_end_offset (len pre) a + 4 in
      out = pre ++ head_layout a ++ u32 (blob_end_offset (len pre) a) ++ blob a ++
            u32 (len (files a)) ++ fnames_table ++
            u32 (len (dirs a)) ++ dnames_table /\
      read_vfs {| tell := len pre; rest := drop (length pre) out |} =
        (let* fnames' := read_many (length (files a)) read_str in
         let* ndnames := read_int false in
         let* dnames' := read_many (Z.to_nat ndnames) read_str in
         ret {| dirs := dirs a; files := files a; blob := blob a;
                fnames := fnames'; dnames := dnames' |})
          {| tell := pos; rest := fnames_table ++ u32 (len (dirs a)) ++ dnames_table |} /\
      (length (fnames a) = length (files a) ->
       read_vfs {| tell := len pre; rest := drop (length pre) out |} =
         (let* dnames' := read_many (length (dirs a)) read_str in
          ret {| dirs := dirs a; files := files a; blob := blob a;
                 fnames := fnames a; dnames := dnames' |})
           {| tell := pos + len fnames_table + 4; rest := dnames_table |})) /\
  (exists out b s,
      write_vfs two_files_one_name [] = (Ok tt, out) /\
      read_vfs {| tell := 0; rest := out |} = (Ok b, s) /\
      files b = files two_files_one_name /\
      fnames b = ["a"; ""]%string).
Proof.
  split.
  - intros a pre out Hw fnames_table dnames_table pos.
    apply write_vfs_layout in Hw as [(Hnd & Hd & Hnf & Hf & Hend & Hfs & Hds) ->].
    split; [reflexivity|].
    rewrite drop_app_length. unfold container_layout.
    rewrite read_vfs_layout_head by done.
    unfold read_names, names_layout.
    erewrite bind_ok by by apply read_u32_ok.
    rewrite !Z_to_nat_len. fold fnames_table dnames_table pos.
    split; [reflexivity|].
    intros Hfn. rewrite <- Hfn.
    erewrite bind_ok by by apply (reads_many _ _ _ reads_str).
    erewrite bind_ok by by apply read_u32_ok.
    rewrite Z_to_nat_len. reflexivity.
  - eexists _, _, _. split; [vm_compute; reflexivity|].
    split; [vm_compute; reflexivity|]. by split.
Qed.

Lemma name_counts_are_record_counts_witness :
  let a := two_files_one_name in
  let out := (write_vfs a []).2 in
  read_vfs {| tell := 0; rest := out |} =
    (let* fnames' := read_many 2 read_str in
     let* ndnames := read_int false in
     let* dnames' := read_many (Z.to_nat ndnames) read_str in
     ret {| dirs := dirs a; files := files a; blob := blob a;
            fnames := fnames'; dnames := dnames' |})
      {| tell := 68; rest := name_entry "a" ++ u32 0 |}.
Proof.
  intros a out.
  exact (proj1 (proj2 (proj1 name_counts_are_record_counts a [] out eq_refl))).
Defined.

(** C2 as the specification states it is false for the directory names of an
    archive whose file-name table is short: the reader takes the count of the
    directory record table, written before the directory names, for the
    length of a file name, and reads no directory name at all. *)
Lemma name_counts_misaligned :
  ~ (forall (a : archive) (pre out : bytes) (b : archive) (s : istream),
       write_vfs a pre = (Ok tt, out) ->
       read_vfs {| tell := len pre; rest := drop (length pre) out |} = (Ok b, s) ->
       length (fnames b) = length (files a) /\ length (dnames b) = length (dirs a)).
Proof.
  intros H.
  destruct (H misaligned_archive [] (write_vfs misaligned_archive []).2
              {| dirs := dirs misaligned_archive; files := files misaligned_archive;
                 blob := [];
                 fnames := ["a"; String (ascii_of_byte x00) ""]%string;
                 dnames := [] |}
              {| tell := 101; rest := [] |}) as [_ Hdnames].
  - vm_compute. reflexivity.
  - vm_compute. reflexivity.
  - discriminate Hdnames.
Qed.

(** ** The stable sort *)

Lemma filter_all {A} (P : A -> Prop) `{forall x, Decision (P x)} (l : list A) :
  Forall P l -> filter P l = l.
Proof.
  induction 1 as [|x l Hx _ IH]; [done|].
  by rewrite filter_cons, decide_True, IH.
Qed.

Lemma filter_none {A} (P : A -> Prop) `{forall x, Decision (P x)} (l : list A) :
  Forall (fun x => ~ P x) l -> filter P l = [].
Proof.
  induction 1 as [|x l Hx _ IH]; [done|].
  by rewrite filter_cons, decide_False, IH.
Qed.

Section Sorted.
Context {A : Type} (key : A -> Z).

Lemma insert_by_perm x l : insert_by key x l ≡ₚ x :: l.
Proof.
  induction l as [|y l IH]; simpl; [done|].
  destruct (key x <=? key y); [done|]. rewrite IH. apply Permutation_swap.
Qed.

Lemma sorted_perm l : sorted key l ≡ₚ l.
Proof.
  induction l as [|x l IH]; simpl; [done|]. by rewrite insert_by_perm, IH.
Qed.

(** Equal keys keep the order [before] in which they stood. *)
Variable before : A -> A -> Prop.

Definition sorts_before (x y : A) : Prop :=
  key x < key y \/ (key x = key y /\ before x y).

Hypothesis before_trans : forall x y z, before x y -> before y z -> before x z.

Lemma sorts_before_trans x y z : sorts_before x y -> sorts_before y z -> sorts_before x z.
Proof. unfold sorts_before. intros [?|[? ?]] [?|[? ?]]; try (left; lia). right. split; [lia|eauto]. Qed.

Lemma insert_by_sorted x l :
  StronglySorted sorts_before l -> Forall (before x) l ->
  StronglySorted sorts_before (insert_by key x l).
Proof.
  induction l as [|y l IH]; intros Hs Hx; simpl.
  - by repeat constructor.
  - apply StronglySorted_inv in Hs as [Hs Hy]. apply Forall_cons in Hx as [Hxy Hx].
    destruct (Z.leb_spec (key x) (key y)) as [Hle|Hlt].
    + assert (Hsxy : sorts_before x y).
      { destruct (decide (key x = key y)); [by right|left; lia]. }
      constructor; [by constructor|]. constructor; [done|].
      eapply Forall_impl; [exact Hy|]. intros z Hz. by eapply sorts_before_trans.
    + constructor; [by apply IH|].
      rewrite insert_by_perm. constructor; [left; lia|done].
Qed.

Lemma sorted_stable l :
  StronglySorted before l -> StronglySorted sorts_before (sorted key l).
Proof.
  induction l as [|x l IH]; intros Hs; simpl; [constructor|].
  apply StronglySorted_inv in Hs as [Hs Hx].
  apply insert_by_sorted; [by apply IH|]. by rewrite sorted_perm.
Qed.

Hypothesis before_irrefl : forall x, ~ before x x.

(** In a sorted list, what stands before an element is what sorts before it. *)
Lemma sorted_prefix `{forall x y, Decision (sorts_before x y)} l k x :
  StronglySorted sorts_before l -> l !! k = Some x ->
  take k l = filter (fun y => sorts_before y x) l.
Proof.
  intros Hs Hk.
  assert (Hirr : forall y, ~ sorts_before y y)
    by (intros y [?|[_ ?]]; [lia|by eapply before_irrefl]).
  rewrite <- (take_drop_middle l k x Hk) in Hs |- * at 2.
  rewrite filter_app, filter_cons.
  apply StronglySorted_app in Hs as (Hcross & _ & Hs2).
  apply StronglySorted_inv in Hs2 as [_ Hafter].
  rewrite decide_False by apply Hirr.
  rewrite filter_all, filter_none; [by rewrite app_nil_r| |].
  - eapply Forall_impl; [exact Hafter|].
    intros y Hxy Hyx. by apply (Hirr x); eapply sorts_before_trans.
  - apply Forall_forall. intros y Hy. apply Hcross; [done|]. set_solver.
Qed.

End Sorted.

(** ** Path resolution and the file system *)

Lemma walk_norm fs l cs l' : walk fs l cs = At l' -> l' = foldl enter l cs.
Proof.
  revert l. induction cs as [|c cs IH]; intros l; cbn [walk foldl].
  - by intros [= <-].
  - destruct (is_dir_at fs l); [apply IH|]. by destruct (is_file_at fs l).
Qed.

Lemma is_dir_at_mono fs fs' l :
  fs_dirs fs ⊆ fs_dirs fs' -> is_dir_at fs l = true -> is_dir_at fs' l = true.
Proof.
  unfold is_dir_at. intros Hsub.
  rewrite !orb_true_iff, !bool_decide_eq_true. intros [?|?]; [by left|right; by apply Hsub].
Qed.

Lemma walk_mono fs fs' l cs l' :
  fs_dirs fs ⊆ fs_dirs fs' -> walk fs l cs = At l' -> walk fs' l cs = At l'.
Proof.
  intros Hsub. revert l. induction cs as [|c cs IH]; intros l; cbn [walk]; [done|].
  destruct (is_dir_at fs l) eqn:Hdir.
  - rewrite (is_dir_at_mono fs fs' l Hsub Hdir). apply IH.
  - by destruct (is_file_at fs l).
Qed.

Lemma locate_norm fs p l : locate fs p = At l -> l = norm (fs_cwd fs) p.
Proof.
  unfold locate, norm. destruct (existsb has_nul (parts p)); [done|]. apply walk_norm.
Qed.

Lemma locate_mono fs fs' p l :
  fs_cwd fs' = fs_cwd fs -> fs_dirs fs ⊆ fs_dirs fs' ->
  locate fs p = At l -> locate fs' p = At l.
Proof.
  unfold locate. intros -> Hsub. destruct (existsb has_nul (parts p)); [done|].
  by apply walk_mono.
Qed.

Lemma locate_same_dirs fs fs' p l :
  fs_cwd fs' = fs_cwd fs -> fs_dirs fs' = fs_dirs fs ->
  locate fs' p = At l <-> locate fs p = At l.
Proof.
  intros Hcwd Hdirs. split; apply locate_mono; (done || by rewrite Hdirs).
Qed.

(** Reading leaves the file system as it is. *)
Lemma read_bytes_state p fs : (read_bytes p fs).2 = fs.
Proof.
  unfold read_bytes. destruct (locate fs p); [|done..].
  by destruct (fs_files fs !! l).
Qed.

Lemma read_bytes_ok p fs data :
  (read_bytes p fs).1 = Ok data <->
  exists l, locate fs p = At l /\ fs_files fs !! l = Some data.
Proof.
  unfold read_bytes. destruct (locate fs p) as [l| | |]; cbn [fst].
  - destruct (fs_files fs !! l) as [d|] eqn:Hd; cbn [fst]; split.
    + intros [= ->]. by exists l.
    + intros (? & [= <-] & ?). congruence.
    + done.
    + intros (? & [= <-] & ?). congruence.
  - split; [done|]. by intros (? & ? & _).
  - split; [done|]. by intros (? & ? & _).
  - split; [done|]. by intros (? & ? & _).
Qed.

(** What is read at a path depends on the working directory, on the
    directories, and on the file at the location of the path. *)
Lemma read_bytes_same p fs fs' data :
  fs_cwd fs' = fs_cwd fs -> fs_dirs fs ⊆ fs_dirs fs' ->
  fs_files fs' !! norm (fs_cwd fs) p = fs_files fs !! norm (fs_cwd fs) p ->
  (read_bytes p fs).1 = Ok data -> (read_bytes p fs').1 = Ok data.
Proof.
  intros Hcwd Hdirs Hfile. rewrite !read_bytes_ok. intros (l & Hl & Hdata).
  exists l. split; [by eapply locate_mono|].
  apply locate_norm in Hl as ->. by rewrite Hfile.
Qed.

Lemma write_bytes_inv p data fs fs' :
  write_bytes p data fs = (Ok tt, fs') ->
  locate fs p = At (norm (fs_cwd fs) p) /\
  fs_cwd fs' = fs_cwd fs /\ fs_dirs fs' = fs_dirs fs /\
  fs_files fs' = <[norm (fs_cwd fs) p := data]> (fs_files fs).
Proof.
  unfold write_bytes. destruct (locate fs p) as [l| | |] eqn:Hl; [|done..].
  apply locate_norm in Hl as Heq. subst l.
  destruct (is_dir_at fs _); [done|]. by intros [= <-].
Qed.

(** Whatever [write_bytes] does, it touches one location only. *)
Lemma write_bytes_any p data fs :
  let fs' := (write_bytes p data fs).2 in
  fs_cwd fs' = fs_cwd fs /\ fs_dirs fs' = fs_dirs fs /\
  (fs_files fs' = fs_files fs \/
   (locate fs p = At (norm (fs_cwd fs) p) /\
    fs_files fs' = <[norm (fs_cwd fs) p := data]> (fs_files fs))).
Proof.
  cbn zeta. destruct (write_bytes p data fs) as [[[]|e] fs'] eqn:Hrun; cbn [snd].
  - apply write_bytes_inv in Hrun as (? & ? & ? & ?). eauto.
  - assert (fs' = fs) as ->; [|eauto].
    unfold write_bytes in Hrun. destruct (locate fs p) as [l| | |];
      [destruct (is_dir_at fs l)|..]; congruence.
Qed.

Lemma os_mkdir_made p fs fs' :
  os_mkdir p fs = Made fs' ->
  fs_cwd fs' = fs_cwd fs /\ fs_dirs fs ⊆ fs_dirs fs' /\ fs_files fs' = fs_files fs.
Proof.
  unfold os_mkdir. destruct (locate fs p) as [l| | |]; [|done..].
  destruct (_ || _); [done|]. intros [= <-]. cbn. split; [done|]. split; [set_solver|done].
Qed.

Lemma mkdir_one_any p fs :
  let fs' := (mkdir_one p fs).2 in
  fs_cwd fs' = fs_cwd fs /\ fs_dirs fs ⊆ fs_dirs fs' /\ fs_files fs' = fs_files fs.
Proof.
  cbn zeta. unfold mkdir_one. destruct (os_mkdir p fs) as [fs'| | |] eqn:Hmk.
  - by apply os_mkdir_made in Hmk.
  - done.
  - by destruct (is_dir fs p).
  - done.
Qed.

Lemma mkdir_parents_any r ps k fs :
  let fs' := (mkdir_parents r ps k fs).2 in
  fs_cwd fs' = fs_cwd fs /\ fs_dirs fs ⊆ fs_dirs fs' /\ fs_files fs' = fs_files fs.
Proof.
  cbn zeta. revert fs. induction k as [|k IH]; intros fs; cbn [mkdir_parents].
  - destruct (os_mkdir _ fs) as [fs'| | |] eqn:Hmk.
    + by apply os_mkdir_made in Hmk.
    + done.
    + by destruct (is_dir fs _).
    + done.
  - destruct (os_mkdir _ fs) as [fs'| | |] eqn:Hmk.
    + by apply os_mkdir_made in Hmk.
    + unfold bind. specialize (IH fs).
      destruct (mkdir_parents r ps k fs) as [[[]|e] fs1]; [|done].
      cbn [snd] in IH. destruct IH as (Hc & Hd & Hf).
      destruct (mkdir_one_any {| root := r; parts := take (S k) ps |} fs1) as (Hc1 & Hd1 & Hf1).
      split; [congruence|]. split; [set_solver|congruence].
    + by destruct (is_dir fs _).
    + done.
Qed.

(** Whatever [mkdir] does, it only adds directories. *)
Lemma mkdir_any p fs :
  let fs' := (mkdir p fs).2 in
  fs_cwd fs' = fs_cwd fs /\ fs_dirs fs ⊆ fs_dirs fs' /\ fs_files fs' = fs_files fs.
Proof. apply mkdir_parents_any. Qed.

(** ** The loop of [decompress] *)

Lemma with_open_rb_eq {A} (name : string) (rd : M istream A) (fs : filesystem) :
  with_open_rb name rd fs =
    match (read_bytes (PurePath name) fs).1 with
    | Ok data => ((rd {| tell := 0; rest := data |}).1, fs)
    | Err e => (Err e, fs)
    end.
Proof.
  unfold with_open_rb, bind, lift.
  pose proof (read_bytes_state (PurePath name) fs) as Hst.
  destruct (read_bytes (PurePath name) fs) as [[data|e] fs1]; cbn [fst snd] in *; by subst.
Qed.

Lemma with_open_wb_inv (name : string) (wr : M ostream unit) (fs fs' : filesystem) :
  with_open_wb name wr fs = (Ok tt, fs') ->
  exists out,
    wr [] = (Ok tt, out) /\
    locate fs (PurePath name) = At (norm (fs_cwd fs) (PurePath name)) /\
    fs_cwd fs' = fs_cwd fs /\ fs_dirs fs' = fs_dirs fs /\
    fs_files fs' = <[norm (fs_cwd fs) (PurePath name) := out]> (fs_files fs).
Proof.
  unfold with_open_wb. intros Hrun.
  apply bind_inv_ok in Hrun as ([] & fs1 & Hcreate & Hrun).
  destruct (wr []) as [r out] eqn:Hwr.
  apply bind_inv_ok in Hrun as ([] & fs2 & Hstore & Hrun).
  unfold lift in Hrun. injection Hrun as -> <-.
  exists out. split; [done|].
  apply write_bytes_inv in Hcreate as (Hl & Hc1 & Hd1 & Hf1).
  apply write_bytes_inv in Hstore as (_ & Hc2 & Hd2 & Hf2).
  split; [done|]. split; [congruence|]. split; [congruence|].
  rewrite Hf2, Hf1, Hc1. apply insert_insert_eq.
Qed.

(** After [with open(name, 'wb')] has succeeded, the file reads as it was
    written. *)
Lemma with_open_wb_read (name : string) (wr : M ostream unit) (fs fs' : filesystem) :
  with_open_wb name wr fs = (Ok tt, fs') ->
  exists out, wr [] = (Ok tt, out) /\ (read_bytes (PurePath name) fs').1 = Ok out.
Proof.
  intros Hrun. apply with_open_wb_inv in Hrun as (out & Hwr & Hl & Hc & Hd & Hf).
  exists out. split; [done|]. apply read_bytes_ok.
  exists (norm (fs_cwd fs) (PurePath name)). split.
  - apply (locate_mono fs); [done|by rewrite Hd|done].
  - rewrite Hf. apply lookup_insert_eq.
Qed.

Section Unpack.
Variable zdecompress : bytes -> Z -> result bytes.
Variables (fuel : nat) (a : archive) (prefix : Path).

Abbreviation path_of := (file_path fuel (dirs a) (fnames a) (dnames a) prefix).
Abbreviation unpack := (unpack_file zdecompress fuel a prefix).

Lemma unpack_file_inv f fs fs' :
  unpack f fs = (Ok tt, fs') ->
  exists p c,
    path_of f = Ok p /\ extract zdecompress (blob a) f = Ok c /\
    fs_cwd fs' = fs_cwd fs /\ fs_dirs fs ⊆ fs_dirs fs' /\
    locate fs' p = At (norm (fs_cwd fs) p) /\
    fs_files fs' = <[norm (fs_cwd fs) p := c]> (fs_files fs).
Proof.
  unfold unpack_file, file_path. intros Hrun.
  apply bind_inv_ok in Hrun as (dir & s1 & Hdir & Hrun).
  apply bind_inv_ok in Hrun as (path & s2 & Hpath & Hrun).
  apply bind_inv_ok in Hrun as (c & s3 & Hdata & Hrun).
  apply bind_inv_ok in Hrun as ([] & s4 & Hmk & Hrun).
  apply bind_inv_ok in Hrun as (name & s5 & Hname & Hrun).
  unfold lift in *. injection Hdir as Hdir <-. injection Hpath as Hpath <-.
  injection Hdata as Hdata <-. injection Hname as Hname <-.
  exists (joinpath prefix (path // name)), c.
  split.
  { rewrite Hdir. cbn [bind_result]. rewrite Hpath. cbn [bind_result]. by rewrite Hname. }
  split; [done|].
  pose proof (mkdir_any (joinpath prefix path) fs) as Hmk'. rewrite Hmk in Hmk'.
  cbn [snd] in Hmk'. destruct Hmk' as (Hc & Hd & Hf).
  apply write_bytes_inv in Hrun as (Hl & Hc' & Hd' & Hf').
  rewrite Hc in *. split; [congruence|]. split; [by rewrite Hd'|].
  split; [|by rewrite Hf', Hf].
  apply (locate_mono s4); [congruence|by rewrite Hd'|done].
Qed.

(** Whatever [unpack_file] does, it changes no file but the one at the
    location of its path. *)
Lemma unpack_file_any f fs :
  let fs' := (unpack f fs).2 in
  fs_cwd fs' = fs_cwd fs /\ fs_dirs fs ⊆ fs_dirs fs' /\
  forall l, (forall p, path_of f = Ok p -> norm (fs_cwd fs) p <> l) ->
            fs_files fs' !! l = fs_files fs !! l.
Proof.
  cbn zeta. unfold unpack_file, file_path, bind, lift.
  destruct (py_index (dirs a) (file_dir f)) as [dir|]; [|done]. cbn [bind_result].
  destruct (build_path fuel (dirs a) (dnames a) dir) as [path|]; [|done]. cbn [bind_result].
  destruct (extract zdecompress (blob a) f) as [data|]; [|done].
  pose proof (mkdir_any (joinpath prefix path) fs) as (Hc & Hd & Hf).
  destruct (mkdir (joinpath prefix path) fs) as [[[]|e] fs1]; cbn [snd] in *;
    [|do 2 (split; [done|]); intros; by rewrite Hf].
  destruct (py_index (fnames a) (file_id f)) as [name|]; cbn [bind_result snd];
    [|do 2 (split; [done|]); intros; by rewrite Hf].
  destruct (write_bytes_any (joinpath prefix (path // name)) data fs1)
    as (Hc1 & Hd1 & Hf1).
  split; [congruence|]. split; [by rewrite Hd1|].
  intros l Hl. destruct Hf1 as [->|[_ ->]]; [by rewrite Hf|].
  rewrite lookup_insert_ne, Hf; [done|]. rewrite Hc. by apply Hl.
Qed.

(** The loop leaves alone the locations that are not unpacked, also when
    it raises part of the way. *)
Lemma unpack_each_any l fs :
  let fs' := (write_each unpack l fs).2 in
  fs_cwd fs' = fs_cwd fs /\ fs_dirs fs ⊆ fs_dirs fs' /\
  forall loc, Forall (fun f => forall p, path_of f = Ok p -> norm (fs_cwd fs) p <> loc) l ->
              fs_files fs' !! loc = fs_files fs !! loc.
Proof.
  cbn zeta. revert fs. induction l as [|f l IH]; intros fs; [done|].
  cbn [write_each]. unfold bind.
  pose proof (unpack_file_any f fs) as (Hc & Hd & Hf).
  destruct (unpack f fs) as [[[]|e] fs1]; cbn [snd] in *.
  - destruct (IH fs1) as (Hc1 & Hd1 & Hf1).
    split; [congruence|]. split; [by etrans|].
    intros loc Hall. apply Forall_cons in Hall as [Hhead Hall].
    rewrite Hf1, Hf; [done|done|]. by rewrite Hc.
  - split; [done|]. split; [done|]. intros loc Hall.
    apply Forall_cons in Hall as [Hhead _]. by apply Hf.
Qed.

(** When no two files of [l] have the same location, each one is, after
    the loop, in the file system with the content extracted for it. *)
Lemma unpack_each_lookup l fs fs' :
  write_each unpack l fs = (Ok tt, fs') ->
  (forall i j f g p q, l !! i = Some f -> l !! j = Some g ->
                       path_of f = Ok p -> path_of g = Ok q ->
                       norm (fs_cwd fs) p = norm (fs_cwd fs) q -> i = j) ->
  forall i f, l !! i = Some f ->
    exists p c, path_of f = Ok p /\ extract zdecompress (blob a) f = Ok c /\
                (read_bytes p fs').1 = Ok c.
Proof.
  revert fs. induction l as [|f0 l IH]; intros fs Hrun Hdistinct i f Hi; [done|].
  cbn [write_each] in Hrun. seq_inv Hrun Hstep.
  apply unpack_file_inv in Hstep as (p0 & c0 & Hp0 & Hc0 & Hcwd & Hdirs & Hloc & Hfiles).
  match type of Hrun with write_each _ _ ?s = _ => rename s into fs1 end.
  destruct i as [|i].
  - injection Hi as <-. exists p0, c0. repeat split; [done..|].
    pose proof (unpack_each_any l fs1) as (Hc1 & Hd1 & Hf1). rewrite Hrun in *.
    cbn [snd] in *. apply read_bytes_ok. exists (norm (fs_cwd fs) p0). split.
    + by apply (locate_mono fs1).
    + rewrite Hf1, Hfiles; [apply lookup_insert_eq|].
      apply Forall_forall. intros g Hg q Hq Heq.
      apply list_elem_of_lookup in Hg as [j Hj]. rewrite Hcwd in Heq.
      by specialize (Hdistinct 0%nat (S j) f0 g p0 q eq_refl Hj Hp0 Hq (eq_sym Heq)).
  - eapply (IH _ Hrun); [|exact Hi].
    intros i' j' f' g' p' q' Hi' Hj' Hf' Hg' Heq. rewrite Hcwd in Heq.
    by specialize (Hdistinct (S i') (S j') f' g' p' q' Hi' Hj' Hf' Hg' Heq) as [= ->].
Qed.

End Unpack.

(** What [unpack_file] does depends on the record only through its
    directory, its name and the content extracted for it. *)
Lemma unpack_file_ext zdecompress fuel (a b : archive) prefix (f g : VfsFile) :
  dirs b = dirs a -> fnames b = fnames a -> dnames b = dnames a ->
  file_dir g = file_dir f -> file_id g = file_id f ->
  extract zdecompress (blob b) g = extract zdecompress (blob a) f ->
  unpack_file zdecompress fuel b prefix g = unpack_file zdecompress fuel a prefix f.
Proof.
  intros Hd Hfn Hdn Hdir Hid Hex. unfold unpack_file.
  by rewrite Hd, Hfn, Hdn, Hdir, Hid, Hex.
Qed.

Lemma unpack_each_ext zdecompress fuel (a b : archive) prefix :
  dirs b = dirs a -> fnames b = fnames a -> dnames b = dnames a ->
  Forall2 (fun f g => file_dir g = file_dir f /\ file_id g = file_id f /\
                      extract zdecompress (blob b) g = extract zdecompress (blob a) f)
          (files a) (files b) ->
  forall fs,
    write_each (unpack_file zdecompress fuel b prefix) (files b) fs =
    write_each (unpack_file zdecompress fuel a prefix) (files a) fs.
Proof.
  intros Hd Hfn Hdn Hall.
  induction Hall as [|f g fa fb (Hdir & Hid & Hex) _ IH]; intros fs; [done|].
  cbn [write_each]. unfold bind.
  rewrite (unpack_file_ext zdecompress fuel a b prefix f g) by done.
  destruct (unpack_file zdecompress fuel a prefix f fs) as [[[]|] fs1]; [apply IH|done].
Qed.

(** ** The loop of [compress] *)

Section PackLoop.
Variable zcompress : bytes -> Z -> bytes.
Variables (fuel : nat) (fs : filesystem) (a : archive) (prefix : Path).

Abbreviation data_of := (pack_data zcompress fuel fs (dirs a) (fnames a) (dnames a) prefix).
Abbreviation step := (pack_file zcompress fuel fs (dirs a) (fnames a) (dnames a) prefix).

Lemma pack_file_inv i st st' :
  step i st = (Ok tt, st') ->
  exists f data,
    ofiles st !! i = Some f /\ data_of f = Ok data /\
    st' = {| ofiles := <[i := relocate f (offset st) (len data)]> (ofiles st);
             offset := offset st + len data;
             oblob := oblob st ++ data |}.
Proof.
  unfold pack_file. destruct (ofiles st !! i) as [f|]; [|discriminate].
  destruct (data_of f) as [data|] eqn:Hdata; [|discriminate].
  intros [= <-]. by exists f, data.
Qed.

(** One run of the loop over the positions [l], from the state [st]:
    [datas] are the bytes appended, one chunk per position. *)
Lemma pack_each_inv l st st' :
  NoDup l ->
  write_each step l st = (Ok tt, st') ->
  exists datas,
    length datas = length l /\
    oblob st' = oblob st ++ concat datas /\
    offset st' = offset st + len (concat datas) /\
    length (ofiles st') = length (ofiles st) /\
    (forall j, j ∉ l -> ofiles st' !! j = ofiles st !! j) /\
    (forall k i, l !! k = Some i ->
       exists f data,
         ofiles st !! i = Some f /\ datas !! k = Some data /\ data_of f = Ok data /\
         ofiles st' !! i =
           Some (relocate f (offset st + len (concat (take k datas))) (len data))).
Proof.
  revert st. induction l as [|i l IH]; intros st Hnd Hrun.
  - injection Hrun as <-. exists []. simpl. rewrite app_nil_r.
    repeat split; [unfold len; simpl; lia|done..].
  - apply NoDup_cons in Hnd as [Hi Hnd]. cbn [write_each] in Hrun.
    seq_inv Hrun Hstep. apply pack_file_inv in Hstep as (f & data & Hf & Hdata & ->).
    destruct (IH _ Hnd Hrun) as (datas & Hlen & Hblob & Hoff & Hsize & Hother & Hat).
    cbn [ofiles offset oblob] in *.
    exists (data :: datas). repeat split.
    + simpl. by rewrite Hlen.
    + by rewrite Hblob, <- app_assoc.
    + rewrite Hoff. cbn [concat]. rewrite len_app. lia.
    + by rewrite Hsize, length_insert.
    + intros j Hj. apply not_elem_of_cons in Hj as [Hji Hj].
      rewrite Hother by done. by rewrite list_lookup_insert_ne.
    + intros [|k] i' Hk.
      * injection Hk as <-. exists f, data. repeat split; [done..|].
        rewrite Hother by done.
        rewrite list_lookup_insert_eq by (by eapply lookup_lt_Some).
        cbn [take concat]. do 2 f_equal. unfold len. simpl. lia.
      * cbn [lookup list_lookup] in Hk.
        destruct (Hat k i' Hk) as (f' & data' & Hf' & Hd' & Hdata' & Hfin).
        assert (i <> i') by (intros ->; apply Hi; by eapply list_elem_of_lookup_2).
        rewrite list_lookup_insert_ne in Hf' by done.
        exists f', data'. repeat split; [done..|].
        rewrite Hfin. cbn [take concat]. do 2 f_equal. rewrite len_app. lia.
Qed.

Lemma pack_order_perm table : pack_order table ≡ₚ seq 0 (length table).
Proof. apply sorted_perm. Qed.

Lemma pack_order_NoDup table : NoDup (pack_order table).
Proof. rewrite pack_order_perm. apply NoDup_seq. Qed.

(** The result of the whole loop: the chunk appended for the [k]-th
    position of the order starts where the chunks before it end. *)
Lemma pack_loop_inv st :
  pack_loop zcompress fuel fs a prefix (pack_start a) = (Ok tt, st) ->
  exists datas,
    length datas = length (files a) /\
    oblob st = concat datas /\
    length (ofiles st) = length (files a) /\
    (forall k i, pack_order (files a) !! k = Some i ->
       exists f data,
         files a !! i = Some f /\ datas !! k = Some data /\ data_of f = Ok data /\
         ofiles st !! i = Some (relocate f (len (concat (take k datas))) (len data))).
Proof.
  intros Hrun. unfold pack_loop in Hrun.
  apply pack_each_inv in Hrun as (datas & Hlen & Hblob & _ & Hsize & _ & Hat);
    [|apply pack_order_NoDup].
  exists datas. cbn [pack_start ofiles offset oblob] in *.
  rewrite (Permutation_length (pack_order_perm _)), length_seq in Hlen.
  repeat split; [done..|].
  intros k i Hk. destruct (Hat k i Hk) as (f & data & ? & ? & ? & Hfin).
  exists f, data. by rewrite Z.add_0_l in Hfin.
Qed.

End PackLoop.

(** ** Offsets after packing *)

Lemma sumZ_cons x l : sumZ (x :: l) = x + sumZ l.
Proof. reflexivity. Qed.

Lemma sumZ_app l k : sumZ (l ++ k) = sumZ l + sumZ k.
Proof. unfold sumZ. induction l as [|x l IH]; simpl; lia. Qed.

Lemma sumZ_perm l k : l ≡ₚ k -> sumZ l = sumZ k.
Proof. unfold sumZ. induction 1; simpl; lia. Qed.

Lemma len_concat (ls : list bytes) : len (concat ls) = sumZ (len <$> ls).
Proof.
  induction ls as [|l ls IH]; [done|].
  cbn [concat fmap list_fmap]. rewrite len_app, IH. reflexivity.
Qed.

Lemma sumZ_filter {A} (P : A -> Prop) `{forall x, Decision (P x)} (h : A -> Z) l :
  sumZ (h <$> filter P l) = sumZ ((fun x => if decide (P x) then h x else 0) <$> l).
Proof.
  induction l as [|x l IH]; [done|].
  rewrite filter_cons, fmap_cons, sumZ_cons.
  destruct (decide (P x)); rewrite ?fmap_cons, ?sumZ_cons, IH; lia.
Qed.

Lemma sumZ_ext {A} (h1 h2 : A -> Z) l :
  (forall x, x ∈ l -> h1 x = h2 x) -> sumZ (h1 <$> l) = sumZ (h2 <$> l).
Proof.
  intros Heq. f_equal. apply list_fmap_ext. intros i x Hx.
  apply Heq. by eapply list_elem_of_lookup_2.
Qed.

(** A sum over a table is the sum over its positions. *)
Lemma sumZ_positions {A} (h : A -> Z) (l : list A) :
  sumZ (h <$> l) =
  sumZ ((fun j => match l !! j with Some x => h x | None => 0 end) <$> seq 0 (length l)).
Proof.
  induction l as [|x l IH]; [done|].
  cbn [length seq]. rewrite !fmap_cons, !sumZ_cons, <- fmap_S_seq, <- list_fmap_compose.
  by rewrite IH.
Qed.

Section PackOffsets.
Variable zcompress : bytes -> Z -> bytes.
Variables (fuel : nat) (fs : filesystem) (a : archive) (prefix : Path).
Variable st : pack_state.
Hypothesis Hrun : pack_loop zcompress fuel fs a prefix (pack_start a) = (Ok tt, st).

Abbreviation id_at := (fun i => match files a !! i with Some f => file_id f | None => 0 end).
Abbreviation size_at := (fun j => match ofiles st !! j with Some g => file_size g | None => 0 end).
Abbreviation order := (pack_order (files a)).

(** Every record of the final table is the record it was, relocated. *)
Lemma packed_table i g :
  ofiles st !! i = Some g ->
  exists f k datas data,
    files a !! i = Some f /\ order !! k = Some i /\
    length datas = length (files a) /\ oblob st = concat datas /\
    datas !! k = Some data /\
    pack_data zcompress fuel fs (dirs a) (fnames a) (dnames a) prefix f = Ok data /\
    g = relocate f (len (concat (take k datas))) (len data) /\
    (forall k' j, order !! k' = Some j ->
       exists data', datas !! k' = Some data' /\ size_at j = len data').
Proof.
  intros Hg. destruct (pack_loop_inv _ _ _ _ _ _ Hrun) as (datas & Hlen & Hblob & Hsize & Hat).
  assert (Hi : (i < length (files a))%nat) by (rewrite <- Hsize; by eapply lookup_lt_Some).
  assert (Hin : i ∈ order).
  { rewrite pack_order_perm. apply elem_of_seq. lia. }
  apply list_elem_of_lookup in Hin as [k Hk].
  destruct (Hat k i Hk) as (f & data & Hf & Hd & Hdata & Hfin).
  exists f, k, datas, data. repeat split; [done..|congruence|].
  intros k' j Hk'. destruct (Hat k' j Hk') as (f' & data' & _ & Hd' & _ & Hfin').
  exists data'. by rewrite Hfin'.
Qed.

Lemma packed_ids i g : ofiles st !! i = Some g -> id_at i = file_id g.
Proof.
  intros Hg. destruct (packed_table i g Hg) as (f & k & datas & data & Hf & _ & _ & _ & _ & _ & -> & _).
  by rewrite Hf.
Qed.

Lemma packed_sizes (datas : list bytes) :
  length datas = length (files a) ->
  (forall k' j, order !! k' = Some j ->
     exists data', datas !! k' = Some data' /\ size_at j = len data') ->
  len <$> datas = size_at <$> order.
Proof.
  intros Hlen Hat. apply list_eq_same_length with (length datas).
  - by rewrite length_fmap, (Permutation_length (pack_order_perm _)), length_seq.
  - by rewrite length_fmap.
  - intros k x y Hk Hx Hy.
    apply list_lookup_fmap_Some in Hy as (j & -> & Hj).
    destruct (Hat k j Hj) as (data' & Hd' & Hsz).
    rewrite list_lookup_fmap, Hd' in Hx. simpl in Hx. congruence.
Qed.

Lemma order_sorted :
  StronglySorted (sorts_before id_at lt) order.
Proof.
  apply sorted_stable; [intros; lia|].
  apply Sorted_StronglySorted; [intros ???; lia|].
  generalize 0%nat. induction (length (files a)) as [|n IH]; intros s; simpl; [constructor|].
  constructor; [apply IH|]. destruct n; simpl; constructor. lia.
Qed.

Lemma offset_is_size_processed_before i g :
  ofiles st !! i = Some g ->
  file_offset g = size_processed_before (ofiles st) i g.
Proof.
  intros Hg.
  destruct (packed_table i g Hg)
    as (f & k & datas & data & Hf & Hk & Hlen & _ & Hd & _ & -> & Hat).
  cbn [file_offset].
  rewrite len_concat, fmap_take, (packed_sizes datas Hlen Hat), <- fmap_take.
  rewrite (sorted_prefix id_at lt ltac:(intros; lia) ltac:(intros; lia) order k i order_sorted Hk).
  rewrite sumZ_filter.
  rewrite (sumZ_perm _ _ (fmap_Permutation _ _ _ (pack_order_perm (files a)))).
  unfold size_processed_before.
  destruct (pack_loop_inv _ _ _ _ _ _ Hrun) as (_ & _ & _ & Hsize & _).
  rewrite Hsize. apply sumZ_ext. intros j Hj.
  destruct (ofiles st !! j) as [g'|] eqn:Hg'; [|by case_decide].
  pose proof (packed_ids j g' Hg') as Hidj.
  pose proof (packed_ids i _ Hg) as Hidi. cbn [file_id relocate] in Hidi.
  unfold processed_before. cbn [file_id relocate].
  case_decide as Hdec; unfold sorts_before in Hdec; rewrite Hidj, Hidi in Hdec.
  - destruct Hdec as [Hlt|[Heq Hlt]].
    + by destruct (Z.ltb_spec (file_id g') (file_id f)); [|lia].
    + rewrite Heq, Z.eqb_refl, Z.ltb_irrefl. simpl.
      by destruct (Nat.ltb_spec j i); [|lia].
  - destruct (Z.ltb_spec (file_id g') (file_id f)); [exfalso; apply Hdec; by left|].
    destruct (Z.eqb_spec (file_id g') (file_id f)); [|done].
    destruct (Nat.ltb_spec j i); [exfalso; apply Hdec; by right|done].
Qed.

Lemma blob_is_sum_sizes : len (oblob st) = sum_sizes (ofiles st).
Proof.
  destruct (pack_loop_inv _ _ _ _ _ _ Hrun) as (datas & Hlen & Hblob & Hsize & Hat).
  rewrite Hblob, len_concat. rewrite (packed_sizes datas Hlen).
  - rewrite (sumZ_perm _ _ (fmap_Permutation _ _ _ (pack_order_perm (files a)))).
    unfold sum_sizes. by rewrite (sumZ_positions file_size (ofiles st)), Hsize.
  - intros k j Hk. destruct (Hat k j Hk) as (f & data & _ & Hd & _ & Hfin).
    exists data. by rewrite Hfin.
Qed.

Lemma offset_is_size_of_smaller_ids i g :
  NoDup (file_id <$> files a) ->
  ofiles st !! i = Some g ->
  file_offset g = size_of_smaller_ids (ofiles st) g.
Proof.
  intros Hnd Hg. rewrite (offset_is_size_processed_before i g Hg).
  unfold size_of_smaller_ids, size_processed_before.
  rewrite (sumZ_positions _ (ofiles st)). apply sumZ_ext. intros j Hj.
  destruct (ofiles st !! j) as [g'|] eqn:Hg'; [|done].
  unfold processed_before.
  destruct (Z.ltb_spec (file_id g') (file_id g)); [done|]. simpl.
  destruct (Z.eqb_spec (file_id g') (file_id g)) as [Heq|]; [|done]. simpl.
  destruct (Nat.ltb_spec j i) as [Hlt|]; [|done]. exfalso.
  rewrite <- (packed_ids j g' Hg'), <- (packed_ids i g Hg) in Heq.
  destruct (files a !! j) as [fj|] eqn:Hfj, (files a !! i) as [fi|] eqn:Hfi.
  - assert (j = i); [|lia].
    eapply (NoDup_lookup _ _ _ (file_id fj) Hnd); rewrite list_lookup_fmap.
    + by rewrite Hfj.
    + rewrite Hfi. simpl. congruence.
  - apply lookup_ge_None in Hfi. apply lookup_lt_Some in Hg.
    destruct (pack_loop_inv _ _ _ _ _ _ Hrun) as (_ & _ & _ & Hsize & _). lia.
  - apply lookup_ge_None in Hfj. apply lookup_lt_Some in Hg'.
    destruct (pack_loop_inv _ _ _ _ _ _ Hrun) as (_ & _ & _ & Hsize & _). lia.
  - apply lookup_ge_None in Hfj. apply lookup_lt_Some in Hg'.
    destruct (pack_loop_inv _ _ _ _ _ _ Hrun) as (_ & _ & _ & Hsize & _). lia.
Qed.

End PackOffsets.

(** C4 (as the code has it): after the loop of [compress], which takes the
    files in ascending order of id and files of equal id in table order,
    the offset of each file record is the sum of the sizes of the files
    taken before it: those with a smaller id, and those with the same id
    that stand earlier in the table. When the ids are pairwise distinct
    this is the sum of the sizes of all files with a smaller id. The length
    of the rebuilt blob is the sum of all sizes. *)
Theorem pack_offsets (zcompress : bytes -> Z -> bytes) (fuel : nat) (fs : filesystem)
    (a : archive) (prefix : Path) (st : pack_state) :
  pack_loop zcompress fuel fs a prefix (pack_start a) = (Ok tt, st) ->
  (forall i f, ofiles st !! i = Some f ->
     file_offset f = size_processed_before (ofiles st) i f) /\
  (NoDup (file_id <$> files a) ->
   forall i f, ofiles st !! i = Some f ->
     file_offset f = size_of_smaller_ids (ofiles st) f) /\
  len (oblob st) = sum_sizes (ofiles st).
Proof.
  intros Hrun. repeat split.
  - intros i f. by apply (offset_is_size_processed_before zcompress fuel fs a prefix).
  - intros Hnd i f. by apply (offset_is_size_of_smaller_ids zcompress fuel fs a prefix).
  - by apply (blob_is_sum_sizes zcompress fuel fs a prefix).
Qed.

Lemma pack_offsets_witness :
  (forall i f, ofiles sample_packed !! i = Some f ->
     file_offset f = size_processed_before (ofiles sample_packed) i f) /\
  (NoDup (file_id <$> files sample_archive) ->
   forall i f, ofiles sample_packed !! i = Some f ->
     file_offset f = size_of_smaller_ids (ofiles sample_packed) f) /\
  len (oblob sample_packed) = sum_sizes (ofiles sample_packed).
Proof.
  apply (pack_offsets Stored.zcompress 8 sample_unpacked sample_archive (PurePath "out")).
  vm_compute. reflexivity.
Defined.

(** C4 as the specification states it is false when two files have the same
    id: the second of them starts after the first, whose id is not smaller. *)
Lemma pack_offsets_equal_ids :
  ~ (forall (zcompress : bytes -> Z -> bytes) fuel fs a prefix st,
       pack_loop zcompress fuel fs a prefix (pack_start a) = (Ok tt, st) ->
       forall f, f ∈ ofiles st -> file_offset f = size_of_smaller_ids (ofiles st) f).
Proof.
  intros H.
  assert (Hrun : pack_loop Stored.zcompress 8 twin_tree twin_archive (PurePath "out")
                   (pack_start twin_archive) = (Ok tt, twin_packed))
    by (vm_compute; reflexivity).
  specialize (H _ _ _ _ _ _ Hrun
                {| file_hash := 0; file_id := 0; file_type := 0; file_dir := 1;
                   file_offset := 3; file_size := 2 |}).
  assert (Hin : {| file_hash := 0; file_id := 0; file_type := 0; file_dir := 1;
                   file_offset := 3; file_size := 2 |} ∈ ofiles twin_packed).
  { apply list_elem_of_lookup. exists 1%nat. vm_compute. reflexivity. }
  specialize (H Hin). vm_compute in H. discriminate H.
Qed.

(** ** What the blob holds for each file *)

Lemma py_slice_middle {A} (l1 d l2 : list A) :
  py_slice (l1 ++ d ++ l2) (len l1) (len l1 + len d) = d.
Proof.
  unfold py_slice, clamp_index. rewrite !len_app.
  assert (0 <= len l1 /\ 0 <= len d /\ 0 <= len l2) as (? & ? & ?) by (unfold len; lia).
  destruct (Z.ltb_spec (len l1) 0); [lia|].
  destruct (Z.ltb_spec (len l1 + len d) 0); [lia|].
  rewrite !Z.min_l by lia.
  replace (Z.to_nat (len l1 + len d - len l1)) with (length d) by (unfold len; lia).
  rewrite Z_to_nat_len, drop_app_length. apply take_app_length.
Qed.

Lemma py_slice_prefix {A} (l : list A) : py_slice l 0 4 = take 4 l.
Proof.
  unfold py_slice, clamp_index. simpl.
  assert (0 <= len l) by (unfold len; lia).
  rewrite (Z.min_l 0) by lia. rewrite Z.sub_0_r. change (Z.to_nat 0) with 0%nat.
  rewrite drop_0.
  destruct (Z.min_spec 4 (len l)) as [[? ->]|[? ->]]; [done|].
  rewrite Z_to_nat_len. rewrite !take_ge; (done || unfold len in *; lia).
Qed.

Lemma concat_middle {A} (ls : list (list A)) k l :
  ls !! k = Some l ->
  concat ls = concat (take k ls) ++ l ++ concat (drop (S k) ls).
Proof.
  intros Hk. rewrite <- (take_drop_middle ls k l Hk) at 1.
  by rewrite concat_app.
Qed.

Lemma payload_ok zcompress file data stored :
  payload zcompress file data = Ok stored ->
  (file_type file = 2 ->
     fits_u32 (len data) /\
     stored = u32 (len data) ++ zcompress data VFS_COMPRESSION_LEVEL) /\
  (file_type file <> 2 -> stored = data).
Proof.
  unfold payload. destruct (Z.eqb_spec (file_type file) 2) as [Hty|Hty].
  - destruct (int_to_bytes (len data) 4 false) as [bs|] eqn:Hbs; [|discriminate].
    apply int_to_bytes_unsigned in Hbs as [? ->]. intros [= <-].
    split; [done|]. by intros ?.
  - intros [= <-]. split; [by intros ?|done].
Qed.

Section PackedPayloads.
Variable zcompress : bytes -> Z -> bytes.
Variables (fuel : nat) (fs : filesystem) (a : archive) (prefix : Path).
Variable st : pack_state.
Hypothesis Hrun : pack_loop zcompress fuel fs a prefix (pack_start a) = (Ok tt, st).

(** The slice that a record of the final table names is what was stored
    for it. *)
Lemma packed_slice i g :
  ofiles st !! i = Some g ->
  exists f data stored,
    files a !! i = Some f /\
    file_hash g = file_hash f /\ file_id g = file_id f /\
    file_type g = file_type f /\ file_dir g = file_dir f /\
    source_data fuel fs (dirs a) (fnames a) (dnames a) prefix g = Ok data /\
    payload zcompress g data = Ok stored /\
    0 <= file_offset g /\ file_size g = len stored /\
    py_slice (oblob st) (file_offset g) (file_offset g + file_size g) = stored.
Proof.
  intros Hg.
  destruct (packed_table zcompress fuel fs a prefix st Hrun i g Hg)
    as (f & k & datas & stored & Hf & Hk & Hlen & Hblob & Hd & Hdata & -> & _).
  unfold pack_data in Hdata.
  destruct (source_data fuel fs (dirs a) (fnames a) (dnames a) prefix f)
    as [data|] eqn:Hsrc; [|discriminate].
  exists f, data, stored. cbn [bind_result] in Hdata.
  repeat split; [done..| |].
  - cbn [file_offset relocate]. unfold len. lia.
  - cbn [file_offset file_size relocate].
    rewrite Hblob, (concat_middle datas k stored Hd). apply py_slice_middle.
Qed.

End PackedPayloads.

(** C3: the two directions treat the type field differently. When packing,
    the bytes stored in the blob for a file are its bytes from the directory
    tree, compressed and preceded by their length in 4 little-endian bytes,
    exactly when the type is 2; for every other type, 1 included, they are
    the file's bytes unchanged. When unpacking, the bytes written for a file
    are its blob slice when the type is 0; for every other type they are
    what zlib decompresses from the slice after its first 4 bytes. *)
Theorem compression_policy (zcompress : bytes -> Z -> bytes)
    (zdecompress : bytes -> Z -> result bytes) :
  (forall fuel fs a prefix st,
      pack_loop zcompress fuel fs a prefix (pack_start a) = (Ok tt, st) ->
      forall i g, ofiles st !! i = Some g ->
        exists data,
          source_data fuel fs (dirs a) (fnames a) (dnames a) prefix g = Ok data /\
          let stored := py_slice (oblob st) (file_offset g) (file_offset g + file_size g) in
          (file_type g = 2 ->
             stored = u32 (len data) ++ zcompress data VFS_COMPRESSION_LEVEL) /\
          (file_type g <> 2 -> stored = data)) /\
  (forall fuel a prefix file fs fs',
      unpack_file zdecompress fuel a prefix file fs = (Ok tt, fs') ->
      exists target content,
        file_path fuel (dirs a) (fnames a) (dnames a) prefix file = Ok target /\
        (read_bytes target fs').1 = Ok content /\
        let slice := py_slice (blob a) (file_offset file) (file_offset file + file_size file) in
        (file_type file = 0 -> content = slice) /\
        (file_type file <> 0 ->
           zdecompress (drop 4 slice) (int_from_bytes (take 4 slice) false) = Ok content)).
Proof.
  split.
  - intros fuel fs a prefix st Hrun i g Hg.
    destruct (packed_slice zcompress fuel fs a prefix st Hrun i g Hg)
      as (f & data & stored & _ & _ & _ & _ & _ & Hsrc & Hpay & _ & _ & Hslice).
    exists data. split; [done|]. cbv zeta. rewrite Hslice.
    destruct (payload_ok _ _ _ _ Hpay) as [H2 Hother].
    split; [|done]. intros Hty. by destruct (H2 Hty).
  - intros fuel a prefix file fs fs' Hrun.
    apply unpack_file_inv in Hrun
      as (target & content & Htarget & Hdata & _ & _ & Hloc & Hfiles).
    exists target, content. split; [done|]. split.
    + apply read_bytes_ok. eexists. split; [exact Hloc|].
      rewrite Hfiles. apply lookup_insert_eq.
    + unfold extract in Hdata. rewrite py_slice_prefix in Hdata. cbv zeta.
      destruct (Z.eqb_spec (file_type file) 0) as [Hty|Hty].
      * split; [intros _; congruence|done].
      * split; [done|by intros _].
Qed.

Lemma int_from_bytes_u32 v : fits_u32 v -> int_from_bytes (u32 v) false = v.
Proof. intros Hv. apply int_from_to_bytes. by apply int_to_bytes_unsigned. Qed.

Lemma take_drop_u32 v (tail : bytes) :
  take 4 (u32 v ++ tail) = u32 v /\ drop 4 (u32 v ++ tail) = tail.
Proof.
  split.
  - rewrite <- (length_le_bytes 4 v) at 1. apply take_app_length.
  - rewrite <- (length_le_bytes 4 v) at 1. apply drop_app_length.
Qed.

(** What [decompress] extracts from a stored payload of type 2. *)
Lemma extract_compressed zcompress zdecompress blob g data :
  (forall data level bufsize, zdecompress (zcompress data level) bufsize = Ok data) ->
  file_type g = 2 -> fits_u32 (len data) ->
  py_slice blob (file_offset g) (file_offset g + file_size g) =
    u32 (len data) ++ zcompress data VFS_COMPRESSION_LEVEL ->
  extract zdecompress blob g = Ok data.
Proof.
  intros Hz Hty Hfit Hslice. unfold extract. rewrite Hslice, Hty. simpl (2 =? 0).
  cbv iota zeta. rewrite py_slice_prefix.
  destruct (take_drop_u32 (len data) (zcompress data VFS_COMPRESSION_LEVEL)) as [-> ->].
  apply Hz.
Qed.

(** C9: given that zlib decompresses what it compressed, the blob slice of
    every file packed with type 2 is a 4-byte little-endian prefix that reads
    as the length of the file's bytes, followed by bytes that decompress to
    exactly the file's bytes. *)
Theorem compressed_payload (zcompress : bytes -> Z -> bytes)
    (zdecompress : bytes -> Z -> result bytes) :
  (forall data level bufsize, zdecompress (zcompress data level) bufsize = Ok data) ->
  forall fuel fs a prefix st,
    pack_loop zcompress fuel fs a prefix (pack_start a) = (Ok tt, st) ->
    forall i g, ofiles st !! i = Some g -> file_type g = 2 ->
      exists data,
        source_data fuel fs (dirs a) (fnames a) (dnames a) prefix g = Ok data /\
        let stored := py_slice (oblob st) (file_offset g) (file_offset g + file_size g) in
        length (take 4 stored) = 4%nat /\
        int_from_bytes (take 4 stored) false = len data /\
        zdecompress (drop 4 stored) (int_from_bytes (take 4 stored) false) = Ok data /\
        extract zdecompress (oblob st) g = Ok data.
Proof.
  intros Hz fuel fs a prefix st Hrun i g Hg Hty.
  destruct (packed_slice zcompress fuel fs a prefix st Hrun i g Hg)
    as (f & data & stored & _ & _ & _ & _ & _ & Hsrc & Hpay & _ & _ & Hslice).
  destruct (payload_ok _ _ _ _ Hpay) as [H2 _]. destruct (H2 Hty) as [Hfit ->].
  exists data. split; [done|]. cbv zeta. rewrite Hslice.
  destruct (take_drop_u32 (len data) (zcompress data VFS_COMPRESSION_LEVEL)) as [Htake Hdrop].
  rewrite Htake, Hdrop, int_from_bytes_u32 by done.
  split; [apply length_le_bytes|]. split; [done|]. split; [apply Hz|].
  by apply (extract_compressed zcompress).
Qed.

Lemma compressed_payload_witness :
  exists data,
    source_data 8 sample_unpacked (dirs sample_archive) (fnames sample_archive)
      (dnames sample_archive) (PurePath "out")
      {| file_hash := 21; file_id := 1; file_type := 2; file_dir := 1;
         file_offset := 3; file_size := 20 |} = Ok data /\
    let stored := py_slice (oblob sample_packed) 3 (3 + 20) in
    length (take 4 stored) = 4%nat /\
    int_from_bytes (take 4 stored) false = len data /\
    Stored.zdecompress (drop 4 stored) (int_from_bytes (take 4 stored) false) = Ok data /\
    extract Stored.zdecompress (oblob sample_packed)
      {| file_hash := 21; file_id := 1; file_type := 2; file_dir := 1;
         file_offset := 3; file_size := 20 |} = Ok data.
Proof.
  apply (compressed_payload Stored.zcompress Stored.zdecompress
           StoredFacts.zdecompress_zcompress
           8 sample_unpacked sample_archive (PurePath "out") sample_packed
           ltac:(vm_compute; reflexivity) 0%nat
           {| file_hash := 21; file_id := 1; file_type := 2; file_dir := 1;
              file_offset := 3; file_size := 20 |}).
  - vm_compute. reflexivity.
  - reflexivity.
Defined.

(** ** The properties on the sample archives *)

Lemma read_vfs_blob_witness :
  read_vfs short_end_stream =
    read_names [] [] [xaa; xbb] {| tell := 18; rest := [] |}.
Proof.
  exact (proj1 (proj2 (read_vfs_blob short_end_stream
                         {| tell := 12; rest := le_bytes 4 15 ++ [xaa; xbb] |} [] []
                         eq_refl)) eq_refl).
Defined.

(** C6 as the specification states it is false: with a computed length of
    -1, [read_vfs] returns an archive whose blob is the rest of the stream. *)
Lemma read_vfs_negative_blob_length :
  ~ (forall s ds fs s1,
       read_head s = (Ok (ds, fs), s1) -> blob_length s1 < 0 ->
       exists e s', read_vfs s = (Err e, s')).
Proof.
  intros H.
  destruct (H short_end_stream [] [] {| tell := 12; rest := le_bytes 4 15 ++ [xaa; xbb] |})
    as (e & s' & Hrun); [reflexivity|reflexivity|].
  vm_compute in Hrun. discriminate Hrun.
Qed.

Lemma write_vfs_read_vfs_witness :
  (exists out, write_vfs sample_archive [] = (Ok tt, out)) /\
  read_vfs {| tell := 0; rest := sample_bytes |} =
    (Ok sample_archive, {| tell := len sample_bytes; rest := [] |}).
Proof.
  assert (Hlens : Forall (fun s => fits_u32 (str_len s))
                    (fnames sample_archive ++ dnames sample_archive)).
  { repeat (apply Forall_cons; split; [unfold fits_u32, str_len; simpl; lia|]).
    constructor. }
  assert (Hdirs : Forall dir_fits (dirs sample_archive)).
  { unfold dir_fits, fits_u32, fits_i32. repeat constructor; simpl; lia. }
  assert (Hfiles : Forall file_fits (files sample_archive)).
  { unfold file_fits, fits_u32. repeat constructor; simpl; lia. }
  assert (Hfa : Forall is_ascii (fnames sample_archive)) by repeat constructor.
  assert (Hda : Forall is_ascii (dnames sample_archive)) by repeat constructor.
  split.
  - apply (proj1 (write_vfs_read_vfs sample_archive [] eq_refl eq_refl Hfa Hda Hdirs Hfiles));
      try done; unfold fits_u32; vm_compute; split; congruence.
  - apply (proj2 (write_vfs_read_vfs sample_archive [] eq_refl eq_refl Hfa Hda Hdirs Hfiles)
             sample_bytes).
    vm_compute. reflexivity.
Defined.

Lemma compression_policy_witness :
  (exists data,
      source_data 8 sample_unpacked (dirs sample_archive) (fnames sample_archive)
        (dnames sample_archive) (PurePath "out")
        {| file_hash := 22; file_id := 0; file_type := 0; file_dir := 0;
           file_offset := 0; file_size := 3 |} = Ok data /\
      let stored := py_slice (oblob sample_packed) 0 (0 + 3) in
      (0 = 2 -> stored = u32 (len data) ++ Stored.zcompress data VFS_COMPRESSION_LEVEL) /\
      (0 <> 2 -> stored = data)) /\
  (exists target content,
      file_path 8 (dirs sample_archive) (fnames sample_archive) (dnames sample_archive)
        (PurePath "out")
        {| file_hash := 21; file_id := 1; file_type := 2; file_dir := 1;
           file_offset := 3; file_size := 20 |} = Ok target /\
      (read_bytes target
         (unpack_file Stored.zdecompress 8 sample_archive (PurePath "out")
            {| file_hash := 21; file_id := 1; file_type := 2; file_dir := 1;
               file_offset := 3; file_size := 20 |} sample_fs).2).1 = Ok content /\
      let slice := py_slice (blob sample_archive) 3 (3 + 20) in
      (2 = 0 -> content = slice) /\
      (2 <> 0 ->
         Stored.zdecompress (drop 4 slice) (int_from_bytes (take 4 slice) false) = Ok content)).
Proof.
  split.
  - apply (proj1 (compression_policy Stored.zcompress Stored.zdecompress)
             8%nat sample_unpacked sample_archive (PurePath "out") sample_packed
             ltac:(vm_compute; reflexivity) 1%nat
             {| file_hash := 22; file_id := 0; file_type := 0; file_dir := 0;
                file_offset := 0; file_size := 3 |}).
    vm_compute. reflexivity.
  - apply (proj2 (compression_policy Stored.zcompress Stored.zdecompress)
             8%nat sample_archive (PurePath "out")
             {| file_hash := 21; file_id := 1; file_type := 2; file_dir := 1;
                file_offset := 3; file_size := 20 |} sample_fs).
    vm_compute. reflexivity.
Defined.

(** ** Unpacking, then packing *)

Lemma file_path_ext fuel odirs ofnames odnames prefix (f g : VfsFile) :
  file_dir g = file_dir f -> file_id g = file_id f ->
  file_path fuel odirs ofnames odnames prefix g =
  file_path fuel odirs ofnames odnames prefix f.
Proof. intros Hdir Hid. unfold file_path. by rewrite Hdir, Hid. Qed.

Lemma with_open_rb_same {A} (name : string) (rd : M istream A) (fs fs' : filesystem) x :
  (read_bytes (PurePath name) fs').1 = (read_bytes (PurePath name) fs).1 ->
  with_open_rb name rd fs = (Ok x, fs) ->
  with_open_rb name rd fs' = (Ok x, fs').
Proof.
  rewrite !with_open_rb_eq. intros ->.
  destruct ((read_bytes (PurePath name) fs).1); [|discriminate]. by intros [= ->].
Qed.

(** C1 (as the code has it): take an archive [a], stored in the file
    [ivfs], whose name tables are as long as its record tables, whose files
    all have type 0 or 2 and no two of which unpack to the same location
    (their paths differ after the resolution of [".."] and of the working
    directory); given that zlib decompresses what it compressed. If
    unpacking it under [prefix] succeeds and leaves the archive file as it
    was, and packing the same tree into [ovfs] succeeds, then [ovfs] holds
    an archive [b] with the directory table, the file names and the
    directory names of [a], with the file records of [a] up to their offsets
    and sizes, and in which every file has the content it has in [a];
    unpacking [b] does to any file system what unpacking [a] does. *)
Theorem unpack_pack_round_trip (zcompress : bytes -> Z -> bytes)
    (zdecompress : bytes -> Z -> result bytes)
    (fuel : nat) (ivfs ovfs : string) (prefix : Path)
    (fs0 fs1 fs2 : filesystem) (a : archive) :
  (forall data level bufsize, zdecompress (zcompress data level) bufsize = Ok data) ->
  with_open_rb ivfs read_vfs fs0 = (Ok a, fs0) ->
  length (fnames a) = length (files a) ->
  length (dnames a) = length (dirs a) ->
  Forall (fun f => file_type f = 0 \/ file_type f = 2) (files a) ->
  distinct_locations fuel (fs_cwd fs0) a prefix ->
  decompress zdecompress fuel ivfs prefix fs0 = (Ok tt, fs1) ->
  (read_bytes (PurePath ivfs) fs1).1 = (read_bytes (PurePath ivfs) fs0).1 ->
  compress zcompress fuel ivfs prefix ovfs fs1 = (Ok tt, fs2) ->
  exists b,
    with_open_rb ovfs read_vfs fs2 = (Ok b, fs2) /\
    same_archive zdecompress a b /\
    (forall prefix2 fs,
       (read_bytes (PurePath ivfs) fs).1 = (read_bytes (PurePath ivfs) fs0).1 ->
       (read_bytes (PurePath ovfs) fs).1 = (read_bytes (PurePath ovfs) fs2).1 ->
       decompress zdecompress fuel ovfs prefix2 fs =
       decompress zdecompress fuel ivfs prefix2 fs).
Proof.
  intros Hz Ha Hfn Hdn Htypes Hdistinct Hunpack Hkept Hpack.
  (* unpacking: every file is in the tree with its content *)
  unfold decompress in Hunpack. rewrite (bind_ok _ _ _ _ _ Ha) in Hunpack.
  pose proof (unpack_each_lookup zdecompress fuel a prefix _ _ _ Hunpack Hdistinct)
    as Hcontents.
  (* packing: the loop, then the output file *)
  unfold compress in Hpack.
  rewrite (bind_ok _ _ _ _ _ (with_open_rb_same _ _ _ _ _ Hkept Ha)) in Hpack.
  destruct (pack_loop zcompress fuel fs1 a prefix (pack_start a)) as [[[]|e] st] eqn:Hloop;
    [|discriminate].
  apply with_open_wb_read in Hpack as (out & Hwrite & Hfiles2).
  destruct (pack_loop_inv _ _ _ _ _ _ Hloop) as (_ & _ & _ & Hsize & _).
  set (b := {| dirs := dirs a; files := ofiles st; blob := oblob st;
               fnames := fnames a; dnames := dnames a |}) in *.
  assert (Hb : forall fs,
             (read_bytes (PurePath ovfs) fs).1 = (read_bytes (PurePath ovfs) fs2).1 ->
             with_open_rb ovfs read_vfs fs = (Ok b, fs)).
  { intros fs Hsame. rewrite with_open_rb_eq, Hsame, Hfiles2.
    pose proof (write_vfs_reads_back b [] out) as Hback.
    change (drop (length []) out) with out in Hback. change (len []) with 0 in Hback.
    rewrite Hback; [done| |done|done]. subst b. cbn [fnames files]. congruence. }
  (* the records and the contents *)
  assert (Hfiles : forall i f g, files a !! i = Some f -> ofiles st !! i = Some g ->
                     same_metadata f g /\
                     exists c, extract zdecompress (blob a) f = Ok c /\
                               extract zdecompress (oblob st) g = Ok c).
  { intros i f g Hf Hg.
    destruct (packed_slice zcompress fuel fs1 a prefix st Hloop i g Hg)
      as (f' & data & stored & Hf' & Hhash & Hid & Hty & Hdir & Hsrc & Hpay & _ & _ & Hslice).
    assert (f' = f) as -> by congruence.
    split; [done|].
    destruct (Hcontents i f Hf) as (p & c & Hp & Hc & Hlook).
    exists c. split; [done|].
    unfold source_data in Hsrc. rewrite (file_path_ext _ _ _ _ _ f g Hdir Hid), Hp in Hsrc.
    cbn [bind_result] in Hsrc. rewrite Hlook in Hsrc.
    injection Hsrc as <-.
    destruct (payload_ok _ _ _ _ Hpay) as [H2 Hother].
    rewrite Forall_forall in Htypes.
    destruct (Htypes f (list_elem_of_lookup_2 _ _ _ Hf)) as [H0|Hc2].
    - unfold extract. rewrite Hslice, Hty, H0. cbn. f_equal. apply Hother. lia.
    - destruct (H2 ltac:(lia)) as [Hfit ->].
      apply (extract_compressed zcompress); [done|lia|done|done]. }
  exists b. split; [by apply Hb|]. split.
  - unfold same_archive. subst b. cbn [dirs files blob fnames dnames].
    repeat split; try done.
    + apply Forall2_same_length_lookup. split; [done|].
      intros i f g Hf Hg. by destruct (Hfiles i f g Hf Hg).
    + apply Forall2_same_length_lookup. split; [done|].
      intros i f g Hf Hg. by destruct (Hfiles i f g Hf Hg).
  - intros prefix2 fs Hin Hout. unfold decompress.
    rewrite (bind_ok _ _ _ _ _ (Hb fs Hout)).
    rewrite (bind_ok _ _ _ _ _ (with_open_rb_same _ _ _ _ _ Hin Ha)).
    apply unpack_each_ext; [done..|].
    subst b. cbn [dirs files blob fnames dnames].
    apply Forall2_same_length_lookup. split; [done|].
    intros i f g Hf Hg. destruct (Hfiles i f g Hf Hg) as [(_ & Hid & _ & Hdir) (c & Hc & Hcb)].
    repeat split; [done..|congruence].
Qed.

Lemma unpack_pack_round_trip_witness :
  exists b,
    with_open_rb "re.vfs" read_vfs sample_repacked = (Ok b, sample_repacked) /\
    same_archive Stored.zdecompress sample_archive b /\
    (forall prefix2 fs,
       (read_bytes (PurePath "in.vfs") fs).1 = (read_bytes (PurePath "in.vfs") sample_fs).1 ->
       (read_bytes (PurePath "re.vfs") fs).1 =
         (read_bytes (PurePath "re.vfs") sample_repacked).1 ->
       decompress Stored.zdecompress 8 "re.vfs" prefix2 fs =
       decompress Stored.zdecompress 8 "in.vfs" prefix2 fs).
Proof.
  apply (unpack_pack_round_trip Stored.zcompress Stored.zdecompress 8 "in.vfs" "re.vfs"
           (PurePath "out") sample_fs sample_unpacked sample_repacked sample_archive).
  - apply StoredFacts.zdecompress_zcompress.
  - vm_compute. reflexivity.
  - reflexivity.
  - reflexivity.
  - repeat (apply Forall_cons; split; [simpl; lia|]). constructor.
  - intros i j f g p q Hi Hj Hf Hg Heq.
    destruct i as [|[|i]], j as [|[|j]]; try done;
      simpl in Hi, Hj; simplify_eq; vm_compute in Hf, Hg; simplify_eq;
      vm_compute in Heq; discriminate.
  - vm_compute. reflexivity.
  - vm_compute. reflexivity.
  - vm_compute. reflexivity.
Defined.

(** C1 as the specification states it is false for a file of type 1:
    unpacking decompresses it, packing stores the decompressed bytes as they
    are, and unpacking the new archive fails to decompress them. *)
Lemma round_trip_type_1 :
  ~ (forall (zcompress : bytes -> Z -> bytes) (zdecompress : bytes -> Z -> result bytes)
            (fuel : nat) (ivfs ovfs : string) (prefix : Path)
            (fs0 fs1 fs2 : filesystem) (a : archive),
       (forall data level bufsize, zdecompress (zcompress data level) bufsize = Ok data) ->
       with_open_rb ivfs read_vfs fs0 = (Ok a, fs0) ->
       length (fnames a) = length (files a) ->
       length (dnames a) = length (dirs a) ->
       decompress zdecompress fuel ivfs prefix fs0 = (Ok tt, fs1) ->
       (read_bytes (PurePath ivfs) fs1).1 = (read_bytes (PurePath ivfs) fs0).1 ->
       compress zcompress fuel ivfs prefix ovfs fs1 = (Ok tt, fs2) ->
       exists b,
         with_open_rb ovfs read_vfs fs2 = (Ok b, fs2) /\
         same_archive zdecompress a b).
Proof.
  intros H.
  destruct (H Stored.zcompress Stored.zdecompress 8%nat "in.vfs"%string "re.vfs"%string
              (PurePath "out") type1_fs type1_unpacked type1_repacked type1_archive)
    as (b & Hb & _ & _ & _ & _ & Hcontent).
  - apply StoredFacts.zdecompress_zcompress.
  - vm_compute. reflexivity.
  - reflexivity.
  - reflexivity.
  - vm_compute. reflexivity.
  - vm_compute. reflexivity.
  - vm_compute. reflexivity.
  - vm_compute in Hb. injection Hb as <-.
    apply Forall2_cons_inv_l in Hcontent as (g & gs & (c & _ & Hc) & _ & [= <- <-]).
    vm_compute in Hc. discriminate Hc.
Qed.

(** It is false as well when two files have the same path: the second one
    overwrites the first in the unpacked tree, and packing stores its content
    for both. *)
Lemma round_trip_same_path :
  ~ (forall (zcompress : bytes -> Z -> bytes) (zdecompress : bytes -> Z -> result bytes)
            (fuel : nat) (ivfs ovfs : string) (prefix : Path)
            (fs0 fs1 fs2 : filesystem) (a : archive),
       (forall data level bufsize, zdecompress (zcompress data level) bufsize = Ok data) ->
       with_open_rb ivfs read_vfs fs0 = (Ok a, fs0) ->
       length (fnames a) = length (files a) ->
       length (dnames a) = length (dirs a) ->
       Forall (fun f => file_type f = 0 \/ file_type f = 2) (files a) ->
       decompress zdecompress fuel ivfs prefix fs0 = (Ok tt, fs1) ->
       (read_bytes (PurePath ivfs) fs1).1 = (read_bytes (PurePath ivfs) fs0).1 ->
       compress zcompress fuel ivfs prefix ovfs fs1 = (Ok tt, fs2) ->
       exists b,
         with_open_rb ovfs read_vfs fs2 = (Ok b, fs2) /\
         same_archive zdecompress a b).
Proof.
  intros H.
  destruct (H Stored.zcompress Stored.zdecompress 8%nat "in.vfs"%string "re.vfs"%string
              (PurePath "out") clash_fs clash_unpacked clash_repacked clash_archive)
    as (b & Hb & _ & _ & _ & _ & Hcontent).
  - apply StoredFacts.zdecompress_zcompress.
  - vm_compute. reflexivity.
  - reflexivity.
  - reflexivity.
  - repeat (apply Forall_cons; split; [simpl; lia|]). constructor.
  - vm_compute. reflexivity.
  - vm_compute. reflexivity.
  - vm_compute. reflexivity.
  - vm_compute in Hb. injection Hb as <-.
    apply Forall2_cons_inv_l in Hcontent as (g & gs & (c & Ha & Hc) & _ & [= <- <-]).
    vm_compute in Ha, Hc. congruence.
Qed.

(** Two paths that differ can name one location: the directories [d/..]
    and [e/..] are both the directory they stand in. Unpacking writes the
    two files named [x] to the one file [out/x], and packing stores the
    second content for both. *)
Lemma round_trip_same_location :
  ~ (forall (zcompress : bytes -> Z -> bytes) (zdecompress : bytes -> Z -> result bytes)
            (fuel : nat) (ivfs ovfs : string) (prefix : Path)
            (fs0 fs1 fs2 : filesystem) (a : archive),
       (forall data level bufsize, zdecompress (zcompress data level) bufsize = Ok data) ->
       with_open_rb ivfs read_vfs fs0 = (Ok a, fs0) ->
       length (fnames a) = length (files a) ->
       length (dnames a) = length (dirs a) ->
       Forall (fun f => file_type f = 0 \/ file_type f = 2) (files a) ->
       (forall i j f g p,
          files a !! i = Some f -> files a !! j = Some g ->
          file_path fuel (dirs a) (fnames a) (dnames a) prefix f = Ok p ->
          file_path fuel (dirs a) (fnames a) (dnames a) prefix g = Ok p ->
          i = j) ->
       decompress zdecompress fuel ivfs prefix fs0 = (Ok tt, fs1) ->
       (read_bytes (PurePath ivfs) fs1).1 = (read_bytes (PurePath ivfs) fs0).1 ->
       compress zcompress fuel ivfs prefix ovfs fs1 = (Ok tt, fs2) ->
       exists b,
         with_open_rb ovfs read_vfs fs2 = (Ok b, fs2) /\
         same_archive zdecompress a b).
Proof.
  intros H.
  destruct (H Stored.zcompress Stored.zdecompress 8%nat "in.vfs"%string "re.vfs"%string
              (PurePath "out") alias_fs alias_unpacked alias_repacked alias_archive)
    as (b & Hb & _ & _ & _ & _ & Hcontent).
  - apply StoredFacts.zdecompress_zcompress.
  - vm_compute. reflexivity.
  - reflexivity.
  - reflexivity.
  - repeat (apply Forall_cons; split; [simpl; lia|]). constructor.
  - intros i j f g p Hi Hj Hf Hg.
    destruct i as [|[|i]], j as [|[|j]]; try done;
      simpl in Hi, Hj; simplify_eq; vm_compute in Hf, Hg; congruence.
  - vm_compute. reflexivity.
  - vm_compute. reflexivity.
  - vm_compute. reflexivity.
  - vm_compute in Hb. injection Hb as <-.
    apply Forall2_cons_inv_l in Hcontent as (g & gs & (c & Hc0 & Hc) & _ & [= <- <-]).
    vm_compute in Hc0, Hc. congruence.
Qed.

(** * Further properties of the code *)

(** ** Primitive codec *)

(** The range of a 4-byte integer, signed or unsigned. *)
Lemma int_to_bytes_ok v signed bs :
  int_to_bytes v 4 signed = Ok bs <->
  (if signed then fits_i32 v else fits_u32 v) /\ bs = le_bytes 4 (v mod 2 ^ 32).
Proof.
  destruct signed.
  - apply int_to_bytes_signed.
  - rewrite int_to_bytes_unsigned. unfold fits_u32.
    split; intros [Hv ->]; (split; [done|]); by rewrite Z.mod_small.
Qed.

Lemma int_to_bytes_err v signed e :
  int_to_bytes v 4 signed = Err e -> e = OverflowError.
Proof. unfold int_to_bytes. repeat case_match; congruence. Qed.

(** X1. What [write_int] wrote, [read_int] reads back with the same
    signedness: 4 bytes were appended, and reading at them returns the value
    and stops after them. *)
Theorem write_int_read_int (v : Z) (signed : bool) (out out' : ostream) :
  write_int v signed out = (Ok tt, out') ->
  exists bs,
    out' = out ++ bs /\ length bs = 4%nat /\
    forall t tail,
      read_int signed {| tell := t; rest := bs ++ tail |} =
        (Ok v, {| tell := t + 4; rest := tail |}).
Proof.
  unfold write_int, bind, lift, write.
  destruct (int_to_bytes v 4 signed) as [bs|] eqn:Hbs; [|discriminate].
  intros [= <-]. exists bs.
  pose proof (int_to_bytes_length _ _ _ _ Hbs) as Hlen.
  repeat split; [done|]. intros t tail.
  rewrite read_int_app by done. by rewrite (int_from_to_bytes _ _ _ Hbs).
Qed.

Lemma write_int_read_int_witness :
  exists bs,
    [x07] ++ [xfe; xff; xff; xff] = [x07] ++ bs /\ length bs = 4%nat /\
    forall t tail,
      read_int true {| tell := t; rest := bs ++ tail |} =
        (Ok (-2), {| tell := t + 4; rest := tail |}).
Proof. apply (write_int_read_int (-2) true [x07]). reflexivity. Defined.

(** X2. [write_int] writes the 4 bytes of the value in two's complement when
    the value is in the range of its signedness, and otherwise raises
    OverflowError and writes nothing; a negative value is out of the
    unsigned range. *)
Theorem write_int_range (v : Z) (signed : bool) (out : ostream) :
  let in_range := if signed then - 2 ^ 31 <= v < 2 ^ 31 else 0 <= v < 2 ^ 32 in
  (in_range -> write_int v signed out = (Ok tt, out ++ le_bytes 4 (v mod 2 ^ 32))) /\
  (~ in_range -> write_int v signed out = (Err OverflowError, out)).
Proof.
  cbv zeta. unfold write_int, bind, lift, write. split.
  - intros Hv.
    assert (int_to_bytes v 4 signed = Ok (le_bytes 4 (v mod 2 ^ 32))) as ->; [|done].
    apply int_to_bytes_ok. split; [|done]. by destruct signed.
  - intros Hv. destruct (int_to_bytes v 4 signed) as [bs|e] eqn:Hbs.
    + apply int_to_bytes_ok in Hbs as [Hfit _]. by destruct signed.
    + by rewrite (int_to_bytes_err _ _ _ Hbs).
Qed.

Lemma write_int_range_witness :
  write_int 258 false [] = (Ok tt, [x02; x01; x00; x00]) /\
  write_int (-1) false [x07] = (Err OverflowError, [x07]).
Proof.
  split.
  - apply (proj1 (write_int_range 258 false [])). simpl. lia.
  - apply (proj2 (write_int_range (-1) false [x07])). simpl. lia.
Defined.

(** X3. With 4 bytes or more at the cursor, [read_int] consumes exactly 4
    bytes, returns a value in the range of its signedness, and [write_int]
    of that value writes the very 4 bytes that were read. *)
Theorem read_int_write_int (s : istream) (signed : bool) :
  (4 <= length (rest s))%nat ->
  exists v,
    read_int signed s = (Ok v, {| tell := tell s + 4; rest := drop 4 (rest s) |}) /\
    (if signed then fits_i32 v else fits_u32 v) /\
    forall out, write_int v signed out = (Ok tt, out ++ take 4 (rest s)).
Proof.
  intros Hlen. exists (int_from_bytes (take 4 (rest s)) signed).
  assert (Hbs : length (take 4 (rest s)) = 4%nat) by (rewrite length_take; lia).
  set (bs := take 4 (rest s)) in *.
  pose proof (le_value_range bs) as Hu. unfold len in Hu. rewrite Hbs in Hu.
  change (256 ^ Z.of_nat 4) with (2 ^ 32) in Hu.
  assert (Hv : (if signed then fits_i32 (int_from_bytes bs signed)
                else fits_u32 (int_from_bytes bs signed)) /\
               int_from_bytes bs signed mod 2 ^ 32 = le_value bs).
  { unfold int_from_bytes, fits_i32, fits_u32. rewrite Hbs.
    change (8 * Z.of_nat 4) with 32. change (32 - 1) with 31.
    change (0 <? 32) with true.
    destruct signed; cbn [andb].
    - destruct (Z.leb_spec (2 ^ 31) (le_value bs)).
      + split; [lia|].
        replace (le_value bs - 2 ^ 32) with (le_value bs + (-1) * 2 ^ 32) by lia.
        rewrite Z.mod_add by lia. apply Z.mod_small. lia.
      + split; [lia|]. apply Z.mod_small. lia.
    - split; [lia|]. apply Z.mod_small. lia. }
  destruct Hv as [Hfit Hmod]. split; [|split; [done|]].
  - rewrite read_int_eq. unfold after_read4. fold bs. unfold len. by rewrite Hbs.
  - intros out. unfold write_int, bind, lift, write.
    assert (int_to_bytes (int_from_bytes bs signed) 4 signed = Ok bs) as ->; [|done].
    apply int_to_bytes_ok. split; [done|].
    by rewrite Hmod, <- Hbs, le_bytes_le_value.
Qed.

Lemma read_int_write_int_witness :
  exists v,
    read_int true {| tell := 0; rest := [xff; xff; xff; xff; x09] |} =
      (Ok v, {| tell := 4; rest := [x09] |}) /\
    fits_i32 v /\
    forall out, write_int v true out = (Ok tt, out ++ [xff; xff; xff; xff]).
Proof.
  apply (read_int_write_int {| tell := 0; rest := [xff; xff; xff; xff; x09] |} true).
  simpl. lia.
Defined.

Lemma length_string_of_list_byte bs : String.length (string_of_list_byte bs) = length bs.
Proof.
  rewrite <- (list_byte_of_string_of_list_byte bs) at 2.
  by rewrite length_list_byte_of_string.
Qed.

Lemma is_ascii_string_of_list_byte bs :
  forallb is_ascii_byte bs = true -> is_ascii (string_of_list_byte bs).
Proof.
  unfold is_ascii, string_of_list_byte. rewrite list_ascii_of_string_of_list_ascii.
  rewrite !forallb_forall. intros Hbs c [b [<- Hb]]%in_map_iff.
  unfold is_ascii_char. rewrite byte_of_ascii_of_byte. by apply Hbs.
Qed.

(** X4. What [write_str] wrote, [read_str] reads back: the length in 4
    bytes and the characters were appended, and reading at them returns the
    string and stops after them. *)
Theorem write_str_read_str (s : string) (out out' : ostream) :
  write_str s out = (Ok tt, out') ->
  exists bs,
    out' = out ++ bs /\ len bs = 4 + str_len s /\
    forall t tail,
      read_str {| tell := t; rest := bs ++ tail |} =
        (Ok s, {| tell := t + len bs; rest := tail |}).
Proof.
  intros Hw. apply writes_str in Hw as [Hfit ->].
  exists (name_entry s). repeat split; [|intros t tail; by apply reads_str].
  unfold name_entry. rewrite len_app, len_u32. unfold len, str_len.
  by rewrite length_list_byte_of_string.
Qed.

Lemma write_str_read_str_witness :
  exists bs,
    [x02; x00; x00; x00; x68; x69] = [] ++ bs /\ len bs = 4 + str_len "hi" /\
    forall t tail,
      read_str {| tell := t; rest := bs ++ tail |} =
        (Ok "hi"%string, {| tell := t + len bs; rest := tail |}).
Proof. apply (write_str_read_str "hi" []). reflexivity. Defined.

(** X5. For a string with a character that is not ASCII, [write_str] raises
    UnicodeEncodeError after it has written the 4 bytes of the length: the
    stream is left with a length prefix and no characters. *)
Theorem write_str_non_ascii (s : string) (out : ostream) :
  ~ is_ascii s -> fits_u32 (str_len s) ->
  write_str s out = (Err UnicodeEncodeError, out ++ u32 (str_len s)).
Proof.
  intros Hs Hlen. unfold write_str.
  erewrite bind_ok by (apply writes_u32; split; [exact Hlen|reflexivity]).
  unfold bind, lift, encode_ascii. unfold is_ascii in Hs.
  by destruct (forallb is_ascii_char (list_ascii_of_string s)).
Qed.

Lemma write_str_non_ascii_witness :
  write_str (String (ascii_of_byte xe9) "t") [x07] =
    (Err UnicodeEncodeError, [x07; x02; x00; x00; x00]).
Proof.
  apply (write_str_non_ascii (String (ascii_of_byte xe9) "t") [x07]).
  - unfold is_ascii. simpl. discriminate.
  - unfold fits_u32, str_len. simpl. lia.
Defined.

(** X6. [read_str] raises nothing but UnicodeDecodeError. The string it
    returns is ASCII; its length is the length field, or what is left of the
    stream after that field when that is less; the cursor has moved by the
    bytes of the field and of the string. *)
Theorem read_str_result (s s' : istream) (r : result string) :
  read_str s = (r, s') ->
  r = Err UnicodeDecodeError \/
  exists str,
    r = Ok str /\ is_ascii str /\
    str_len str = Z.min (int_from_bytes (take 4 (rest s)) false) (len (drop 4 (rest s))) /\
    tell s' = tell s + len (take 4 (rest s)) + str_len str /\
    rest s' = drop (String.length str) (drop 4 (rest s)).
Proof.
  unfold read_str. rewrite (bind_ok _ _ _ _ _ (read_int_eq false s)).
  pose proof (int_from_bytes_unsigned_range (take 4 (rest s))) as Hsize.
  rewrite length_take in Hsize. specialize (Hsize ltac:(lia)).
  set (size := int_from_bytes (take 4 (rest s)) false) in *.
  rewrite (bind_ok _ _ _ _ _ (read_nonneg size (after_read4 s) ltac:(lia))).
  unfold lift, decode_ascii, after_read4. cbn [tell rest].
  set (body := take (Z.to_nat size) (drop 4 (rest s))).
  destruct (forallb is_ascii_byte body) eqn:Hascii; intros [= <- <-]; [right|by left].
  exists (string_of_list_byte body).
  assert (Hlen : String.length (string_of_list_byte body) = length body)
    by apply length_string_of_list_byte.
  split; [done|]. split; [by apply is_ascii_string_of_list_byte|].
  unfold str_len. rewrite Hlen. cbn [tell rest]. unfold body.
  unfold len. rewrite !length_take. repeat split; [lia|].
  destruct (decide (Z.to_nat size <= length (drop 4 (rest s)))%nat).
  - by rewrite Nat.min_l.
  - rewrite Nat.min_r by lia. by rewrite !drop_ge by lia.
Qed.

Lemma read_str_result_witness :
  (Ok "hi"%string : result string) = Err UnicodeDecodeError \/
  exists str,
    (Ok "hi"%string : result string) = Ok str /\ is_ascii str /\
    str_len str =
      Z.min (int_from_bytes (take 4 [x05; x00; x00; x00; x68; x69]) false)
            (len (drop 4 [x05; x00; x00; x00; x68; x69])) /\
    6 = 0 + len (take 4 [x05; x00; x00; x00; x68; x69]) + str_len str /\
    [] = drop (String.length str) (drop 4 [x05; x00; x00; x00; x68; x69]).
Proof.
  apply (read_str_result {| tell := 0; rest := [x05; x00; x00; x00; x68; x69] |}
           {| tell := 6; rest := [] |} (Ok "hi"%string)).
  vm_compute. reflexivity.
Defined.

(** ** Record codec *)

(** X7. What [write_dir] wrote, [read_dir] reads back: 20 bytes were
    appended, and reading at them returns the record and stops after them. *)
Theorem write_dir_read_dir (d : VfsDir) (out out' : ostream) :
  write_dir d out = (Ok tt, out') ->
  exists bs,
    out' = out ++ bs /\ length bs = 20%nat /\
    forall t tail,
      read_dir {| tell := t; rest := bs ++ tail |} =
        (Ok d, {| tell := t + 20; rest := tail |}).
Proof.
  intros Hw. apply writes_dir in Hw as [Hfit ->].
  assert (Hlen : length (dir_record d) = 20%nat).
  { unfold dir_record, u32, i32. by rewrite !length_app, !length_le_bytes. }
  exists (dir_record d). repeat split; try done. intros t tail.
  rewrite (reads_dir d t tail Hfit). unfold len. by rewrite Hlen.
Qed.

Lemma write_dir_read_dir_witness :
  exists bs,
    (write_dir chain_leaf [x07]).2 = [x07] ++ bs /\ length bs = 20%nat /\
    forall t tail,
      read_dir {| tell := t; rest := bs ++ tail |} =
        (Ok chain_leaf, {| tell := t + 20; rest := tail |}).
Proof. apply (write_dir_read_dir chain_leaf [x07]). reflexivity. Defined.

(** X8. What [write_file] wrote, [read_file] reads back: 24 bytes were
    appended, and reading at them returns the record and stops after them. *)
Theorem write_file_read_file (f : VfsFile) (out out' : ostream) :
  write_file f out = (Ok tt, out') ->
  exists bs,
    out' = out ++ bs /\ length bs = 24%nat /\
    forall t tail,
      read_file {| tell := t; rest := bs ++ tail |} =
        (Ok f, {| tell := t + 24; rest := tail |}).
Proof.
  intros Hw. apply writes_file in Hw as [Hfit ->].
  assert (Hlen : length (file_record f) = 24%nat).
  { unfold file_record, u32. by rewrite !length_app, !length_le_bytes. }
  exists (file_record f). repeat split; try done. intros t tail.
  rewrite (reads_file f t tail Hfit). unfold len. by rewrite Hlen.
Qed.

Lemma write_file_read_file_witness :
  let f := {| file_hash := 21; file_id := 1; file_type := 2; file_dir := 1;
              file_offset := 3; file_size := 20 |} in
  exists bs,
    (write_file f []).2 = [] ++ bs /\ length bs = 24%nat /\
    forall t tail,
      read_file {| tell := t; rest := bs ++ tail |} =
        (Ok f, {| tell := t + 24; rest := tail |}).
Proof.
  intros f. apply (write_file_read_file f []). reflexivity.
Defined.

(** An integer read from a stream fits the range of its signedness, also
    when fewer than 4 bytes were left. *)
Lemma int_from_bytes_fits (bs : bytes) (signed : bool) :
  (length bs <= 4)%nat ->
  if signed then fits_i32 (int_from_bytes bs signed)
  else fits_u32 (int_from_bytes bs signed).
Proof.
  intros Hlen. destruct signed; [|by apply int_from_bytes_unsigned_range].
  unfold int_from_bytes, fits_i32. cbn [andb].
  pose proof (le_value_range bs) as Hu. unfold len in Hu.
  assert (length bs = 0 \/ length bs = 1 \/ length bs = 2 \/ length bs = 3 \/
          length bs = 4)%nat as [Hn|[Hn|[Hn|[Hn|Hn]]]] by lia;
    rewrite Hn in *; simpl (8 * _) in *; simpl (256 ^ _) in Hu;
    simpl (0 <? _); cbn [andb];
    try (match goal with |- context [2 ^ (?a - 1)] => simpl (2 ^ (a - 1)) end);
    try (match goal with |- context [Z.leb ?a ?b] => destruct (Z.leb_spec a b) end);
    simpl; lia.
Qed.

Lemma read_int_fits signed :
  returns_only (read_int signed) (fun v => if signed then fits_i32 v else fits_u32 v).
Proof.
  intros s v s'. rewrite read_int_eq. intros [= <- _].
  apply int_from_bytes_fits. rewrite length_take. lia.
Qed.

Lemma read_int_total signed s :
  exists v, read_int signed s = (Ok v, after_read4 s) /\
            if signed then fits_i32 v else fits_u32 v.
Proof.
  eexists. split; [apply read_int_eq|].
  apply int_from_bytes_fits. rewrite length_take. lia.
Qed.

Lemma after_read4_drop s n :
  rest (Nat.iter n after_read4 s) = drop (4 * n) (rest s).
Proof.
  induction n as [|n IH]; [done|].
  change (Nat.iter (S n) after_read4 s) with (after_read4 (Nat.iter n after_read4 s)).
  unfold after_read4 at 1. cbn [rest]. rewrite IH, drop_drop.
  f_equal. lia.
Qed.

Lemma read_dir_run (s : istream) :
  exists d, read_dir s = (Ok d, Nat.iter 5 after_read4 s) /\ dir_fits d.
Proof.
  unfold read_dir.
  destruct (read_int_total false s) as (h & Hh & ?).
  destruct (read_int_total false (after_read4 s)) as (i & Hi & ?).
  destruct (read_int_total true (Nat.iter 2 after_read4 s)) as (p & Hp & ?).
  destruct (read_int_total true (Nat.iter 3 after_read4 s)) as (fd & Hfd & ?).
  destruct (read_int_total false (Nat.iter 4 after_read4 s)) as (ff & Hff & ?).
  rewrite (bind_ok _ _ _ _ _ Hh), (bind_ok _ _ _ _ _ Hi), (bind_ok _ _ _ _ _ Hp),
    (bind_ok _ _ _ _ _ Hfd), (bind_ok _ _ _ _ _ Hff).
  eexists. split; [reflexivity|]. done.
Qed.

Lemma read_file_run (s : istream) :
  exists f, read_file s = (Ok f, Nat.iter 6 after_read4 s) /\ file_fits f.
Proof.
  unfold read_file.
  destruct (read_int_total false s) as (h & Hh & ?).
  destruct (read_int_total false (after_read4 s)) as (i & Hi & ?).
  destruct (read_int_total false (Nat.iter 2 after_read4 s)) as (ty & Hty & ?).
  destruct (read_int_total false (Nat.iter 3 after_read4 s)) as (d & Hd & ?).
  destruct (read_int_total false (Nat.iter 4 after_read4 s)) as (o & Ho & ?).
  destruct (read_int_total false (Nat.iter 5 after_read4 s)) as (sz & Hsz & ?).
  rewrite (bind_ok _ _ _ _ _ Hh), (bind_ok _ _ _ _ _ Hi), (bind_ok _ _ _ _ _ Hty),
    (bind_ok _ _ _ _ _ Hd), (bind_ok _ _ _ _ _ Ho), (bind_ok _ _ _ _ _ Hsz).
  eexists. split; [reflexivity|]. done.
Qed.

(** X9. [read_dir] never raises, whatever the stream holds: it returns a
    record whose hash, id and from_file fit 32 bits unsigned and whose
    parent and from_dir fit 32 bits signed, as each field is read; which
    [write_dir] therefore accepts; and it leaves the stream 20 bytes further
    (at its end when fewer were left). *)
Theorem read_dir_total (s : istream) :
  exists d s',
    read_dir s = (Ok d, s') /\ dir_fits d /\
    rest s' = drop 20 (rest s) /\
    forall out, exists out', write_dir d out = (Ok tt, out').
Proof.
  destruct (read_dir_run s) as (d & Hrun & Hfit).
  exists d, (Nat.iter 5 after_read4 s). split; [done|]. split; [done|].
  split; [apply (after_read4_drop s 5)|].
  intros out. eexists. by apply writes_dir.
Qed.

(** X10. [read_file] never raises, whatever the stream holds: it returns a
    record whose fields fit 32 bits unsigned, which [write_file] therefore
    accepts, and leaves the stream 24 bytes further (at its end when fewer
    were left). *)
Theorem read_file_total (s : istream) :
  exists f s',
    read_file s = (Ok f, s') /\ file_fits f /\
    rest s' = drop 24 (rest s) /\
    forall out, exists out', write_file f out = (Ok tt, out').
Proof.
  destruct (read_file_run s) as (f & Hrun & Hfit).
  exists f, (Nat.iter 6 after_read4 s). split; [done|]. split; [done|].
  split; [apply (after_read4_drop s 6)|].
  intros out. eexists. by apply writes_file.
Qed.

(** ** Container codec: what reading can raise and return *)

Lemma raises_only_bind {S A B} (m : M S A) (k : A -> M S B) P :
  raises_only m P -> (forall a, raises_only (k a) P) -> raises_only (bind m k) P.
Proof.
  intros Hm Hk s e s'. unfold bind.
  destruct (m s) as [[a|e0] s1] eqn:Hrun.
  - apply Hk.
  - intros [= <- <-]. by eapply Hm.
Qed.

Lemma raises_only_mono {S A} (m : M S A) (P Q : error -> Prop) :
  (forall e, P e -> Q e) -> raises_only m P -> raises_only m Q.
Proof. intros HPQ Hm s e s' Hrun. eapply HPQ, Hm, Hrun. Qed.

Lemma raises_only_ret {S A} (a : A) P : raises_only (@ret S A a) P.
Proof. intros s e s'. discriminate. Qed.

Lemma read_int_never_raises signed P : raises_only (read_int signed) P.
Proof. intros s e s'. rewrite read_int_eq. discriminate. Qed.

Lemma read_many_raises {S A} (rd : M S A) n P :
  raises_only rd P -> raises_only (read_many n rd) P.
Proof.
  intros Hrd. induction n as [|n IH]; cbn [read_many].
  - apply raises_only_ret.
  - apply raises_only_bind; [done|]. intros x.
    apply raises_only_bind; [done|]. intros xs. apply raises_only_ret.
Qed.

Lemma read_raises n : raises_only (read n) (fun e => e = ReadLengthError /\ n < -1).
Proof.
  intros s e s'. unfold read. destruct (Z.ltb_spec n (-1)); [|discriminate].
  by intros [= <- _].
Qed.

Lemma read_dir_never_raises P : raises_only read_dir P.
Proof.
  intros s e s' Hrun. destruct (read_dir_run s) as (d & Hok & _). congruence.
Qed.

Lemma read_file_never_raises P : raises_only read_file P.
Proof.
  intros s e s' Hrun. destruct (read_file_run s) as (f & Hok & _). congruence.
Qed.

Lemma read_str_raises : raises_only read_str (fun e => e = UnicodeDecodeError).
Proof.
  intros s e s'. unfold read_str.
  rewrite (bind_ok _ _ _ _ _ (read_int_eq false s)).
  pose proof (int_from_bytes_unsigned_range (take 4 (rest s))) as Hsize.
  rewrite length_take in Hsize. specialize (Hsize ltac:(lia)).
  set (size := int_from_bytes (take 4 (rest s)) false) in *.
  rewrite (bind_ok _ _ _ _ _ (read_nonneg size (after_read4 s) ltac:(lia))).
  unfold lift, decode_ascii. destruct (forallb is_ascii_byte _); congruence.
Qed.

Lemma read_blob_raises : raises_only read_blob (fun e => e = ReadLengthError).
Proof.
  intros s e s'. rewrite read_blob_eq. intros Hrun. by apply read_raises in Hrun as [-> _].
Qed.

(** X11. [read_vfs] raises nothing but the bad-magic error, the error of a
    negative read length (from the blob) and UnicodeDecodeError (from a
    name): a truncated stream is never an error by itself. *)
Theorem read_vfs_raises (s s' : istream) (e : error) :
  read_vfs s = (Err e, s') ->
  e = BadMagic \/ e = ReadLengthError \/ e = UnicodeDecodeError.
Proof.
  revert s e s'.
  change (raises_only read_vfs
            (fun e => e = BadMagic \/ e = ReadLengthError \/ e = UnicodeDecodeError)).
  unfold read_vfs.
  apply raises_only_bind.
  { intros s e s'. rewrite read_magic_eq. discriminate. }
  intros [|]; cbn [negb]; [|intros s e s' [= <- _]; by left].
  apply raises_only_bind; [apply read_int_never_raises|]. intros nd.
  apply raises_only_bind; [apply read_many_raises, read_dir_never_raises|]. intros ds.
  apply raises_only_bind; [apply read_int_never_raises|]. intros nf.
  apply raises_only_bind; [apply read_many_raises, read_file_never_raises|]. intros fs.
  apply raises_only_bind.
  { eapply raises_only_mono; [|apply read_blob_raises]. intros ? ->. auto. }
  intros b.
  apply raises_only_bind; [apply read_int_never_raises|]. intros nfn.
  apply raises_only_bind.
  { apply read_many_raises. eapply raises_only_mono; [|apply read_str_raises].
    intros ? ->. auto. }
  intros fn.
  apply raises_only_bind; [apply read_int_never_raises|]. intros ndn.
  apply raises_only_bind.
  { apply read_many_raises. eapply raises_only_mono; [|apply read_str_raises].
    intros ? ->. auto. }
  intros dn. apply raises_only_ret.
Qed.

Lemma read_vfs_raises_witness :
  UnicodeDecodeError = BadMagic \/ UnicodeDecodeError = ReadLengthError \/
  UnicodeDecodeError = UnicodeDecodeError.
Proof.
  apply (read_vfs_raises
           {| tell := 0;
              rest := magic ++ le_bytes 4 0 ++ le_bytes 4 0 ++ le_bytes 4 16 ++
                      le_bytes 4 1 ++ le_bytes 4 1 ++ [xe9] |}
           {| tell := 25; rest := [] |}).
  vm_compute. reflexivity.
Defined.

Lemma read_many_returns {S A} (rd : M S A) (Q : A -> Prop) n :
  returns_only rd Q ->
  forall s xs s', read_many n rd s = (Ok xs, s') -> length xs = n /\ Forall Q xs.
Proof.
  intros Hrd. induction n as [|n IH]; intros s xs s' Hrun; cbn [read_many] in Hrun.
  - injection Hrun as <- _. by split.
  - apply bind_inv_ok in Hrun as (x & s1 & Hx & Hrun).
    apply bind_inv_ok in Hrun as (xs' & s2 & Hxs & Hrun).
    injection Hrun as <- _. destruct (IH _ _ _ Hxs) as [Hlen Hall].
    split; [simpl; by rewrite Hlen|]. constructor; [by eapply Hrd|done].
Qed.

Lemma read_dir_returns : returns_only read_dir dir_fits.
Proof.
  intros s d s' Hrun. destruct (read_dir_run s) as (d' & Hok & Hfit). congruence.
Qed.

Lemma read_file_returns : returns_only read_file file_fits.
Proof.
  intros s f s' Hrun. destruct (read_file_run s) as (f' & Hok & Hfit). congruence.
Qed.

Lemma read_str_returns : returns_only read_str name_fits.
Proof.
  intros s str s'. unfold read_str.
  rewrite (bind_ok _ _ _ _ _ (read_int_eq false s)).
  pose proof (int_from_bytes_unsigned_range (take 4 (rest s))) as Hsize.
  rewrite length_take in Hsize. specialize (Hsize ltac:(lia)).
  set (size := int_from_bytes (take 4 (rest s)) false) in *.
  rewrite (bind_ok _ _ _ _ _ (read_nonneg size (after_read4 s) ltac:(lia))).
  unfold lift, decode_ascii.
  set (body := take (Z.to_nat size) (rest (after_read4 s))).
  destruct (forallb is_ascii_byte body) eqn:Hascii; [|discriminate].
  intros [= <- _]. split; [|by apply is_ascii_string_of_list_byte].
  unfold fits_u32, str_len. rewrite length_string_of_list_byte.
  unfold body. rewrite length_take. lia.
Qed.

Lemma read_count_fits {A} (v : Z) (xs : list A) :
  fits_u32 v -> length xs = Z.to_nat v -> fits_u32 (len xs).
Proof. unfold fits_u32, len. lia. Qed.

(** X12. Whatever [read_vfs] returns can be written again: the records fit
    their ranges, the names are ASCII, names and tables are shorter than 2^32;
    so that [write_vfs] of it succeeds exactly when the end offset of the blob
    fits 32 bits. *)
Theorem read_vfs_writable (s s' : istream) (a : archive) :
  read_vfs s = (Ok a, s') ->
  Forall dir_fits (dirs a) /\ Forall file_fits (files a) /\
  Forall name_fits (fnames a) /\ Forall name_fits (dnames a) /\
  fits_u32 (len (dirs a)) /\ fits_u32 (len (files a)) /\
  forall pre : bytes,
    fits_u32 (blob_end_offset (len pre) a) <-> exists out, write_vfs a pre = (Ok tt, out).
Proof.
  unfold read_vfs. intros Hrun.
  apply bind_inv_ok in Hrun as (ok & s1 & _ & Hrun).
  destruct ok; cbn [negb] in Hrun; [|discriminate].
  apply bind_inv_ok in Hrun as (nd & s2 & Hnd & Hrun).
  apply bind_inv_ok in Hrun as (ds & s3 & Hds & Hrun).
  apply bind_inv_ok in Hrun as (nf & s4 & Hnf & Hrun).
  apply bind_inv_ok in Hrun as (fs & s5 & Hfs & Hrun).
  apply bind_inv_ok in Hrun as (b & s6 & _ & Hrun).
  apply bind_inv_ok in Hrun as (nfn & s7 & _ & Hrun).
  apply bind_inv_ok in Hrun as (fn & s8 & Hfn & Hrun).
  apply bind_inv_ok in Hrun as (ndn & s9 & _ & Hrun).
  apply bind_inv_ok in Hrun as (dn & s10 & Hdn & Hrun).
  injection Hrun as <- _. cbn [dirs files blob fnames dnames].
  apply (read_int_fits false) in Hnd, Hnf.
  destruct (read_many_returns _ _ _ read_dir_returns _ _ _ Hds) as [Hlend Hdfit].
  destruct (read_many_returns _ _ _ read_file_returns _ _ _ Hfs) as [Hlenf Hffit].
  destruct (read_many_returns _ _ _ read_str_returns _ _ _ Hfn) as [_ Hfnfit].
  destruct (read_many_returns _ _ _ read_str_returns _ _ _ Hdn) as [_ Hdnfit].
  pose proof (read_count_fits nd ds Hnd Hlend) as Hcd.
  pose proof (read_count_fits nf fs Hnf Hlenf) as Hcf.
  do 6 (split; [done|]). intros pre. split.
  - intros Hend. eexists. apply write_vfs_layout. split; [|reflexivity].
    unfold encodable. cbn [dirs files blob fnames dnames].
    do 6 (split; [done|]). done.
  - intros [out Hw]. apply write_vfs_layout in Hw as [Henc _].
    by destruct Henc as (_ & _ & _ & _ & Hend & _).
Qed.

Lemma read_vfs_writable_witness :
  Forall dir_fits (dirs sample_archive) /\ Forall file_fits (files sample_archive) /\
  Forall name_fits (fnames sample_archive) /\ Forall name_fits (dnames sample_archive) /\
  fits_u32 (len (dirs sample_archive)) /\ fits_u32 (len (files sample_archive)) /\
  forall pre : bytes,
    fits_u32 (blob_end_offset (len pre) sample_archive) <->
    exists out, write_vfs sample_archive pre = (Ok tt, out).
Proof.
  apply (read_vfs_writable {| tell := 0; rest := sample_bytes |}
           {| tell := len sample_bytes; rest := [] |}).
  vm_compute. reflexivity.
Defined.

(** ** Container codec: what writing can raise, and that it only appends *)

Lemma appends_only_bind {A B} (m : M ostream A) (k : A -> M ostream B) :
  appends_only m -> (forall a, appends_only (k a)) -> appends_only (bind m k).
Proof.
  intros Hm Hk out r out'. unfold bind.
  destruct (m out) as [[a|e] o1] eqn:Hrun; intros Hk2.
  - destruct (Hm _ _ _ Hrun) as [bs ->]. destruct (Hk _ _ _ _ Hk2) as [bs' ->].
    exists (bs ++ bs'). by rewrite app_assoc.
  - injection Hk2 as _ <-. by eapply Hm.
Qed.

Lemma appends_only_pure {A} (r : result A) : appends_only (lift r).
Proof. intros out r' out' [= _ <-]. exists []. by rewrite app_nil_r. Qed.

Lemma appends_only_write bs : appends_only (write bs).
Proof. intros out r out' [= _ <-]. by exists bs. Qed.

Lemma appends_only_write_int v signed : appends_only (write_int v signed).
Proof.
  apply appends_only_bind; [apply appends_only_pure|]. intros bs. apply appends_only_write.
Qed.

Lemma appends_only_write_str s : appends_only (write_str s).
Proof.
  apply appends_only_bind; [apply appends_only_write_int|]. intros _.
  apply appends_only_bind; [apply appends_only_pure|]. intros bs. apply appends_only_write.
Qed.

Lemma appends_only_write_dir d : appends_only (write_dir d).
Proof.
  unfold write_dir.
  repeat (apply appends_only_bind; [apply appends_only_write_int|]; intros _).
  apply appends_only_write_int.
Qed.

Lemma appends_only_write_file f : appends_only (write_file f).
Proof.
  unfold write_file.
  repeat (apply appends_only_bind; [apply appends_only_write_int|]; intros _).
  apply appends_only_write_int.
Qed.

Lemma appends_only_write_each {A} (wr : A -> M ostream unit) xs :
  (forall x, appends_only (wr x)) -> appends_only (write_each wr xs).
Proof.
  intros Hwr. induction xs as [|x xs IH]; cbn [write_each].
  - apply (appends_only_pure (Ok tt)).
  - apply appends_only_bind; [apply Hwr|]. by intros _.
Qed.

Lemma write_int_raises v signed :
  raises_only (write_int v signed) (fun e => e = OverflowError).
Proof.
  intros out e out'. unfold write_int, bind, lift, write.
  destruct (int_to_bytes v 4 signed) as [bs|e0] eqn:Hbs; [discriminate|].
  intros [= <- _]. by eapply int_to_bytes_err.
Qed.

Lemma write_str_raises s :
  raises_only (write_str s) (fun e => e = OverflowError \/ e = UnicodeEncodeError).
Proof.
  unfold write_str. apply raises_only_bind.
  { eapply raises_only_mono; [|apply write_int_raises]. intros ? ->. auto. }
  intros _ out e out'. unfold bind, lift, write, encode_ascii.
  destruct (forallb is_ascii_char _); [discriminate|]. intros [= <- _]. auto.
Qed.

Lemma write_each_raises {A} (wr : A -> M ostream unit) xs P :
  (forall x, raises_only (wr x) P) -> raises_only (write_each wr xs) P.
Proof.
  intros Hwr. induction xs as [|x xs IH]; cbn [write_each].
  - apply raises_only_ret.
  - apply raises_only_bind; [apply Hwr|]. by intros _.
Qed.

Lemma write_dir_raises d : raises_only (write_dir d) (fun e => e = OverflowError).
Proof.
  unfold write_dir.
  repeat (apply raises_only_bind; [apply write_int_raises|]; intros _).
  apply write_int_raises.
Qed.

Lemma write_file_raises f : raises_only (write_file f) (fun e => e = OverflowError).
Proof.
  unfold write_file.
  repeat (apply raises_only_bind; [apply write_int_raises|]; intros _).
  apply write_int_raises.
Qed.

(** X13. [write_vfs] only appends to its stream, also when it raises: what
    it wrote before the failure stays. It raises nothing but OverflowError
    (a count, a field, a name length or the end offset of the blob does not
    fit) and UnicodeEncodeError (a name is not ASCII). *)
Theorem write_vfs_appends (a : archive) (out out' : ostream) (r : result unit) :
  write_vfs a out = (r, out') ->
  (exists bs, out' = out ++ bs) /\
  (forall e, r = Err e -> e = OverflowError \/ e = UnicodeEncodeError).
Proof.
  intros Hrun. split.
  - revert out r out' Hrun. change (appends_only (write_vfs a)). unfold write_vfs.
    apply appends_only_bind; [apply appends_only_write|]; intros _.
    apply appends_only_bind; [apply appends_only_write_int|]; intros _.
    apply appends_only_bind;
      [apply appends_only_write_each, appends_only_write_dir|]; intros _.
    apply appends_only_bind; [apply appends_only_write_int|]; intros _.
    apply appends_only_bind;
      [apply appends_only_write_each, appends_only_write_file|]; intros _.
    apply appends_only_bind.
    { apply appends_only_bind; [|intros here; apply appends_only_write_int].
      intros o r o' [= _ <-]. exists []. by rewrite app_nil_r. }
    intros _.
    apply appends_only_bind; [apply appends_only_write|]; intros _.
    apply appends_only_bind; [apply appends_only_write_int|]; intros _.
    apply appends_only_bind;
      [apply appends_only_write_each, appends_only_write_str|]; intros _.
    apply appends_only_bind; [apply appends_only_write_int|]; intros _.
    apply appends_only_write_each, appends_only_write_str.
  - intros e ->. revert out e out' Hrun.
    change (raises_only (write_vfs a)
              (fun e => e = OverflowError \/ e = UnicodeEncodeError)).
    assert (Hint : forall v signed,
               raises_only (write_int v signed)
                 (fun e => e = OverflowError \/ e = UnicodeEncodeError)).
    { intros v signed. eapply raises_only_mono; [|apply write_int_raises].
      intros ? ->. auto. }
    unfold write_vfs.
    apply raises_only_bind; [intros o e o'; discriminate|]; intros _.
    apply raises_only_bind; [apply Hint|]; intros _.
    apply raises_only_bind.
    { apply write_each_raises. intros d.
      eapply raises_only_mono; [|apply write_dir_raises]. intros ? ->. auto. }
    intros _.
    apply raises_only_bind; [apply Hint|]; intros _.
    apply raises_only_bind.
    { apply write_each_raises. intros f.
      eapply raises_only_mono; [|apply write_file_raises]. intros ? ->. auto. }
    intros _.
    apply raises_only_bind.
    { apply raises_only_bind; [intros o e o'; discriminate|]. intros here. apply Hint. }
    intros _.
    apply raises_only_bind; [intros o e o'; discriminate|]; intros _.
    apply raises_only_bind; [apply Hint|]; intros _.
    apply raises_only_bind; [apply write_each_raises, write_str_raises|]; intros _.
    apply raises_only_bind; [apply Hint|]; intros _.
    apply write_each_raises, write_str_raises.
Qed.

Lemma write_vfs_appends_witness :
  (exists bs, (write_vfs accent_archive [x07]).2 = [x07] ++ bs) /\
  (forall e, (write_vfs accent_archive [x07]).1 = Err e ->
             e = OverflowError \/ e = UnicodeEncodeError).
Proof.
  apply (write_vfs_appends accent_archive [x07]). apply surjective_pairing.
Defined.

Lemma read_vfs_layout (a : archive) (pos : Z) (tail : bytes) :
  encodable pos a ->
  length (fnames a) = length (files a) ->
  length (dnames a) = length (dirs a) ->
  read_vfs {| tell := pos; rest := container_layout pos a ++ tail |} =
    (Ok a, {| tell := pos + len (container_layout pos a); rest := tail |}).
Proof.
  intros (Hnd & Hd & Hnf & Hf & Hend & Hfs & Hds) Hfn Hdn.
  set (total := pos + len (container_layout pos a)).
  assert (Htotal : total = blob_end_offset pos a + len (names_layout a)).
  { unfold total, container_layout, blob_end_offset. rewrite !len_app, len_u32. lia. }
  clearbody total. subst total.
  unfold container_layout. rewrite <- !app_assoc.
  rewrite read_vfs_layout_head by done.
  unfold read_names, names_layout. rewrite <- !app_assoc.
  erewrite bind_ok by by apply read_u32_ok.
  rewrite Z_to_nat_len, <- Hfn.
  erewrite bind_ok by by apply (reads_many _ _ _ reads_str).
  erewrite bind_ok by by apply read_u32_ok.
  rewrite Z_to_nat_len, <- Hdn.
  erewrite bind_ok by by apply (reads_many _ _ _ reads_str).
  unfold ret. f_equal; [by destruct a|]. f_equal.
  rewrite !len_app, !len_u32. lia.
Qed.

(** X14. Archives written one after the other to one stream read back one
    after the other: after the first archive the reader stands where the
    second one starts (the end offset of a blob is an absolute position, and
    both sides count it from the start of the stream). *)
Theorem write_vfs_twice (a1 a2 : archive) (pre out1 out2 : bytes) :
  length (fnames a1) = length (files a1) -> length (dnames a1) = length (dirs a1) ->
  length (fnames a2) = length (files a2) -> length (dnames a2) = length (dirs a2) ->
  write_vfs a1 pre = (Ok tt, out1) ->
  write_vfs a2 out1 = (Ok tt, out2) ->
  let s1 := {| tell := len out1; rest := drop (length out1) out2 |} in
  read_vfs {| tell := len pre; rest := drop (length pre) out2 |} = (Ok a1, s1) /\
  read_vfs s1 = (Ok a2, {| tell := len out2; rest := [] |}).
Proof.
  intros Hfn1 Hdn1 Hfn2 Hdn2 Hw1 Hw2 s1. split.
  - unfold s1.
    apply write_vfs_layout in Hw1 as [Henc1 ->].
    apply write_vfs_layout in Hw2 as [_ ->].
    rewrite drop_app_length, <- app_assoc, drop_app_length.
    rewrite read_vfs_layout by done. by rewrite len_app.
  - by apply write_vfs_reads_back.
Qed.

Lemma write_vfs_twice_witness :
  let out1 := (write_vfs sample_archive []).2 in
  let out2 := (write_vfs twin_archive out1).2 in
  let s1 := {| tell := len out1; rest := drop (length out1) out2 |} in
  read_vfs {| tell := len ([] : bytes); rest := drop (length ([] : bytes)) out2 |} =
    (Ok sample_archive, s1) /\
  read_vfs s1 = (Ok twin_archive, {| tell := len out2; rest := [] |}).
Proof.
  intros out1 out2.
  apply (write_vfs_twice sample_archive twin_archive [] out1 out2);
    try reflexivity; vm_compute; reflexivity.
Defined.

(** ** Path resolver: fuel, cycles and indices *)

Lemma py_index_ok_inv {A} (l : list A) (i : Z) x :
  0 <= i -> py_index l i = Ok x -> l !! Z.to_nat i = Some x.
Proof.
  intros Hi. unfold py_index.
  destruct (Z.ltb_spec i 0); [lia|]. destruct (Z.ltb_spec i 0); [lia|].
  destruct (l !! Z.to_nat i); [|discriminate]. by intros [= ->].
Qed.

Lemma bind_result_ok_inv {A B} (r : result A) (k : A -> result B) b :
  bind_result r k = Ok b -> exists a, r = Ok a /\ k a = Ok b.
Proof. destruct r as [a|]; [|discriminate]. simpl. eauto. Qed.

(** X15. In a directory table whose references are in bounds, when
    [build_path] returns a path with some fuel, the parent links of the
    directory reach a root in fewer hops than that fuel, and the path is the
    one the recursive definition of the specification gives. *)
Theorem build_path_sound (fuel : nat) (dirs : list VfsDir) (dnames : list string)
    (dir : VfsDir) (p : Path) :
  Forall (refs_in_bounds dirs dnames) dirs ->
  dir ∈ dirs ->
  build_path fuel dirs dnames dir = Ok p ->
  exists n, (n < fuel)%nat /\ reaches_root dirs dir n /\ resolve_path dirs dnames dir p.
Proof.
  intros Hok. revert dir p.
  induction fuel as [|fuel IH]; intros dir p Hin Hrun; [discriminate|].
  cbn [build_path] in Hrun.
  rewrite Forall_forall in Hok. destruct (Hok dir Hin) as [Hpar [Hid0 _]].
  destruct (Z.eqb_spec (dir_parent dir) (-1)) as [Hroot|Hne].
  - apply bind_result_ok_inv in Hrun as (name & Hname & [= <-]).
    apply py_index_ok_inv in Hname; [|done].
    exists 0%nat. split; [lia|]. split; by constructor.
  - destruct Hpar as [?|[Hp0 _]]; [done|].
    apply bind_result_ok_inv in Hrun as (parent & Hparent & Hrun).
    apply bind_result_ok_inv in Hrun as (path & Hpath & Hrun).
    apply bind_result_ok_inv in Hrun as (name & Hname & [= <-]).
    apply py_index_ok_inv in Hparent; [|done]. apply py_index_ok_inv in Hname; [|done].
    destruct (IH parent path (list_elem_of_lookup_2 _ _ _ Hparent) Hpath)
      as (n & Hn & Hreach & Hres).
    exists (S n). split; [lia|]. split; by econstructor.
Qed.

Lemma build_path_sound_witness :
  exists n, (n < 5)%nat /\ reaches_root chain_dirs chain_leaf n /\
            resolve_path chain_dirs chain_dnames chain_leaf
              {| root := ""; parts := ["root"; "mid"; "leaf"]%string |}.
Proof.
  apply (build_path_sound 5 chain_dirs chain_dnames chain_leaf).
  - unfold refs_in_bounds, chain_dirs, len. repeat constructor; simpl; lia.
  - unfold chain_dirs. set_solver.
  - reflexivity.
Defined.

(** X16. In a directory table whose references are in bounds, for a
    directory whose parent links never reach a root (a cycle), [build_path]
    ends in RecursionError whatever the fuel: it never returns a path and
    never raises anything else. *)
Theorem build_path_cycle (dirs : list VfsDir) (dnames : list string) (dir : VfsDir) :
  Forall (refs_in_bounds dirs dnames) dirs ->
  dir ∈ dirs ->
  (forall n, ~ reaches_root dirs dir n) ->
  forall fuel, build_path fuel dirs dnames dir = Err RecursionError.
Proof.
  intros Hok Hin Hcycle fuel. revert dir Hin Hcycle.
  induction fuel as [|fuel IH]; intros dir Hin Hcycle; [done|].
  cbn [build_path]. pose proof Hok as Hok'.
  rewrite Forall_forall in Hok'. destruct (Hok' dir Hin) as [Hpar _].
  destruct (Z.eqb_spec (dir_parent dir) (-1)) as [Hroot|Hne].
  { exfalso. apply (Hcycle 0%nat). by constructor. }
  destruct Hpar as [?|Hpar]; [done|].
  destruct (py_index_in_bounds dirs (dir_parent dir) Hpar) as (parent & Hlook & ->).
  cbn [bind_result]. rewrite IH; [done| |].
  - by eapply list_elem_of_lookup_2.
  - intros n Hreach. apply (Hcycle (S n)). by econstructor.
Qed.

Lemma build_path_cycle_witness :
  build_path 1000 [loop_dir] ["x"%string] loop_dir = Err RecursionError.
Proof.
  refine (build_path_cycle [loop_dir] ["x"%string] loop_dir _ _ _ 1000%nat).
  - unfold refs_in_bounds, len. repeat constructor; simpl; lia.
  - set_solver.
  - intros n. induction n as [|n IH]; intros Hreach;
      inversion Hreach as [? Hp|? parent ? _ Hl Hr]; subst; try discriminate.
    cbn in Hl. injection Hl as <-. exact (IH Hr).
Defined.

(** X17. The result of [build_path] does not depend on the fuel: a path
    returned with some fuel is returned with any larger one. *)
Theorem build_path_more_fuel (fuel fuel' : nat) (dirs : list VfsDir)
    (dnames : list string) (dir : VfsDir) (p : Path) :
  build_path fuel dirs dnames dir = Ok p ->
  (fuel <= fuel')%nat ->
  build_path fuel' dirs dnames dir = Ok p.
Proof.
  revert fuel' dir p. induction fuel as [|fuel IH]; intros fuel' dir p Hrun Hle;
    [discriminate|].
  destruct fuel' as [|fuel']; [lia|]. cbn [build_path] in *.
  destruct (dir_parent dir =? -1); [done|].
  destruct (py_index dirs (dir_parent dir)) as [parent|]; [|discriminate].
  cbn [bind_result] in *.
  destruct (build_path fuel dirs dnames parent) as [path|] eqn:Hpath; [|discriminate].
  by rewrite (IH fuel' parent path Hpath ltac:(lia)).
Qed.

Lemma build_path_more_fuel_witness :
  build_path 1000 chain_dirs chain_dnames chain_leaf =
    Ok {| root := ""; parts := ["root"; "mid"; "leaf"]%string |}.
Proof.
  apply (build_path_more_fuel 3 1000 chain_dirs chain_dnames chain_leaf).
  - reflexivity.
  - lia.
Defined.

(** X18. A parent field below -1 is an index from the end of the directory
    table, as a negative list index is in Python: with [-len(dirs) <= parent]
    the path continues at [dirs[len(dirs) + parent]]; a parent outside the
    table on either side raises IndexError. *)
Theorem build_path_parent_index (fuel : nat) (dirs : list VfsDir)
    (dnames : list string) (dir : VfsDir) :
  dir_parent dir <> -1 ->
  (forall parent,
     - len dirs <= dir_parent dir < -1 ->
     dirs !! Z.to_nat (len dirs + dir_parent dir) = Some parent ->
     build_path (S fuel) dirs dnames dir =
       (let? path := build_path fuel dirs dnames parent in
        let? name := py_index dnames (dir_id dir) in
        Ok (path // name))) /\
  (dir_parent dir < - len dirs \/ len dirs <= dir_parent dir ->
   build_path (S fuel) dirs dnames dir = Err IndexError).
Proof.
  intros Hne. cbn [build_path].
  destruct (Z.eqb_spec (dir_parent dir) (-1)); [done|]. split.
  - intros parent Hrange Hlook. unfold py_index at 1.
    destruct (Z.ltb_spec (dir_parent dir) 0); [|lia].
    destruct (Z.ltb_spec (dir_parent dir + len dirs) 0); [lia|].
    by rewrite Z.add_comm, Hlook.
  - intros Hout. unfold py_index at 1.
    destruct (Z.ltb_spec (dir_parent dir) 0).
    + destruct (Z.ltb_spec (dir_parent dir + len dirs) 0); [done|]. lia.
    + destruct (Z.ltb_spec (dir_parent dir) 0); [lia|].
      rewrite (proj2 (lookup_ge_None dirs (Z.to_nat (dir_parent dir)))); [done|].
      unfold len in Hout. lia.
Qed.

Lemma build_path_parent_index_witness :
  build_path 3 wrap_dirs chain_dnames wrap_dir =
    (let? path := build_path 2 wrap_dirs chain_dnames chain_mid in
     let? name := py_index chain_dnames (dir_id wrap_dir) in
     Ok (path // name)).
Proof.
  apply (proj1 (build_path_parent_index 2 wrap_dirs chain_dnames wrap_dir ltac:(done))).
  - unfold len. simpl. lia.
  - reflexivity.
Defined.

(** ** Unpacking: slices, growth and frames *)

Lemma py_slice_range {A} (l : list A) (a n : Z) :
  0 <= a -> 0 <= n ->
  py_slice l a (a + n) = take (Z.to_nat n) (drop (Z.to_nat a) l).
Proof.
  intros Ha Hn. unfold py_slice, clamp_index.
  destruct (Z.ltb_spec a 0); [lia|]. destruct (Z.ltb_spec (a + n) 0); [lia|].
  destruct (Z_le_gt_dec a (len l)) as [Hin|Hout].
  - rewrite (Z.min_l a) by done.
    destruct (Z_le_gt_dec (a + n) (len l)).
    + rewrite Z.min_l by done. f_equal. lia.
    + rewrite Z.min_r by lia.
      rewrite !take_ge; [done| |]; rewrite length_drop; unfold len in *; lia.
  - rewrite !Z.min_r by lia. rewrite Z.sub_diag. cbn [Z.to_nat take].
    rewrite (drop_ge l (Z.to_nat a)); [|unfold len in *; lia].
    by rewrite take_nil.
Qed.

(** X19. For a stored file (type 0) with an offset and a size that are not
    negative, as every record read from an archive has them, the content is
    the slice of the blob and never an error: [size] bytes when the range
    lies in the blob, and silently fewer when it runs past its end. *)
Theorem extract_stored (zdecompress : bytes -> Z -> result bytes) (blob : bytes)
    (file : VfsFile) :
  file_type file = 0 -> 0 <= file_offset file -> 0 <= file_size file ->
  exists data,
    extract zdecompress blob file = Ok data /\
    data = take (Z.to_nat (file_size file)) (drop (Z.to_nat (file_offset file)) blob) /\
    len data = Z.max 0 (Z.min (file_size file) (len blob - file_offset file)).
Proof.
  intros Htype Hoff Hsize.
  exists (take (Z.to_nat (file_size file)) (drop (Z.to_nat (file_offset file)) blob)).
  split; [|split].
  - unfold extract. rewrite Htype. cbn [Z.eqb]. f_equal. by apply py_slice_range.
  - reflexivity.
  - unfold len. rewrite length_take, length_drop. lia.
Qed.

Lemma extract_stored_witness :
  exists data,
    extract (fun _ _ => Err ZlibError) [x68; x69; x21]
      {| file_hash := 0; file_id := 0; file_type := 0; file_dir := 0;
         file_offset := 1; file_size := 5 |} = Ok data /\
    data = [x69; x21] /\
    len data = 2.
Proof.
  apply (extract_stored (fun _ _ => Err ZlibError) [x68; x69; x21]
           {| file_hash := 0; file_id := 0; file_type := 0; file_dir := 0;
              file_offset := 1; file_size := 5 |}); simpl; lia.
Defined.

Lemma keeps_bind {S A B} (R : S -> S -> Prop) (m : M S A) (k : A -> M S B) :
  (forall x y z, R x y -> R y z -> R x z) ->
  keeps R m -> (forall a, keeps R (k a)) -> keeps R (bind m k).
Proof.
  intros Htrans Hm Hk s. unfold bind. specialize (Hm s).
  destruct (m s) as [[a|e] s1]; [|done]. cbn [snd] in Hm.
  eapply Htrans; [done|apply Hk].
Qed.

Lemma keeps_lift {S A} (R : S -> S -> Prop) (r : result A) :
  (forall x, R x x) -> keeps R (lift r).
Proof. intros Hrefl s. apply Hrefl. Qed.

Lemma keeps_write_each {S A} (R : S -> S -> Prop) (wr : A -> M S unit) xs :
  (forall x, R x x) -> (forall x y z, R x y -> R y z -> R x z) ->
  (forall x, keeps R (wr x)) -> keeps R (write_each wr xs).
Proof.
  intros Hrefl Htrans Hwr. induction xs as [|x xs IH]; cbn [write_each].
  - intros s. apply Hrefl.
  - apply keeps_bind; [done|apply Hwr|]. by intros _.
Qed.

Lemma fs_grows_refl fs : fs_grows fs fs.
Proof. by repeat split. Qed.

Lemma fs_grows_trans fs1 fs2 fs3 : fs_grows fs1 fs2 -> fs_grows fs2 fs3 -> fs_grows fs1 fs3.
Proof.
  intros (Hc1 & Hd1 & Hf1) (Hc2 & Hd2 & Hf2). split; [congruence|].
  split; [set_solver|]. intros l Hl. by apply Hf2, Hf1.
Qed.

Lemma mkdir_grows p : keeps fs_grows (mkdir p).
Proof.
  intros fs. destruct (mkdir_any p fs) as (Hc & Hd & Hf).
  split; [done|]. split; [done|]. intros l. by rewrite Hf.
Qed.

Lemma write_bytes_grows p data : keeps fs_grows (write_bytes p data).
Proof.
  intros fs. destruct (write_bytes_any p data fs) as (Hc & Hd & Hf).
  split; [done|]. split; [by rewrite Hd|]. intros l Hl.
  destruct Hf as [->|[_ ->]]; [done|].
  destruct (decide (l = norm (fs_cwd fs) p)) as [->|Hne].
  - rewrite lookup_insert_eq. by eexists.
  - by rewrite lookup_insert_ne.
Qed.

Lemma read_bytes_keeps {A} p (k : bytes -> M filesystem A) (R : filesystem -> filesystem -> Prop) :
  (forall x y z, R x y -> R y z -> R x z) -> (forall x, R x x) ->
  (forall data, keeps R (k data)) -> keeps R (bind (read_bytes p) k).
Proof.
  intros Htrans Hrefl Hk. apply keeps_bind; [done| |done].
  intros fs. rewrite read_bytes_state. apply Hrefl.
Qed.

Lemma unpack_file_grows zdecompress fuel a prefix file :
  keeps fs_grows (unpack_file zdecompress fuel a prefix file).
Proof.
  unfold unpack_file.
  repeat (apply keeps_bind;
          [exact fs_grows_trans
          |first [apply keeps_lift, fs_grows_refl | apply mkdir_grows]
          |intros ?]).
  apply write_bytes_grows.
Qed.

Lemma decompress_keeps_grows zdecompress fuel vfs prefix :
  keeps fs_grows (decompress zdecompress fuel vfs prefix).
Proof.
  unfold decompress, with_open_rb.
  apply keeps_bind; [exact fs_grows_trans| |].
  - apply read_bytes_keeps; [exact fs_grows_trans|exact fs_grows_refl|].
    intros data. apply keeps_lift, fs_grows_refl.
  - intros a. apply keeps_write_each;
      [exact fs_grows_refl|exact fs_grows_trans|intros f; apply unpack_file_grows].
Qed.

(** X20. Whatever [decompress] does, and whether it returns or raises, it
    removes nothing: every directory and every file that existed before
    still exists afterwards. *)
Theorem decompress_grows (zdecompress : bytes -> Z -> result bytes) (fuel : nat)
    (vfs : string) (prefix : Path) (fs : filesystem) :
  let fs' := (decompress zdecompress fuel vfs prefix fs).2 in
  fs_dirs fs ⊆ fs_dirs fs' /\
  forall p, is_Some (fs_files fs !! p) -> is_Some (fs_files fs' !! p).
Proof. exact (proj2 (decompress_keeps_grows zdecompress fuel vfs prefix fs)). Qed.



(** ** Both engines: archives that cannot be read *)



(** ** Packing: what [compress] touches *)

Lemma fs_same_but_refl out fs : fs_same_but out fs fs.
Proof. by repeat split. Qed.

Lemma fs_same_but_trans out fs1 fs2 fs3 :
  fs_same_but out fs1 fs2 -> fs_same_but out fs2 fs3 -> fs_same_but out fs1 fs3.
Proof.
  intros (Hc1 & Hd1 & Hf1) (Hc2 & Hd2 & Hf2). split; [congruence|]. split; [congruence|].
  intros l Hl. rewrite Hf2, Hf1; [done|done|].
  intros Hl2. apply Hl. by apply (locate_same_dirs fs1 fs2).
Qed.

Lemma write_bytes_same_but p data : keeps (fs_same_but p) (write_bytes p data).
Proof.
  intros fs. destruct (write_bytes_any p data fs) as (Hc & Hd & Hf).
  split; [done|]. split; [done|]. intros l Hl.
  destruct Hf as [->|[Hloc ->]]; [done|].
  apply lookup_insert_ne. congruence.
Qed.

Lemma with_open_wb_same_but name wr :
  keeps (fs_same_but (PurePath name)) (with_open_wb name wr).
Proof.
  unfold with_open_wb.
  apply keeps_bind; [apply fs_same_but_trans|apply write_bytes_same_but|intros _].
  destruct (wr []) as [r out].
  apply keeps_bind; [apply fs_same_but_trans|apply write_bytes_same_but|intros _].
  apply keeps_lift, fs_same_but_refl.
Qed.

Lemma compress_keeps zcompress fuel ivfs prefix ovfs :
  keeps (fs_same_but (PurePath ovfs)) (compress zcompress fuel ivfs prefix ovfs).
Proof.
  unfold compress, with_open_rb.
  apply keeps_bind; [apply fs_same_but_trans| |].
  - apply read_bytes_keeps; [apply fs_same_but_trans|apply fs_same_but_refl|].
    intros data. apply keeps_lift, fs_same_but_refl.
  - intros a fs.
    destruct (pack_loop zcompress fuel fs a prefix (pack_start a)) as [[[]|e] st].
    + apply with_open_wb_same_but.
    + apply fs_same_but_refl.
Qed.

(** X23. Whatever [compress] does, and whether it returns or raises, the
    only thing it can change is the file at the location that the output
    path resolves to: the working directory and the directories are the
    same, and every other location holds what it held before. In particular
    the directory tree it packs and the input archive are left as they
    were, unless the output path resolves to one of their files. *)
Theorem compress_only_output (zcompress : bytes -> Z -> bytes) (fuel : nat)
    (ivfs : string) (prefix : Path) (ovfs : string) (fs : filesystem) :
  let fs' := (compress zcompress fuel ivfs prefix ovfs fs).2 in
  fs_cwd fs' = fs_cwd fs /\
  fs_dirs fs' = fs_dirs fs /\
  forall l, locate fs (PurePath ovfs) <> At l -> fs_files fs' !! l = fs_files fs !! l.
Proof. exact (compress_keeps zcompress fuel ivfs prefix ovfs fs). Qed.

Lemma pack_loop_all_data zcompress fuel fs a prefix st f :
  pack_loop zcompress fuel fs a prefix (pack_start a) = (Ok tt, st) ->
  f ∈ files a ->
  exists data,
    pack_data zcompress fuel fs (dirs a) (fnames a) (dnames a) prefix f = Ok data.
Proof.
  intros Hrun Hf. apply list_elem_of_lookup_1 in Hf as [i Hi].
  apply pack_loop_inv in Hrun as (datas & _ & _ & _ & Hat).
  assert (i ∈ pack_order (files a)) as Hin.
  { rewrite pack_order_perm. apply elem_of_seq. apply lookup_lt_Some in Hi. lia. }
  apply list_elem_of_lookup_1 in Hin as [k Hk].
  destruct (Hat k i Hk) as (f' & data & Hf' & _ & Hdata & _).
  exists data. congruence.
Qed.

(** X24. One file record whose content cannot be taken from the directory
    tree (the file is missing, or its path cannot be built) makes [compress]
    raise before the output is opened: the file system is as it was, and no
    output file is created or truncated. *)
Theorem compress_missing_source (zcompress : bytes -> Z -> bytes) (fuel : nat)
    (ivfs : string) (prefix : Path) (ovfs : string) (fs : filesystem)
    (data : bytes) (a : archive) (f : VfsFile) (e : error) :
  (read_bytes (PurePath ivfs) fs).1 = Ok data ->
  (read_vfs {| tell := 0; rest := data |}).1 = Ok a ->
  f ∈ files a ->
  source_data fuel fs (dirs a) (fnames a) (dnames a) prefix f = Err e ->
  exists e', compress zcompress fuel ivfs prefix ovfs fs = (Err e', fs).
Proof.
  intros Hfile Hread Hf Hsrc. unfold compress.
  rewrite (bind_ok _ _ fs a fs) by (by rewrite with_open_rb_eq, Hfile, Hread).
  destruct (pack_loop zcompress fuel fs a prefix (pack_start a)) as [[[]|e'] st] eqn:Hrun.
  - destruct (pack_loop_all_data _ _ _ _ _ _ f Hrun Hf) as [stored Hstored].
    unfold pack_data in Hstored. by rewrite Hsrc in Hstored.
  - by exists e'.
Qed.

Lemma compress_missing_source_witness :
  exists e', compress Stored.zcompress 8 "in.vfs" (PurePath "out") "re.vfs" sample_fs =
             (Err e', sample_fs).
Proof.
  apply (compress_missing_source Stored.zcompress 8 "in.vfs" (PurePath "out") "re.vfs"
           sample_fs sample_bytes sample_archive
           {| file_hash := 22; file_id := 0; file_type := 0; file_dir := 0;
              file_offset := 0; file_size := 3 |} OSError).
  - vm_compute. reflexivity.
  - vm_compute. reflexivity.
  - unfold sample_archive. cbn [files]. set_solver.
  - vm_compute. reflexivity.
Defined.

(** ** Packing: the table and the blob that [compress] writes *)

Lemma pack_order_lookup (table : list VfsFile) i :
  (i < length table)%nat -> exists k, pack_order table !! k = Some i.
Proof.
  intros Hi. apply list_elem_of_lookup_1.
  rewrite pack_order_perm. apply elem_of_seq. lia.
Qed.

Lemma pack_loop_metadata zcompress fuel fs a prefix st :
  pack_loop zcompress fuel fs a prefix (pack_start a) = (Ok tt, st) ->
  Forall2 same_metadata (files a) (ofiles st).
Proof.
  intros Hrun. apply pack_loop_inv in Hrun as (datas & _ & _ & Hlen & Hat).
  apply Forall2_same_length_lookup_2; [done|]. intros i f g Hf Hg.
  destruct (pack_order_lookup (files a) i) as [k Hk]; [by eapply lookup_lt_Some|].
  destruct (Hat k i Hk) as (f' & data & Hf' & _ & _ & Hg').
  simplify_eq. by repeat split.
Qed.

(** X25. When the loop of [compress] ends, the table it writes has the
    records of the table it read, in the same positions, with the same hash,
    id, type and directory: only offsets and sizes are assigned. *)
Theorem pack_keeps_metadata (zcompress : bytes -> Z -> bytes) (fuel : nat)
    (fs : filesystem) (a : archive) (prefix : Path) (st : pack_state) :
  pack_loop zcompress fuel fs a prefix (pack_start a) = (Ok tt, st) ->
  length (ofiles st) = length (files a) /\
  Forall2 same_metadata (files a) (ofiles st).
Proof.
  intros Hrun. pose proof (pack_loop_metadata _ _ _ _ _ _ Hrun) as Hmeta.
  split; [symmetry; by eapply Forall2_length|done].
Qed.

Lemma pack_keeps_metadata_witness :
  length (ofiles sample_packed) = length (files sample_archive) /\
  Forall2 same_metadata (files sample_archive) (ofiles sample_packed).
Proof.
  apply (pack_keeps_metadata Stored.zcompress 8 sample_unpacked sample_archive
           (PurePath "out") sample_packed).
  vm_compute. reflexivity.
Defined.

Lemma len_concat_take_mono (ls : list bytes) (j k : nat) :
  (j <= k)%nat -> len (concat (take j ls)) <= len (concat (take k ls)).
Proof.
  revert j k. induction ls as [|l ls IH]; intros j k Hjk.
  - rewrite !take_nil. lia.
  - destruct j as [|j]; [cbn [firstn concat]; unfold len; simpl; lia|].
    destruct k as [|k]; [lia|]. cbn [firstn concat]. rewrite !len_app.
    specialize (IH j k ltac:(lia)). lia.
Qed.

Lemma len_concat_take_S (ls : list bytes) (k : nat) l :
  ls !! k = Some l ->
  len (concat (take (S k) ls)) = len (concat (take k ls)) + len l.
Proof.
  intros Hk. rewrite (take_S_r _ _ _ Hk), concat_app, len_app.
  cbn [concat]. by rewrite app_nil_r.
Qed.

Lemma len_concat_take_le (ls : list bytes) (k : nat) :
  len (concat (take k ls)) <= len (concat ls).
Proof.
  destruct (le_lt_dec k (length ls)) as [Hle|Hgt].
  - rewrite <- (firstn_all ls) at 2. by apply len_concat_take_mono.
  - rewrite take_ge by lia. lia.
Qed.

(** X26. In the table that [compress] writes, the range of every file
    record lies within the blob, with an offset and a size that are not
    negative, and the ranges of two records at different positions do not
    overlap: a byte of the blob belongs to one record at most. *)
Theorem packed_ranges (zcompress : bytes -> Z -> bytes) (fuel : nat)
    (fs : filesystem) (a : archive) (prefix : Path) (st : pack_state) :
  pack_loop zcompress fuel fs a prefix (pack_start a) = (Ok tt, st) ->
  (forall i g, ofiles st !! i = Some g ->
     0 <= file_offset g /\ 0 <= file_size g /\
     file_offset g + file_size g <= len (oblob st)) /\
  (forall i j g h,
     ofiles st !! i = Some g -> ofiles st !! j = Some h -> i <> j ->
     file_offset g + file_size g <= file_offset h \/
     file_offset h + file_size h <= file_offset g).
Proof.
  intros Hrun.
  apply pack_loop_inv in Hrun as (datas & _ & Hblob & Hlen & Hat).
  assert (forall i g, ofiles st !! i = Some g ->
            exists k data, pack_order (files a) !! k = Some i /\ datas !! k = Some data /\
              file_offset g = len (concat (take k datas)) /\ file_size g = len data)
    as Hrec.
  { intros i g Hg.
    destruct (pack_order_lookup (files a) i) as [k Hk];
      [rewrite <- Hlen; by eapply lookup_lt_Some|].
    destruct (Hat k i Hk) as (f & data & _ & Hd & _ & Hg').
    rewrite Hg in Hg'. injection Hg' as ->. by exists k, data. }
  split.
  - intros i g Hg. destruct (Hrec i g Hg) as (k & data & _ & Hd & -> & ->).
    rewrite Hblob. pose proof (len_concat_take_S datas k data Hd).
    pose proof (len_concat_take_le datas (S k)). unfold len in *. lia.
  - intros i j g h Hg Hh Hij.
    destruct (Hrec i g Hg) as (k & data & Hk & Hd & -> & ->).
    destruct (Hrec j h Hh) as (k' & data' & Hk' & Hd' & -> & ->).
    assert (k <> k') by congruence.
    rewrite <- (len_concat_take_S datas k data Hd).
    rewrite <- (len_concat_take_S datas k' data' Hd').
    destruct (lt_dec k k'); [left|right]; apply len_concat_take_mono; lia.
Qed.

Lemma packed_ranges_witness :
  (forall i g, ofiles sample_packed !! i = Some g ->
     0 <= file_offset g /\ 0 <= file_size g /\
     file_offset g + file_size g <= len (oblob sample_packed)) /\
  (forall i j g h,
     ofiles sample_packed !! i = Some g -> ofiles sample_packed !! j = Some h -> i <> j ->
     file_offset g + file_size g <= file_offset h \/
     file_offset h + file_size h <= file_offset g).
Proof.
  apply (packed_ranges Stored.zcompress 8 sample_unpacked sample_archive
           (PurePath "out") sample_packed).
  vm_compute. reflexivity.
Defined.

Lemma insert_by_key_ext {A} (key1 key2 : A -> Z) x l :
  key1 x = key2 x -> (forall y, y ∈ l -> key1 y = key2 y) ->
  insert_by key1 x l = insert_by key2 x l.
Proof.
  intros Hx Hl. induction l as [|y l IH]; [done|]. cbn [insert_by].
  rewrite Hx, (Hl y) by set_solver. destruct (key2 x <=? key2 y); [done|].
  f_equal. apply IH. intros z Hz. apply Hl. set_solver.
Qed.

Lemma sorted_key_ext {A} (key1 key2 : A -> Z) l :
  (forall x, x ∈ l -> key1 x = key2 x) -> sorted key1 l = sorted key2 l.
Proof.
  intros Hl. induction l as [|x l IH]; [done|].
  unfold sorted in *. cbn [foldr]. rewrite IH by (intros y Hy; apply Hl; set_solver).
  apply insert_by_key_ext; [apply Hl; set_solver|].
  intros y Hy. apply Hl. apply list_elem_of_further.
  by rewrite <- (sorted_perm key2 l).
Qed.

Lemma pack_order_ext (t1 t2 : list VfsFile) :
  Forall2 same_metadata t1 t2 -> pack_order t1 = pack_order t2.
Proof.
  intros Hmeta. unfold pack_order. rewrite <- (Forall2_length _ _ _ Hmeta).
  apply sorted_key_ext. intros i _.
  destruct (t1 !! i) as [f|] eqn:Hf.
  - destruct (Forall2_lookup_l _ _ _ _ _ Hmeta Hf) as (g & -> & Hfg).
    symmetry. apply Hfg.
  - apply lookup_ge_None in Hf. rewrite (Forall2_length _ _ _ Hmeta) in Hf.
    apply lookup_ge_None in Hf. by rewrite Hf.
Qed.

Lemma pack_data_ext zcompress fuel fs odirs ofnames odnames prefix (f g : VfsFile) :
  same_metadata f g ->
  pack_data zcompress fuel fs odirs ofnames odnames prefix g =
  pack_data zcompress fuel fs odirs ofnames odnames prefix f.
Proof.
  intros (_ & Hid & Htype & Hdir). unfold pack_data, source_data, payload.
  by rewrite (file_path_ext _ _ _ _ _ f g Hdir Hid), Htype.
Qed.

Lemma relocate_ext (f g : VfsFile) off size :
  same_metadata f g -> relocate g off size = relocate f off size.
Proof. intros (Hh & Hi & Ht & Hd). unfold relocate. by rewrite Hh, Hi, Ht, Hd. Qed.

Lemma same_metadata_refl f : same_metadata f f.
Proof. by repeat split. Qed.

(** One step of the loop from two tables that agree up to offsets and sizes:
    the same error, or the same record assigned at the same position. *)
Lemma pack_file_sim zcompress fuel fs odirs ofnames odnames prefix x st1 st2 :
  offset st1 = offset st2 -> oblob st1 = oblob st2 ->
  Forall2 same_metadata (ofiles st1) (ofiles st2) ->
  (exists e,
     pack_file zcompress fuel fs odirs ofnames odnames prefix x st1 = (Err e, st1) /\
     pack_file zcompress fuel fs odirs ofnames odnames prefix x st2 = (Err e, st2)) \/
  (exists st1' st2' g,
     pack_file zcompress fuel fs odirs ofnames odnames prefix x st1 = (Ok tt, st1') /\
     pack_file zcompress fuel fs odirs ofnames odnames prefix x st2 = (Ok tt, st2') /\
     offset st1' = offset st2' /\ oblob st1' = oblob st2' /\
     (x < length (ofiles st1))%nat /\
     ofiles st1' = <[x := g]> (ofiles st1) /\ ofiles st2' = <[x := g]> (ofiles st2)).
Proof.
  intros Hoff Hblob Hmeta. unfold pack_file.
  destruct (ofiles st1 !! x) as [f|] eqn:Hf.
  - destruct (Forall2_lookup_l _ _ _ _ _ Hmeta Hf) as (g & Hg & Hfg). rewrite Hg.
    rewrite (pack_data_ext _ _ _ _ _ _ _ f g Hfg).
    destruct (pack_data zcompress fuel fs odirs ofnames odnames prefix f) as [data|e];
      [right|left; by exists e].
    rewrite (relocate_ext f g _ _ Hfg), <- Hoff, <- Hblob.
    eexists _, _, _. do 4 (split; [reflexivity|]).
    split; [by eapply lookup_lt_Some|by split].
  - pose proof Hf as Hg. apply lookup_ge_None in Hg.
    rewrite (Forall2_length _ _ _ Hmeta) in Hg. apply lookup_ge_None in Hg.
    rewrite Hg. left. by exists IndexError.
Qed.

(** Two runs of the loop from tables that agree up to offsets and sizes end
    alike, and agree on every record that was assigned. *)
Lemma pack_each_sim zcompress fuel fs odirs ofnames odnames prefix l st1 st2 :
  offset st1 = offset st2 -> oblob st1 = oblob st2 ->
  Forall2 same_metadata (ofiles st1) (ofiles st2) ->
  let r1 := write_each (pack_file zcompress fuel fs odirs ofnames odnames prefix) l st1 in
  let r2 := write_each (pack_file zcompress fuel fs odirs ofnames odnames prefix) l st2 in
  r1.1 = r2.1 /\
  (r1.1 = Ok tt ->
   oblob r1.2 = oblob r2.2 /\
   forall i, i ∈ l \/ ofiles st1 !! i = ofiles st2 !! i ->
             ofiles r1.2 !! i = ofiles r2.2 !! i).
Proof.
  revert st1 st2. induction l as [|x l IH]; intros st1 st2 Hoff Hblob Hmeta.
  { cbn. split; [done|]. intros _. split; [done|]. intros i [Hi|Hi]; [set_solver|done]. }
  cbn zeta. cbn [write_each]. unfold bind.
  destruct (pack_file_sim zcompress fuel fs odirs ofnames odnames prefix x st1 st2
              Hoff Hblob Hmeta)
    as [(e & -> & ->)|(st1' & st2' & g & -> & -> & Hoff' & Hblob' & Hx & Ht1 & Ht2)].
  { split; [reflexivity|]. intros Hok. cbn in Hok. discriminate. }
  destruct (IH st1' st2') as [Hres Hfin]; [done|done| |].
  { rewrite Ht1, Ht2. apply Forall2_insert; [done|apply same_metadata_refl]. }
  split; [done|]. intros Hok. destruct (Hfin Hok) as [Hb Hat]. split; [done|].
  intros i Hi. apply Hat. rewrite Ht1, Ht2.
  destruct (decide (i = x)) as [->|Hne].
  - right. rewrite !list_lookup_insert_eq; [done| |done].
    by rewrite <- (Forall2_length _ _ _ Hmeta).
  - destruct Hi as [Hi|Hi]; [left|right].
    + by apply elem_of_cons in Hi as [?|?].
    + by rewrite !list_lookup_insert_ne.
Qed.

(** X27. [compress] takes nothing from the blob, the offsets and the sizes
    of the archive it reads: two archives with the same directories, names
    and file records up to offset and size are packed alike from one
    directory tree, with the same error or the same table and blob. *)
Theorem pack_ignores_old_layout (zcompress : bytes -> Z -> bytes) (fuel : nat)
    (fs : filesystem) (a b : archive) (prefix : Path) :
  dirs b = dirs a -> fnames b = fnames a -> dnames b = dnames a ->
  Forall2 same_metadata (files a) (files b) ->
  let ra := pack_loop zcompress fuel fs a prefix (pack_start a) in
  let rb := pack_loop zcompress fuel fs b prefix (pack_start b) in
  ra.1 = rb.1 /\
  (ra.1 = Ok tt -> ofiles ra.2 = ofiles rb.2 /\ oblob ra.2 = oblob rb.2).
Proof.
  intros Hdirs Hfn Hdn Hmeta. cbn zeta. unfold pack_loop.
  rewrite Hdirs, Hfn, Hdn, <- (pack_order_ext _ _ Hmeta).
  destruct (pack_each_sim zcompress fuel fs (dirs a) (fnames a) (dnames a) prefix
              (pack_order (files a)) (pack_start a) (pack_start b))
    as [Hres Hfin]; [done|done|done|].
  split; [done|]. intros Hok. destruct (Hfin Hok) as [Hblob Hat].
  split; [|done]. apply list_eq. intros i. apply Hat.
  destruct (le_lt_dec (length (files a)) i) as [Hout|Hin].
  - right. cbn [pack_start ofiles].
    rewrite (proj2 (lookup_ge_None (files a) i)) by done.
    rewrite (proj2 (lookup_ge_None (files b) i)); [done|].
    by rewrite <- (Forall2_length _ _ _ Hmeta).
  - left. destruct (pack_order_lookup (files a) i Hin) as [k Hk].
    by eapply list_elem_of_lookup_2.
Qed.

Lemma pack_ignores_old_layout_witness :
  let b := {| dirs := dirs sample_archive;
              files := (fun f => relocate f 7 0) <$> files sample_archive;
              blob := []; fnames := fnames sample_archive;
              dnames := dnames sample_archive |} in
  let ra := pack_loop Stored.zcompress 8 sample_unpacked sample_archive (PurePath "out")
              (pack_start sample_archive) in
  let rb := pack_loop Stored.zcompress 8 sample_unpacked b (PurePath "out")
              (pack_start b) in
  ra.1 = rb.1 /\
  (ra.1 = Ok tt -> ofiles ra.2 = ofiles rb.2 /\ oblob ra.2 = oblob rb.2).
Proof.
  apply (pack_ignores_old_layout Stored.zcompress 8 sample_unpacked sample_archive
           {| dirs := dirs sample_archive;
              files := (fun f => relocate f 7 0) <$> files sample_archive;
              blob := []; fnames := fnames sample_archive;
              dnames := dnames sample_archive |} (PurePath "out")); [done..|].
  cbn [files sample_archive fmap list_fmap]. repeat constructor.
Defined.

(** ** Unpacking: absolute names *)

Lemma joinpath_absolute (p q : Path) : root q <> "" -> joinpath p q = q.
Proof. intros Hq. unfold joinpath. by rewrite bool_decide_eq_false_2. Qed.

Lemma truediv_absolute (p : Path) (name : string) :
  root p <> "" -> root (p // name) <> "".
Proof.
  intros Hp. unfold truediv, joinpath. by case_bool_decide.
Qed.

(** X28. [decompress] does not confine what it writes to [prefix]: when the
    path built for the directory of a file is absolute (a directory name of
    the archive begins with a slash), the directory is made and the file is
    written at that absolute path, and [prefix] plays no part. *)
Theorem unpack_absolute_path (zdecompress : bytes -> Z -> result bytes) (fuel : nat)
    (a : archive) (file : VfsFile) (dir : VfsDir) (path prefix : Path)
    (fs : filesystem) :
  py_index (dirs a) (file_dir file) = Ok dir ->
  build_path fuel (dirs a) (dnames a) dir = Ok path ->
  root path <> "" ->
  unpack_file zdecompress fuel a prefix file fs =
    (let* data := lift (extract zdecompress (blob a) file) in
     mkdir path >>
     let* name := lift (py_index (fnames a) (file_id file)) in
     write_bytes (path // name) data) fs.
Proof.
  intros Hdir Hpath Habs. unfold unpack_file, bind, lift. rewrite Hdir, Hpath.
  destruct (extract zdecompress (blob a) file) as [data|]; [|done].
  rewrite (joinpath_absolute prefix path Habs).
  destruct (mkdir path fs) as [[[]|] fs1]; [|done].
  destruct (py_index (fnames a) (file_id file)) as [name|]; [|done].
  by rewrite (joinpath_absolute prefix (path // name) (truediv_absolute _ _ Habs)).
Qed.

Lemma unpack_absolute_path_witness :
  unpack_file Stored.zdecompress 5 escape_archive (PurePath "out")
    {| file_hash := 0; file_id := 0; file_type := 0; file_dir := 0;
       file_offset := 0; file_size := 2 |}
    {| fs_cwd := ["work"]%string; fs_dirs := {[ ["work"]%string ]}; fs_files := ∅ |} =
  (Ok tt, {| fs_cwd := ["work"]%string;
             fs_dirs := {[ ["tmp"]%string; ["work"]%string ]};
             fs_files := {[ ["tmp"; "f"]%string := [x68; x69] ]} |}).
Proof.
  rewrite (unpack_absolute_path Stored.zdecompress 5 escape_archive _
             {| dir_hash := 0; dir_id := 0; dir_parent := -1;
                dir_from_dir := -1; dir_from_file := 0 |}
             (PurePath "/tmp") (PurePath "out")); [|reflexivity|reflexivity|discriminate].
  vm_compute. reflexivity.
Defined.

(** ** The command line *)

Lemma with_open_wb_grows name wr : keeps fs_grows (with_open_wb name wr).
Proof.
  unfold with_open_wb.
  apply keeps_bind; [exact fs_grows_trans|apply write_bytes_grows|intros _].
  destruct (wr []) as [r out].
  apply keeps_bind; [exact fs_grows_trans|apply write_bytes_grows|intros _].
  apply keeps_lift, fs_grows_refl.
Qed.

Lemma compress_keeps_grows zcompress fuel ivfs prefix ovfs :
  keeps fs_grows (compress zcompress fuel ivfs prefix ovfs).
Proof.
  unfold compress, with_open_rb.
  apply keeps_bind; [exact fs_grows_trans| |].
  - apply read_bytes_keeps; [exact fs_grows_trans|exact fs_grows_refl|].
    intros data. apply keeps_lift, fs_grows_refl.
  - intros a fs.
    destruct (pack_loop zcompress fuel fs a prefix (pack_start a)) as [[[]|e] st].
    + apply with_open_wb_grows.
    + apply fs_grows_refl.
Qed.

Lemma run_mode_keeps_grows zcompress zdecompress fuel argv :
  keeps fs_grows (run_mode zcompress zdecompress fuel argv).
Proof.
  unfold run_mode.
  apply keeps_bind; [exact fs_grows_trans|apply keeps_lift, fs_grows_refl|intros mode].
  repeat case_bool_decide.
  - repeat (apply keeps_bind;
            [exact fs_grows_trans|apply keeps_lift, fs_grows_refl|intros ?]).
    apply compress_keeps_grows.
  - repeat (apply keeps_bind;
            [exact fs_grows_trans|apply keeps_lift, fs_grows_refl|intros ?]).
    apply decompress_keeps_grows.
  - intros fs. apply fs_grows_refl.
Qed.

(** X29. Whatever the arguments and the state of the file system, a run of
    the program removes nothing: every directory and every file that existed
    before exists afterwards. It prints only the usage text, and then only
    when it exits with code 1. *)
Theorem main_never_removes (zcompress : bytes -> Z -> bytes)
    (zdecompress : bytes -> Z -> result bytes) (fuel : nat) (argv : list string)
    (fs : filesystem) :
  let run := main zcompress zdecompress fuel argv fs in
  fs_dirs fs ⊆ fs_dirs run.2 /\
  (forall p, is_Some (fs_files fs !! p) -> is_Some (fs_files run.2 !! p)) /\
  (run.1.2 = [] \/ run.1 = (Exited 1, usage)).
Proof.
  cbn zeta. unfold main. destruct (len argv <? 2).
  { split; [done|]. split; [done|by right]. }
  pose proof (run_mode_keeps_grows zcompress zdecompress fuel argv fs) as (_ & Hd & Hf).
  destruct (run_mode zcompress zdecompress fuel argv fs) as [[[]|e] fs'];
    (split; [done|]; split; [done|by left]).
Qed.

Lemma run_mode_short zcompress zdecompress fuel (argv : list string) mode fs :
  argv !! 1%nat = Some mode ->
  (mode = "c"%string /\ len argv < 5) \/ (mode = "d"%string /\ len argv < 4) ->
  run_mode zcompress zdecompress fuel argv fs = (Err IndexError, fs).
Proof.
  intros Hmode Hshort. unfold run_mode, bind, lift.
  assert (forall i, len argv <= i -> py_index argv i = Err IndexError) as Hout.
  { intros i Hi. unfold py_index, len in *.
    destruct (Z.ltb_spec i 0); [lia|]. destruct (Z.ltb_spec i 0); [lia|].
    rewrite (proj2 (lookup_ge_None argv (Z.to_nat i))); [done|lia]. }
  assert (forall i, py_index argv i = Err IndexError \/ exists x, py_index argv i = Ok x)
    as Hany.
  { intros i. destruct (py_index argv i) as [x|e] eqn:Hi; [right; by exists x|left].
    f_equal. revert Hi. unfold py_index. repeat case_match; congruence. }
  assert (py_index argv 1 = Ok mode) as ->.
  { unfold py_index. change (1 <? 0) with false. cbn iota.
    change (Z.to_nat 1) with 1%nat. by rewrite Hmode. }
  destruct Hshort as [[-> Hlen]|[-> Hlen]]; cbn [bool_decide decide_rel].
  - rewrite bool_decide_eq_true_2 by done.
    destruct (Hany 2) as [->|[x2 ->]]; [done|].
    destruct (Hany 3) as [->|[x3 ->]]; [done|].
    by rewrite (Hout 4) by lia.
  - rewrite bool_decide_eq_false_2 by done. rewrite bool_decide_eq_true_2 by done.
    destruct (Hany 2) as [->|[x2 ->]]; [done|].
    by rewrite (Hout 3) by lia.
Qed.

(** X30. A run with too few arguments does nothing to the file system:
    without a mode it prints the usage text and exits with code 1; in mode
    [c] with fewer than three arguments after the mode, and in mode [d] with
    fewer than two, it ends with an uncaught IndexError before any file is
    opened. *)
Theorem main_too_few_arguments (zcompress : bytes -> Z -> bytes)
    (zdecompress : bytes -> Z -> result bytes) (fuel : nat) (argv : list string)
    (fs : filesystem) :
  (len argv < 2 ->
   main zcompress zdecompress fuel argv fs = (Exited 1, usage, fs)) /\
  (forall mode,
     argv !! 1%nat = Some mode ->
     (mode = "c"%string /\ len argv < 5) \/ (mode = "d"%string /\ len argv < 4) ->
     main zcompress zdecompress fuel argv fs = (Raised IndexError, [], fs)).
Proof.
  split.
  - intros Hlen. unfold main. by destruct (Z.ltb_spec (len argv) 2); [|lia].
  - intros mode Hmode Hshort. unfold main.
    destruct (Z.ltb_spec (len argv) 2) as [Hlen|_].
    { apply lookup_lt_Some in Hmode. unfold len in Hlen. lia. }
    by rewrite (run_mode_short _ _ _ _ mode fs Hmode Hshort).
Qed.

Lemma main_too_few_arguments_witness :
  main Stored.zcompress Stored.zdecompress 8 ["vfs2.py"; "c"; "in.vfs"; "out"]%string
       sample_fs = (Raised IndexError, [], sample_fs).
Proof.
  apply (proj2 (main_too_few_arguments Stored.zcompress Stored.zdecompress 8
                  ["vfs2.py"; "c"; "in.vfs"; "out"]%string sample_fs) "c"%string).
  - reflexivity.
  - left. split; [reflexivity|unfold len; simpl; lia].
Defined.
